(** * onion-scraper: proxy rotation, resilient fetch, record store and ledger

    Shallow embedding of the stateful core of
    [src/proxy_extension.py] (classes [ProxyManager] and
    [ProxyRotatingRequests]) and of
    [src/pastebin_comprehensive_scraper.py] (class
    [ComprehensivePastebinScraper]), with the properties of the
    specification stated and proved over it.

    Conventions of the embedding
    - a Python method that mutates [self] is a computation in the state
      and exception monad [M S A := S -> result A * S];
    - the environment (wall clock, HTTP peers, random source, disk faults)
      is a family of oracles indexed by the number of calls made so far;
      every theorem quantifies over all oracles;
    - Python [int] is [Z]; a Python [float] is the rational [Q] it
      denotes, and every float operation of the modelled code rounds its
      exact result to the nearest double ([round64], [ratio_gt_0_7]);
    - [dict] is [gmap], [set] is [gset], [list] is [list];
    - the embedding is sequential.  [ProxyManager] takes its lock once per
      method and no method calls another, so it is left implicit there;
      the scraper's lock is modelled, because [add_entry] calls [_save_db]
      while holding it. *)

From Stdlib Require Import ZArith QArith Qround Qpower Lia Lqa.
From stdpp Require Import gmap strings list fin_maps.

Open Scope string_scope.
Open Scope list_scope.
Open Scope Z_scope.

(** ** State and exception monad *)

(** The exceptions the modelled code can meet (all are subclasses of
    Python's [Exception]). *)
Inductive exn : Type :=
  | KeyError (key : string)
  | IndexError
  | ZeroDivisionError
  | Timeout
  | ConnectionError
  | OSError
  | OtherException.

(** How a call ends: it returns, it raises, or it never returns because it
    waits for a lock that will not be released. *)
Inductive result (A : Type) : Type :=
  | Ok (a : A)
  | Raise (e : exn)
  | Blocked.
Arguments Ok {A} a.
Arguments Raise {A} e.
Arguments Blocked {A}.

Definition M (S A : Type) : Type := S -> result A * S.

Definition ret {S A} (a : A) : M S A := fun s => (Ok a, s).
Definition raise {S A} (e : exn) : M S A := fun s => (Raise e, s).
Definition bind {S A B} (c : M S A) (k : A -> M S B) : M S B :=
  fun s => match c s with
           | (Ok a, s') => k a s'
           | (Raise e, s') => (Raise e, s')
           | (Blocked, s') => (Blocked, s')
           end.
Definition get_state {S} : M S S := fun s => (Ok s, s).
Definition modify {S} (f : S -> S) : M S unit := fun s => (Ok tt, f s).
(** [try: c except Exception: h] *)
Definition try_except {S A} (c : M S A) (h : exn -> M S A) : M S A :=
  fun s => match c s with
           | (Ok a, s') => (Ok a, s')
           | (Raise e, s') => h e s'
           | (Blocked, s') => (Blocked, s')
           end.

Notation "'do' x <- c ; k" := (bind c (fun x => k))
  (at level 10, x name, c at level 100, k at level 200).
Notation "c ;; k" := (bind c (fun _ => k))
  (at level 100, k at level 200, right associativity).

Definition exec {S A} (c : M S A) (s : S) : S := snd (c s).
Definition eval {S A} (c : M S A) (s : S) : result A := fst (c s).

(** ** Python float comparison [x / y > 0.7]

    [x] and [y] are Python ints with [0 <= x] and [0 < y]; [x / y] is the
    correctly rounded binary64 quotient and [0.7] is the double
    [6305039478318694 * 2^-53].  That significand is even, so under
    round-to-nearest-even the quotient rounds strictly above [0.7] exactly
    when the real quotient is strictly above the midpoint
    [12610078956637389 * 2^-54] between [0.7] and the next double. *)
Definition ratio_gt_0_7 (x y : Z) : bool :=
  12610078956637389 * y <? x * 2 ^ 54.

Definition Qltb (a b : Q) : bool :=
  (Qnum a * QDen b <? Qnum b * QDen a)%Z.

(** ** Python float arithmetic

    Every arithmetic operation on floats gives the double nearest to the
    exact result, the one with an even significand when the result lies
    half way between two doubles.  [round64] is that rounding on the
    rationals.  Results beyond the largest double, which Python turns
    into an infinity, are not modelled: the quotients of counters and the
    differences of time stamps that the code computes are far below. *)

(** The integer nearest to [x], the even one of the two when [x] lies half
    way. *)
Definition rne (x : Q) : Z :=
  let f := Qfloor x in
  let r := (x - inject_Z f)%Q in
  if Qltb r (1 # 2) then f
  else if Qltb (1 # 2) r then f + 1
  else if Z.even f then f else f + 1.

(** For [0 < x], the exponent of the unit in the last place of the doubles
    around [x]: the [e] with [2^(e+52) <= x < 2^(e+53)], and [-1074] for
    the subnormal numbers below. *)
Definition binade (x : Q) : Z :=
  let k := Z.log2 (Qnum x) - Z.log2 (QDen x) in
  Z.max (if Qltb x (2 ^ k)%Q then k - 53 else k - 52) (-1074).

Definition round64_pos (x : Q) : Q :=
  (inject_Z (rne (x / 2 ^ binade x)) * 2 ^ binade x)%Q.

Definition round64 (x : Q) : Q :=
  if Qltb 0 x then round64_pos x
  else if Qltb x 0 then (- round64_pos (- x))%Q
  else 0%Q.

(** The double that the literal [0.1] denotes. *)
Definition double_0_1 : Q := 3602879701896397 # 36028797018963968.

(** ** HTTP as the code sees it

    What a call of [requests.get] or [session.request] produces: a response
    or an exception. *)
Record Response : Type := mkResponse {
  status_code : Z;
  text : string
}.

Inductive Outcome : Type :=
  | Responded (r : Response)
  | Failed (e : exn).

Definition newline : string := String (Ascii.ascii_of_nat 10) "".

(** ** proxy_extension.py *)

Module Proxy.

(** [{"success": _, "failures": _, "last_used": _}] *)
Record ProxyStat : Type := mkStat {
  success : Z;
  failures : Z;
  last_used : Q
}.

Record ProxyManager : Type := mkManager {
  proxies : list string;
  current_index : Z;
  failed_proxies : gset string;
  proxy_stats : gmap string ProxyStat
}.

(** One request put on the wire: method, url, proxy. *)
Record Request : Type := mkRequest {
  req_method : string;
  req_url : string;
  req_proxy : string
}.

(** The manager plus the observable interaction with the environment. *)
Record World : Type := mkWorld {
  manager : ProxyManager;
  clock_reads : nat;        (* calls to time.time() so far *)
  sent : list Request;      (* requests issued so far, oldest first *)
  slept : list Z            (* arguments of time.sleep, oldest first *)
}.

(** [ProxyRotatingRequests.__init__] attributes. *)
Record Client : Type := mkClient {
  max_retries : Z;
  retry_delay : Z;
  timeout : Z
}.

Definition default_client : Client :=
  {| max_retries := 5; retry_delay := 2; timeout := 15 |}.

Definition fresh_stat : ProxyStat :=
  {| success := 0; failures := 0; last_used := 0 |}.

(** [ProxyManager.__init__] *)
Definition init (proxy_list : option (list string)) : ProxyManager :=
  let ps := default [] proxy_list in          (* proxy_list or [] *)
  {| proxies := ps;
     current_index := 0;
     failed_proxies := ∅;
     proxy_stats := foldl (fun m p => <[p := fresh_stat]> m) ∅ ps |}.

Definition set_manager (f : ProxyManager -> ProxyManager) (w : World) : World :=
  {| manager := f (manager w); clock_reads := clock_reads w;
     sent := sent w; slept := slept w |}.

Definition set_stats (f : gmap string ProxyStat -> gmap string ProxyStat)
    (pm : ProxyManager) : ProxyManager :=
  {| proxies := proxies pm; current_index := current_index pm;
     failed_proxies := failed_proxies pm; proxy_stats := f (proxy_stats pm) |}.

Definition set_failed (f : gset string -> gset string)
    (pm : ProxyManager) : ProxyManager :=
  {| proxies := proxies pm; current_index := current_index pm;
     failed_proxies := f (failed_proxies pm); proxy_stats := proxy_stats pm |}.

Definition set_proxies (f : list string -> list string)
    (pm : ProxyManager) : ProxyManager :=
  {| proxies := f (proxies pm); current_index := current_index pm;
     failed_proxies := failed_proxies pm; proxy_stats := proxy_stats pm |}.

(** [ProxyManager.add_proxies], one iteration of its loop. *)
Definition add_proxy (pm : ProxyManager) (proxy : string) : ProxyManager :=
  if decide (proxy ∈ proxies pm) then pm
  else set_stats (insert proxy fresh_stat) (set_proxies (fun l => l ++ [proxy]) pm).

Definition add_proxies (proxy_list : list string) : M World unit :=
  modify (set_manager (fun pm => foldl add_proxy pm proxy_list)).

(** Stable sort by decreasing key: what [list.sort(key=..., reverse=True)]
    computes.  Elements with equal keys keep their original order. *)
Fixpoint insert_desc (x : Q * string) (l : list (Q * string)) : list (Q * string) :=
  match l with
  | [] => [x]
  | y :: l' => if Qltb (fst x) (fst y) then y :: insert_desc x l' else x :: y :: l'
  end.

Definition sort_desc (l : list (Q * string)) : list (Q * string) :=
  foldr insert_desc [] l.

Section Environment.

(** [clock k] is what the [k]-th call of [time.time()] returns;
    [server k rq] is what the [k]-th request does when it is [rq]. *)
Variable clock : nat -> Q.
Variable server : nat -> Request -> Outcome.

Definition time_time : M World Q :=
  fun w => (Ok (clock (clock_reads w)),
            {| manager := manager w; clock_reads := S (clock_reads w);
               sent := sent w; slept := slept w |}).

Definition time_sleep (d : Z) : M World unit :=
  modify (fun w => {| manager := manager w; clock_reads := clock_reads w;
                      sent := sent w; slept := slept w ++ [d] |}).

Definition session_request (method url proxy : string) : M World Outcome :=
  fun w => let rq := mkRequest method url proxy in
           (Ok (server (length (sent w)) rq),
            {| manager := manager w; clock_reads := clock_reads w;
               sent := sent w ++ [rq]; slept := slept w |}).

(** [proxy_score], the sort key local to [get_best_proxy].  The quotient
    of the two counters, the difference of the two time stamps, the
    division by [3600], the product with [0.1] and the sum are float
    operations. *)
Definition proxy_score (proxy : string) : M World Q :=
  do w <- get_state;
  match proxy_stats (manager w) !! proxy with
  | None => raise (KeyError proxy)
  | Some stats =>
      let total_requests := success stats + failures stats in
      if total_requests =? 0 then ret 1%Q
      else
        let success_rate :=
          round64 (inject_Z (success stats) / inject_Z total_requests) in
        do now <- time_time;
        let time_penalty := round64 (round64 (now - last_used stats) / 3600) in
        ret (round64 (success_rate + round64 (time_penalty * double_0_1)))
  end.

(** The keys are computed once per element, in list order, before any
    element moves. *)
Fixpoint score_all (l : list string) : M World (list (Q * string)) :=
  match l with
  | [] => ret []
  | p :: l' =>
      do k <- proxy_score p;
      do ks <- score_all l';
      ret ((k, p) :: ks)
  end.

(** [ProxyManager.get_best_proxy] *)
Definition get_best_proxy : M World (option string) :=
  do w <- get_state;
  let pm := manager w in
  match proxies pm with
  | [] => ret None
  | _ :: _ =>
      let available_proxies :=
        filter (fun p => p ∉ failed_proxies pm) (proxies pm) in
      match available_proxies with
      | [] =>
          (* reset; [available_proxies] now aliases [self.proxies], which
             the sort below therefore reorders in place *)
          modify (set_manager (set_failed (fun _ => ∅))) ;;
          do keyed <- score_all (proxies pm);
          let sorted := (sort_desc keyed).*2 in
          modify (set_manager (set_proxies (fun _ => sorted))) ;;
          match sorted with
          | p :: _ => ret (Some p)
          | [] => raise IndexError
          end
      | _ :: _ =>
          do keyed <- score_all available_proxies;
          match (sort_desc keyed).*2 with
          | p :: _ => ret (Some p)
          | [] => raise IndexError
          end
      end
  end.

(** [ProxyManager.mark_success] *)
Definition mark_success (proxy : string) : M World unit :=
  do w <- get_state;
  match proxy_stats (manager w) !! proxy with
  | None => ret tt
  | Some st =>
      let st1 := mkStat (success st + 1) (failures st) (last_used st) in
      do now <- time_time;
      let st2 := mkStat (success st1) (failures st1) now in
      modify (set_manager (fun pm =>
        set_failed (fun f => f ∖ {[proxy]})
          (set_stats (insert proxy st2) pm)))
  end.

(** [ProxyManager.mark_failure] *)
Definition mark_failure (proxy : string) : M World unit :=
  do w <- get_state;
  match proxy_stats (manager w) !! proxy with
  | None => ret tt
  | Some st =>
      let stats := mkStat (success st) (failures st + 1) (last_used st) in
      modify (set_manager (set_stats (insert proxy stats))) ;;
      let total := success stats + failures stats in
      if (10 <? total) && ratio_gt_0_7 (failures stats) total
      then modify (set_manager (set_failed (fun f => f ∪ {[proxy]})))
      else ret tt
  end.

(** One pass through the body of the [while] loop of
    [ProxyRotatingRequests.request], from the request to the report to the
    manager: [Some (response, proxy)] is the [return] of the body, [None]
    means that control reaches [retries += 1]. *)
Definition attempt (method url proxy : string)
    : M World (option (Response * string)) :=
  do out <- session_request method url proxy;
  match out with
  | Responded response =>
      if status_code response =? 200 then
        mark_success proxy ;; ret (Some (response, proxy))
      else if bool_decide (status_code response ∈ [403; 429; 503; 502; 504]) then
        mark_failure proxy ;; ret None
      else if status_code response =? 404 then
        mark_success proxy ;; ret (Some (response, proxy))
      else
        mark_failure proxy ;; ret None
  | Failed Timeout => mark_failure proxy ;; ret None
  | Failed ConnectionError => mark_failure proxy ;; ret None
  | Failed _ => mark_failure proxy ;; ret None
  end.

Section Client.

Variable self : Client.
Variables method url : string.

(** [time.sleep(min(sleep_time, 30))] after the attempt that made the
    counter [retries], when another attempt follows. *)
Definition backoff (retries : Z) : M World unit :=
  if retries <? max_retries self then
    let sleep_time := retry_delay self * 2 ^ (retries - 1) in
    time_sleep (Z.min sleep_time 30)
  else ret tt.

(** The [while retries < self.max_retries] loop.  [retries] grows by one
    per iteration, so the loop is a recursion on the number [remaining]
    of iterations left, [max_retries - retries]; [remaining = 0] is the
    loop test failing.  A falsy proxy ([None] or the empty string) is the
    [break]. *)
Fixpoint request_loop (remaining : nat) (retries : Z)
    : M World (option Response * option string) :=
  match remaining with
  | O => ret (None, None)
  | S remaining' =>
      do proxy <- get_best_proxy;
      match proxy with
      | None => ret (None, None)
      | Some p =>
          if decide (p = "") then ret (None, None)
          else
            do r <- attempt method url p;
            match r with
            | Some (response, used) => ret (Some response, Some used)
            | None =>
                let retries := retries + 1 in
                backoff retries ;;
                request_loop remaining' retries
            end
      end
  end.

(** [ProxyRotatingRequests.request] *)
Definition request : M World (option Response * option string) :=
  request_loop (Z.to_nat (max_retries self)) 0.

End Client.

End Environment.

(** *** Notions used to state the properties *)

(** [failures / total] as the exact quotient. *)
Definition failure_rate (st : ProxyStat) : Q :=
  (inject_Z (failures st) / inject_Z (success st + failures st))%Q.

(** Every address of the pool has statistics and conversely: what
    [__init__] establishes and every method keeps. *)
Definition wf (pm : ProxyManager) : Prop :=
  forall p, p ∈ proxies pm <-> is_Some (proxy_stats pm !! p).

(** [n] more readings of the clock, nothing else. *)
Definition tick (n : nat) (w : World) : World :=
  {| manager := manager w; clock_reads := n + clock_reads w;
     sent := sent w; slept := slept w |}.

(** The world once [rq] has been put on the wire. *)
Definition send (rq : Request) (w : World) : World :=
  {| manager := manager w; clock_reads := clock_reads w;
     sent := sent w ++ [rq]; slept := slept w |}.

(** The delays of a fetch that fails [n] times with initial delay [base]:
    [min (base * 2^(k-1)) 30] after attempt [k], for [k = 1 .. n-1]. *)
Definition backoff_series (base : Z) (n : Z) : list Z :=
  (fun k => Z.min (base * 2 ^ (k - 1)) 30) <$> seqZ 1 (n - 1).

Definition total_wait (l : list Z) : Z := foldr Z.add 0 l.

(** The statuses on which the loop body returns. *)
Definition returns_response (out : Outcome) : option Response :=
  match out with
  | Responded r =>
      if (status_code r =? 200) || (status_code r =? 404) then Some r else None
  | Failed _ => None
  end.

(** A pool the fetcher can use: well formed, not empty, and without the
    empty string, which [if not proxy] takes for "no proxy". *)
Definition usable (pm : ProxyManager) : Prop :=
  wf pm /\ proxies pm <> [] /\ "" ∉ proxies pm.

(** A pool with one address that failed 7 times out of 9. *)
Definition w_7_of_9 : World :=
  {| manager := {| proxies := ["p"]; current_index := 0; failed_proxies := ∅;
                   proxy_stats := {[ "p" := mkStat 2 7 0 ]} |};
     clock_reads := 0; sent := []; slept := [] |}.

(** A pool with an address that succeeded 8 times out of 10 and was last
    used at time 0, and an address that was never used. *)
Definition w_8_of_10 : World :=
  {| manager := {| proxies := ["old"; "new"]; current_index := 0;
                   failed_proxies := ∅;
                   proxy_stats := {[ "old" := mkStat 8 2 0; "new" := fresh_stat ]} |};
     clock_reads := 0; sent := []; slept := [] |}.

Definition w_quarantined : World :=
  {| manager := {| proxies := ["p"]; current_index := 0;
                   failed_proxies := {["p"]};
                   proxy_stats := {[ "p" := mkStat 0 11 0 ]} |};
     clock_reads := 0; sent := []; slept := [] |}.

End Proxy.

(** ** pastebin_comprehensive_scraper.py *)

Module Scraper.

(** [{"onionLink": _}], with the optional ["classification"] key that the
    enrichment layer adds. *)
Record LinkEntry : Type := mkLink {
  onionLink : string;
  classification : option string
}.

(** An element of [db["onion_links"]].  [pasteId] is read with [.get], so
    a dict without that key is [None]. *)
Record Entry : Type := mkEntry {
  crawledTimeStamp : string;
  pasteDateTimestamp : string;
  sourcePasteUrl : string;
  sourcePasteTitle : string;
  onionLinks : list LinkEntry;
  pasteId : option string
}.

Record Session : Type := mkSession {
  start_time : string;
  strategy : string;
  end_time : string;
  session_processed : Z;
  session_found : Z
}.

(** [{"onion_links": [...], "metadata": {"scan_sessions": [...]}}] *)
Record DB : Type := mkDB {
  onion_links : list Entry;
  scan_sessions : list Session
}.

Record Progress : Type := mkProgress {
  processed : Z;
  found : Z;
  errors : Z
}.

(** The keys of [self.config] that the modelled methods read, with
    [db_path]. *)
Record Config : Type := mkConfig {
  db_path : string;
  save_interval : Z;
  delay_range : Q * Q;
  rate_limit_delay : Q
}.

Definition default_config : Config :=
  {| db_path := "comprehensive_onion_links.json";
     save_interval := 100;
     delay_range := (1%Q, 3%Q);
     rate_limit_delay := 60%Q |}.

(** The scraper object together with the part of the world it acts on. *)
Record Scraper : Type := mkScraper {
  db : DB;
  processed_ids : gset string;
  is_running : bool;
  scan_progress : Progress;
  last_request_time : Q;
  lock_held : bool;               (* self.lock, a threading.Lock *)
  disk : gmap string string;      (* path -> file contents *)
  fetched : list string;          (* urls given to requests.get, oldest first *)
  slept : list Q;                 (* arguments of time.sleep, oldest first *)
  env_calls : nat                 (* questions put to the environment so far *)
}.

Definition set_db (f : DB -> DB) (s : Scraper) : Scraper :=
  mkScraper (f (db s)) (processed_ids s) (is_running s) (scan_progress s)
    (last_request_time s) (lock_held s) (disk s) (fetched s) (slept s) (env_calls s).
Definition set_processed_ids (f : gset string -> gset string) (s : Scraper) : Scraper :=
  mkScraper (db s) (f (processed_ids s)) (is_running s) (scan_progress s)
    (last_request_time s) (lock_held s) (disk s) (fetched s) (slept s) (env_calls s).
Definition set_scan_progress (f : Progress -> Progress) (s : Scraper) : Scraper :=
  mkScraper (db s) (processed_ids s) (is_running s) (f (scan_progress s))
    (last_request_time s) (lock_held s) (disk s) (fetched s) (slept s) (env_calls s).
Definition set_last_request_time (t : Q) (s : Scraper) : Scraper :=
  mkScraper (db s) (processed_ids s) (is_running s) (scan_progress s)
    t (lock_held s) (disk s) (fetched s) (slept s) (env_calls s).
Definition set_lock_held (b : bool) (s : Scraper) : Scraper :=
  mkScraper (db s) (processed_ids s) (is_running s) (scan_progress s)
    (last_request_time s) b (disk s) (fetched s) (slept s) (env_calls s).
Definition set_disk (f : gmap string string -> gmap string string) (s : Scraper) : Scraper :=
  mkScraper (db s) (processed_ids s) (is_running s) (scan_progress s)
    (last_request_time s) (lock_held s) (f (disk s)) (fetched s) (slept s) (env_calls s).
Definition set_fetched (f : list string -> list string) (s : Scraper) : Scraper :=
  mkScraper (db s) (processed_ids s) (is_running s) (scan_progress s)
    (last_request_time s) (lock_held s) (disk s) (f (fetched s)) (slept s) (env_calls s).
Definition set_slept (f : list Q -> list Q) (s : Scraper) : Scraper :=
  mkScraper (db s) (processed_ids s) (is_running s) (scan_progress s)
    (last_request_time s) (lock_held s) (disk s) (fetched s) (f (slept s)) (env_calls s).
Definition set_env_calls (f : nat -> nat) (s : Scraper) : Scraper :=
  mkScraper (db s) (processed_ids s) (is_running s) (scan_progress s)
    (last_request_time s) (lock_held s) (disk s) (fetched s) (slept s) (f (env_calls s)).

(** [with self.lock: c].  [threading.Lock] is not reentrant: acquiring it
    while it is held waits until it is released, which in sequential code
    is never.  The lock is released when the block is left, by a return or
    by an exception. *)
Definition with_lock {A} (c : M Scraper A) : M Scraper A :=
  fun s =>
    if lock_held s then (Blocked, s)
    else match c (set_lock_held true s) with
         | (Blocked, s') => (Blocked, s')
         | (r, s') => (r, set_lock_held false s')
         end.

(** What the operating system does to files, one step at a time. *)
Inductive fs_action : Type :=
  | Truncate (path : string)                 (* open(path, 'w') *)
  | Write (path : string) (data : string).   (* data reaching the end of the file *)

Definition apply_action (d : gmap string string) (a : fs_action) : gmap string string :=
  match a with
  | Truncate p => <[p := ""]> d
  | Write p data => <[p := String.append (default "" (d !! p)) data]> d
  end.

Definition run_actions (l : list fs_action) : M Scraper unit :=
  modify (set_disk (fun d => foldl apply_action d l)).

Definition raw_url_template (paste_id : string) : string :=
  String.append "https://pastebin.com/raw/" paste_id.
Definition paste_url_template (paste_id : string) : string :=
  String.append "https://pastebin.com/" paste_id.

(** The loop of [add_entry] over [db["onion_links"]]: the first record with
    the pasteId of [entry] takes the links of [entry] whose value it does not
    have, and the method returns; [None] when no record has that pasteId. *)
Fixpoint merge_existing (entry : Entry) (records : list Entry) : option (list Entry) :=
  match records with
  | [] => None
  | existing :: rest =>
      if decide (pasteId existing = pasteId entry) then
        let existing_links := map onionLink (onionLinks existing) in
        let new_links :=
          filter (fun l => onionLink l ∉ existing_links) (onionLinks entry) in
        let existing' :=
          match new_links with
          | [] => existing
          | _ :: _ =>
              mkEntry (crawledTimeStamp existing) (pasteDateTimestamp existing)
                (sourcePasteUrl existing) (sourcePasteTitle existing)
                (onionLinks existing ++ new_links) (pasteId existing)
          end in
        Some (existing' :: rest)
      else
        match merge_existing entry rest with
        | Some rest' => Some (existing :: rest')
        | None => None
        end
  end.

(** *** Notions used to state the properties *)

(** [c] only ever moves the state along [R], however it ends. *)
Definition stable (R : Scraper -> Scraper -> Prop) {A} (c : M Scraper A) : Prop :=
  forall s, R s (exec c s).

(** Every value [c] returns satisfies [P]. *)
Definition returns {A} (P : A -> Prop) (c : M Scraper A) : Prop :=
  forall s a s', c s = (Ok a, s') -> P a.

Inductive op : Type :=
  | Scrape (paste_id : string)
  | AddEntry (entry : option Entry)
  | SaveProcessedId (paste_id : string)
  | SaveDb
  | RateLimit
  | ProcessPaste (paste_id : string)
  | ProcessIds (ids : list string)
  | StopScan.

(** The ledger after is a superset of the ledger before. *)
Definition ledger_grows (s s' : Scraper) : Prop :=
  processed_ids s ⊆ processed_ids s'.

(** The store is the same before and after. *)
Definition same_db (s s' : Scraper) : Prop := db s' = db s.

(** Every stored record has at least one link. *)
Definition store_inv (s : Scraper) : Prop :=
  forall r, r ∈ onion_links (db s) -> onionLinks r <> [].

Definition link_values (r : Entry) : list string := onionLink <$> onionLinks r.

(** [existing["onionLinks"].extend(new_links)] *)
Definition extend (existing : Entry) (new_links : list LinkEntry) : Entry :=
  mkEntry (crawledTimeStamp existing) (pasteDateTimestamp existing)
    (sourcePasteUrl existing) (sourcePasteTitle existing)
    (onionLinks existing ++ new_links) (pasteId existing).

(** The links of [entry] whose value [existing] does not have. *)
Definition unseen (existing entry : Entry) : list LinkEntry :=
  filter (fun l => onionLink l ∉ link_values existing) (onionLinks entry).


(** Records whose link values are pairwise distinct stay so under the
    merge of an entry whose link values are pairwise distinct. *)
Definition links_unique (s : Scraper) : Prop :=
  forall r, r ∈ onion_links (db s) -> NoDup (link_values r).

(** What [json.dump] writes in all. *)
Definition serialised (chunks : list string) : string :=
  foldr String.append "" chunks.

Section Environment.

Variable config : Config.

(** The environment.  Each oracle is asked with the number of questions
    put so far, so its answers may depend on everything that happened
    before.
    - [clock]: [time.time()];
    - [uniform]: [random.uniform(a, b)];
    - [isoformat_now]: [datetime.datetime.now().isoformat()];
    - [http_get]: [requests.get(url, headers=..., timeout=10)];
    - [open_fails]: whether [open(path, mode)] raises;
    - [findall]: [self.onion_pattern.findall(content)];
    - [soup_title], [soup_date]: the two BeautifulSoup look-ups on the
      metadata page, [None] when the look-up raises, [Some None] when the
      element is missing (or, for the date, has no title attribute);
    - [json_chunks]: the pieces [json.dump(db, f, indent=2)] hands to
      [f.write], in order. *)
Variable clock : nat -> Q.
Variable uniform : nat -> Q -> Q -> Q.
Variable isoformat_now : nat -> string.
Variable http_get : nat -> string -> Outcome.
Variable open_fails : nat -> string -> bool.
Variable findall : string -> list string.
Variable soup_title : string -> option (option string).
Variable soup_date : string -> option (option string).
Variable json_chunks : DB -> list string.

Definition ask {A} (oracle : nat -> A) : M Scraper A :=
  fun s => (Ok (oracle (env_calls s)), set_env_calls S s).

Definition time_time : M Scraper Q := ask clock.
Definition random_uniform (a b : Q) : M Scraper Q := ask (fun k => uniform k a b).
Definition datetime_now_isoformat : M Scraper string := ask isoformat_now.
Definition time_sleep (d : Q) : M Scraper unit :=
  modify (set_slept (fun l => l ++ [d])).

Definition requests_get (url : string) : M Scraper Response :=
  do out <- ask (fun k => http_get k url);
  modify (set_fetched (fun l => l ++ [url])) ;;
  match out with
  | Responded r => ret r
  | Failed e => raise e
  end.

Definition open_file (path : string) : M Scraper unit :=
  do fails <- ask (fun k => open_fails k path);
  if fails : bool then raise OSError else ret tt.

(** The file operations of one [_save_db], in order. *)
Definition save_db_actions (d : DB) : list fs_action :=
  Truncate (db_path config) :: map (Write (db_path config)) (json_chunks d).

(** [_save_db] *)
Definition _save_db : M Scraper unit :=
  with_lock
    (try_except
       (open_file (db_path config) ;;
        do s <- get_state;
        run_actions (save_db_actions (db s)))
       (fun _ => ret tt)).

(** A [_save_db] whose [open] succeeded and whose process is killed when
    [k] of its file operations have been carried out. *)
Definition _save_db_killed (k : nat) : M Scraper unit :=
  do s <- get_state;
  run_actions (take k (save_db_actions (db s))).

(** [_save_processed_id] *)
Definition _save_processed_id (paste_id : string) : M Scraper unit :=
  let processed_file := String.append (db_path config) ".processed" in
  try_except
    (open_file processed_file ;;
     run_actions [Write processed_file (String.append paste_id newline)] ;;
     modify (set_processed_ids (fun ids => ids ∪ {[paste_id]})))
    (fun _ => ret tt).

(** [_rate_limit] *)
Definition _rate_limit : M Scraper unit :=
  do current_time <- time_time;
  do s <- get_state;
  let time_since_last := (current_time - last_request_time s)%Q in
  do delay <- random_uniform (fst (delay_range config)) (snd (delay_range config));
  (if Qltb time_since_last delay
   then time_sleep (delay - time_since_last)%Q
   else ret tt) ;;
  do t <- time_time;
  modify (set_last_request_time t).

(** [extract_onion_links].  [list(set(links))] keeps one copy of each link,
    in an order Python does not specify; [elements] fixes one. *)
Definition extract_onion_links (content : string) : list string :=
  let matches := findall content in
  let links :=
    map (fun link =>
           if String.prefix "http://" link || String.prefix "https://" link
           then link else String.append "http://" link)
        matches in
  elements (list_to_set links : gset string).

(** [scrape_single_paste] *)
Definition scrape_single_paste (paste_id : string) : M Scraper (option Entry) :=
  do s <- get_state;
  if decide (paste_id ∈ processed_ids s) then ret None
  else
    try_except
      (_rate_limit ;;
       let raw_url := raw_url_template paste_id in
       do response <- requests_get raw_url;
       if status_code response =? 404 then
         _save_processed_id paste_id ;; ret None
       else if status_code response =? 403 then
         time_sleep (rate_limit_delay config) ;; ret None
       else if negb (status_code response =? 200) then
         ret None
       else
         let content := text response in
         let onion_links := extract_onion_links content in
         match onion_links with
         | [] => _save_processed_id paste_id ;; ret None
         | _ :: _ =>
             let paste_url := paste_url_template paste_id in
             do meta_response <- requests_get paste_url;
             let title := String.append "Paste " paste_id in
             do date_str <- datetime_now_isoformat;
             let '(title, date_str) :=
               if status_code meta_response =? 200 then
                 match soup_title (text meta_response) with
                 | None => (title, date_str)
                 | Some t =>
                     let title := default title t in
                     match soup_date (text meta_response) with
                     | None => (title, date_str)
                     | Some d => (title, default date_str d)
                     end
                 end
               else (title, date_str) in
             do crawled <- datetime_now_isoformat;
             let entry :=
               {| crawledTimeStamp := crawled;
                  pasteDateTimestamp := date_str;
                  sourcePasteUrl := paste_url;
                  sourcePasteTitle := title;
                  onionLinks := map (fun link => mkLink link None) onion_links;
                  pasteId := Some paste_id |} in
             with_lock
               (modify (set_scan_progress (fun p =>
                  mkProgress (processed p)
                    (found p + Z.of_nat (length onion_links)) (errors p)))) ;;
             _save_processed_id paste_id ;;
             ret (Some entry)
         end)
      (fun _ =>
         with_lock
           (modify (set_scan_progress (fun p =>
              mkProgress (processed p) (found p) (errors p + 1)))) ;;
         ret None).

(** [add_entry].  [None] is a falsy argument. *)
Definition add_entry (entry : option Entry) : M Scraper unit :=
  match entry with
  | None => ret tt
  | Some entry =>
      with_lock
        (do s <- get_state;
         match merge_existing entry (onion_links (db s)) with
         | Some records =>
             modify (set_db (fun d => mkDB records (scan_sessions d)))
         | None =>
             modify (set_db (fun d =>
               mkDB (onion_links d ++ [entry]) (scan_sessions d))) ;;
             do s <- get_state;
             if save_interval config =? 0 then raise ZeroDivisionError
             else if Z.of_nat (length (onion_links (db s))) mod save_interval config =? 0
             then _save_db
             else ret tt
         end)
  end.

(** What every scan loop does with one identifier (the body of the loops
    of [run_hybrid_scan]). *)
Definition process_paste (paste_id : string) : M Scraper unit :=
  do result <- scrape_single_paste paste_id;
  (match result with
   | Some entry => add_entry (Some entry)
   | None => ret tt
   end) ;;
  modify (set_scan_progress (fun p =>
    mkProgress (processed p + 1) (found p) (errors p))).

(** [for paste_id in ids: if not self.is_running: break; ...], the loop of
    [run_hybrid_scan] over the identifiers of one search. *)
Fixpoint process_ids (ids : list string) : M Scraper unit :=
  match ids with
  | [] => ret tt
  | paste_id :: rest =>
      do s <- get_state;
      if is_running s then process_paste paste_id ;; process_ids rest
      else ret tt
  end.

(** [stop_scan] *)
Definition stop_scan : M Scraper unit :=
  modify (fun s =>
    mkScraper (db s) (processed_ids s) false (scan_progress s)
      (last_request_time s) (lock_held s) (disk s) (fetched s) (slept s)
      (env_calls s)) ;;
  _save_db.

(** The operations of a scan, run. *)
Definition run_op (o : op) : M Scraper unit :=
  match o with
  | Scrape paste_id => scrape_single_paste paste_id ;; ret tt
  | AddEntry entry => add_entry entry
  | SaveProcessedId paste_id => _save_processed_id paste_id
  | SaveDb => _save_db
  | RateLimit => _rate_limit
  | ProcessPaste paste_id => process_paste paste_id
  | ProcessIds ids => process_ids ids
  | StopScan => stop_scan
  end.

(** The state after a sequence of operations, whatever each returned. *)
Definition run_ops (ops : list op) (s : Scraper) : Scraper :=
  foldl (fun s o => exec (run_op o) s) s ops.

(** How an entry returned for [paste_id] relates to what was fetched. *)
Definition scraped_from (paste_id : string) (e : Entry) : Prop :=
  pasteId e = Some paste_id /\
  onionLinks e <> [] /\
  NoDup (link_values e) /\
  exists k resp,
    http_get k (raw_url_template paste_id) = Responded resp /\
    status_code resp = 200 /\
    onionLinks e =
      (fun link => mkLink link None) <$> extract_onion_links (text resp).

End Environment.

(** *** A small world for the examples *)

Definition still_clock : nat -> Q := fun _ => 0%Q.
Definition low_uniform : nat -> Q -> Q -> Q := fun _ a _ => a.
Definition fixed_stamp : nat -> string := fun _ => "2024-01-01T00:00:00".
Definition disk_works : nat -> string -> bool := fun _ _ => false.
Definition no_metadata : string -> option (option string) := fun _ => Some None.

(** A serialiser that writes an opening bracket, the identifier of each
    record and a closing bracket, in as many pieces. *)
Definition id_chunks : DB -> list string :=
  fun d => "[" :: map (fun e => default "?" (pasteId e)) (onion_links d) ++ ["]"].

(** A site on which paste [abc123] holds one onion address and paste
    [xyz789] holds none, and the matcher that finds the address. *)
Definition two_paste_site : nat -> string -> Outcome :=
  fun _ url =>
    if String.eqb url (raw_url_template "abc123")
    then Responded (mkResponse 200 "see abcdefghijklmnop.onion")
    else if String.eqb url (raw_url_template "xyz789")
    then Responded (mkResponse 200 "nothing to see")
    else Responded (mkResponse 404 "").

Definition one_address_matcher : string -> list string :=
  fun content =>
    if String.eqb content "see abcdefghijklmnop.onion"
    then ["abcdefghijklmnop.onion"] else [].

(** The configuration that saves after every new record. *)
Definition config_save_each : Config :=
  {| db_path := "db.json"; save_interval := 1;
     delay_range := (1%Q, 3%Q); rate_limit_delay := 60%Q |}.

(** A scraper that has just been constructed on an empty directory and
    started. *)
Definition new_scraper : Scraper :=
  {| db := mkDB [] []; processed_ids := ∅; is_running := true;
     scan_progress := mkProgress 0 0 0; last_request_time := 0%Q;
     lock_held := false; disk := ∅; fetched := []; slept := [];
     env_calls := 0 |}.

Definition record (paste_id : string) (links : list string) : Entry :=
  {| crawledTimeStamp := "2024-01-01T00:00:00";
     pasteDateTimestamp := "2024-01-01T00:00:00";
     sourcePasteUrl := paste_url_template paste_id;
     sourcePasteTitle := String.append "Paste " paste_id;
     onionLinks := map (fun link => mkLink link None) links;
     pasteId := Some paste_id |}.

(** A scraper whose store holds [n] records of other pastes. *)
Definition scraper_with (n : nat) : Scraper :=
  set_db (fun _ => mkDB (replicate n (record "old" ["http://old.onion"])) [])
    new_scraper.

(** A scraper whose backing file holds an earlier flush of one record. *)
Definition flushed_scraper : Scraper :=
  set_disk (fun _ => {[ "db.json" := "[old]" ]})
    (set_db (fun _ => mkDB [record "old" ["http://old.onion"];
                            record "abc123" ["http://a.onion"]] [])
       new_scraper).

End Scraper.

(** ** Python strings

    A [str] is modelled as its sequence of code points, all below 256. *)

Module PyStr.

(** [c.isspace()] for a code point below 256: tab, line feed, vertical
    tab, form feed, carriage return, the four separators 28 to 31, space,
    next line (133) and no-break space (160). *)
Definition is_space (c : Ascii.ascii) : bool :=
  bool_decide (Ascii.nat_of_ascii c ∈
    [9; 10; 11; 12; 13; 28; 29; 30; 31; 32; 133; 160]%nat).

(** [s.lstrip()], [s.rstrip()] and [s.strip()] *)
Fixpoint lstrip (s : string) : string :=
  match s with
  | EmptyString => EmptyString
  | String c rest => if is_space c then lstrip rest else s
  end.

Fixpoint rstrip (s : string) : string :=
  match s with
  | EmptyString => EmptyString
  | String c rest =>
      match rstrip rest with
      | EmptyString => if is_space c then EmptyString else String c EmptyString
      | String c' rest' => String c (String c' rest')
      end
  end.

Definition strip (s : string) : string := rstrip (lstrip s).

Definition is_lf (c : Ascii.ascii) : bool := bool_decide (Ascii.nat_of_ascii c = 10%nat).
Definition is_cr (c : Ascii.ascii) : bool := bool_decide (Ascii.nat_of_ascii c = 13%nat).

(** What a file opened in text mode hands to the reader: a carriage
    return, alone or followed by a line feed, reads as a line feed. *)
Fixpoint universal_newlines (s : string) : string :=
  match s with
  | EmptyString => EmptyString
  | String c rest =>
      if is_cr c then
        match rest with
        | String c' rest' =>
            if is_lf c' then String c' (universal_newlines rest')
            else String (Ascii.ascii_of_nat 10) (universal_newlines rest)
        | EmptyString => String (Ascii.ascii_of_nat 10) EmptyString
        end
      else String c (universal_newlines rest)
  end.

(** [for line in f]: the text cut after each line feed; every line keeps
    its line feed and the last line may lack one. *)
Fixpoint split_lines (s : string) : list string :=
  match s with
  | EmptyString => []
  | String c rest =>
      if is_lf c then String c EmptyString :: split_lines rest
      else match split_lines rest with
           | [] => [String c EmptyString]
           | line :: lines => String c line :: lines
           end
  end.

Definition read_text_lines (contents : string) : list string :=
  split_lines (universal_newlines contents).

(** No code point of [s] is white space. *)
Fixpoint no_space (s : string) : bool :=
  match s with
  | EmptyString => true
  | String c rest => negb (is_space c) && no_space rest
  end.

End PyStr.

(** ** proxy_extension.py, the methods around the fetch loop *)

Module ProxyRest.
Import Proxy.

(** [random.choice(seq)] when the generator draws [draw]: the element at
    index [draw mod len(seq)]. *)
Definition random_choice (draw : nat) (seq : list string) : option string :=
  seq !! (draw mod length seq)%nat.

(** [ProxyManager.get_random_proxy] *)
Definition get_random_proxy (draw : nat) : M World (option string) :=
  do w <- get_state;
  let pm := manager w in
  let available_proxies :=
    filter (fun p => p ∉ failed_proxies pm) (proxies pm) in
  do available_proxies <-
    match available_proxies with
    | [] =>
        modify (set_manager (set_failed (fun _ => ∅))) ;;
        ret (proxies pm)
    | _ :: _ => ret available_proxies
    end;
  match available_proxies with
  | [] => ret None
  | _ :: _ =>
      match random_choice draw available_proxies with
      | Some p => ret (Some p)
      | None => raise IndexError
      end
  end.

(** The dict that [get_proxy_stats] returns. *)
Record PoolStats : Type := mkPoolStats {
  total_proxies : Z;
  failed_proxies_count : Z;      (* key "failed_proxies" *)
  working_proxies : Z;
  proxy_details : gmap string ProxyStat
}.

(** [ProxyManager.get_proxy_stats] *)
Definition get_proxy_stats : M World PoolStats :=
  do w <- get_state;
  let pm := manager w in
  ret {| total_proxies := Z.of_nat (length (proxies pm));
         failed_proxies_count := Z.of_nat (size (failed_proxies pm));
         working_proxies :=
           Z.of_nat (length (proxies pm)) - Z.of_nat (size (failed_proxies pm));
         proxy_details := proxy_stats pm |}.

Section Files.

(** [read_lines filename] is what iterating over the open file yields,
    [None] when opening or reading it raises. *)
Variable read_lines : string -> option (list string).

(** The list comprehension of [load_from_file]. *)
Definition proxy_lines (lines : list string) : list string :=
  PyStr.strip <$>
    filter (fun line => PyStr.strip line <> "" /\ String.prefix "#" line = false)
      lines.

(** [ProxyManager.load_from_file] *)
Definition load_from_file (filename : string) : M World unit :=
  try_except
    (match read_lines filename with
     | None => raise OSError
     | Some lines => add_proxies (proxy_lines lines)
     end)
    (fun _ => ret tt).

End Files.

Section Environment.

Variable clock : nat -> Q.
Variable server : nat -> Request -> Outcome.
Variable self : Client.

(** [ProxyRotatingRequests.get] and [ProxyRotatingRequests.post] *)
Definition get (url : string) : M World (option Response * option string) :=
  request clock server self "GET" url.
Definition post (url : string) : M World (option Response * option string) :=
  request clock server self "POST" url.

End Environment.

(** *** Notions used to state the properties *)

(** Every quarantined address is registered, has more than 10 recorded
    attempts and a failure rate above 0.7 (as the code compares it). *)
Definition quarantine_sound (pm : ProxyManager) : Prop :=
  forall p, p ∈ failed_proxies pm ->
    exists st, proxy_stats pm !! p = Some st /\
               10 < success st + failures st /\
               ratio_gt_0_7 (failures st) (success st + failures st) = true.

(** The addresses that a selection may return. *)
Definition available (pm : ProxyManager) : list string :=
  filter (fun p => p ∉ failed_proxies pm) (proxies pm).

(** A pool of three addresses, the second one registered twice. *)
Definition w_duplicate : World :=
  {| manager := init (Some ["a"; "b"; "b"]);
     clock_reads := 0; sent := []; slept := [] |}.

End ProxyRest.

(** ** pastebin_comprehensive_scraper.py, loading, searching, statistics *)

Module ScraperRest.
Import Scraper.

(** [{"onion_links": [], "metadata": {"scan_sessions": []}}] *)
Definition empty_db : DB := mkDB [] [].

(** The dict that [get_statistics] returns. *)
Record Statistics : Type := mkStatistics {
  total_pastes_with_onions : Z;
  total_onion_links : Z;
  unique_onion_links : Z;
  statistics_scan_progress : Progress;     (* key "scan_progress" *)
  processed_ids_count : Z
}.

(** [get_statistics] *)
Definition get_statistics : M Scraper Statistics :=
  do s <- get_state;
  let records := onion_links (db s) in
  let total_pastes := length records in
  let total_links := foldr (fun entry n => (length (onionLinks entry) + n)%nat) 0%nat records in
  let unique_links :=
    size (list_to_set (C := gset string)
            (concat (map (fun entry => map onionLink (onionLinks entry)) records))) in
  ret {| total_pastes_with_onions := Z.of_nat total_pastes;
         total_onion_links := Z.of_nat total_links;
         unique_onion_links := Z.of_nat unique_links;
         statistics_scan_progress := scan_progress s;
         processed_ids_count := Z.of_nat (size (processed_ids s)) |}.

(** The identifiers that one page of search results gives: [hrefs] are the
    [href] attributes of the links selected on the page. *)
Definition page_ids_of (processed : gset string) (hrefs : list string) : list string :=
  omap (fun href =>
          if (1 <? Z.of_nat (String.length href))
             && String.prefix "/" href
             && (Z.of_nat (String.length href) <=? 10)
          then
            let paste_id := String.substring 1 (String.length href - 1) href in
            if decide (paste_id ∈ processed) then None else Some paste_id
          else None)
       hrefs.

Section Environment.

Variable config : Config.
Variable clock : nat -> Q.
Variable uniform : nat -> Q -> Q -> Q.
Variable http_get : nat -> string -> Outcome.
Variable open_fails : nat -> string -> bool.

(** More of the environment:
    - [json_load]: [json.load] on the text of the backing file, [None]
      when it raises [json.JSONDecodeError]; what it decodes is taken to
      have the shape of a database;
    - [search_url_for term page]: the url that [requests] builds from
      [self.search_url] and the parameters [q] and [page];
    - [soup_hrefs]: the [href] attributes of the elements that
      [soup.select("a[href^='/']")] finds in a page, [None] when parsing
      raises. *)
Variable json_load : string -> option DB.
Variable search_url_for : string -> nat -> string.
Variable soup_hrefs : string -> option (list string).

(** [_load_db].  Only [json.JSONDecodeError] is caught: an [open] that
    raises ends the call with that exception. *)
Definition _load_db : M Scraper DB :=
  do s <- get_state;
  match disk s !! db_path config with
  | Some contents =>
      open_file open_fails (db_path config) ;;
      match json_load (PyStr.universal_newlines contents) with
      | Some d => ret d
      | None => ret empty_db
      end
  | None => ret empty_db
  end.

(** [_load_processed_ids] *)
Definition _load_processed_ids : M Scraper (gset string) :=
  let processed_file := String.append (db_path config) ".processed" in
  do s <- get_state;
  match disk s !! processed_file with
  | Some contents =>
      try_except
        (open_file open_fails processed_file ;;
         ret (list_to_set (map PyStr.strip (PyStr.read_text_lines contents))))
        (fun _ => ret ∅)
  | None => ret ∅
  end.

(** [__init__]: the fields of the new object are set from the files; the
    state it runs on carries the file system and the record of what the
    process did so far. *)
Definition __init__ : M Scraper unit :=
  do d <- _load_db;
  do ids <- _load_processed_ids;
  modify (fun s =>
    mkScraper d ids false (mkProgress 0 0 0) 0%Q false
      (disk s) (fetched s) (slept s) (env_calls s)).

(** The body of the loop of [search_pastebin] from the rate limit on:
    [None] is the [break], [Some page_ids] goes on to the next page. *)
Definition search_page (search_term : string) (page : nat)
    : M Scraper (option (list string)) :=
  _rate_limit config clock uniform ;;
  do response <- requests_get http_get (search_url_for search_term page);
  if negb (status_code response =? 200) then ret None
  else
    match soup_hrefs (text response) with
    | None => raise OtherException
    | Some hrefs =>
        do s <- get_state;
        match page_ids_of (processed_ids s) hrefs with
        | [] => ret None
        | id :: ids => ret (Some (id :: ids))
        end
    end.

(** The loop of [search_pastebin] over the pages left, with the
    identifiers collected so far.  The [try] block spans the whole loop
    and its handler only logs, so an exception in an iteration ends the
    loop like a [break]. *)
Fixpoint search_pages (search_term : string) (pages : list nat)
    (paste_ids : list string) : M Scraper (list string) :=
  match pages with
  | [] => ret paste_ids
  | page :: rest =>
      do s <- get_state;
      if is_running s then
        do found <- try_except (search_page search_term page) (fun _ => ret None);
        match found with
        | Some page_ids => search_pages search_term rest (paste_ids ++ page_ids)
        | None => ret paste_ids
        end
      else ret paste_ids
  end.

(** [search_pastebin] *)
Definition search_pastebin (search_term : string) (max_pages : nat)
    : M Scraper (list string) :=
  search_pages search_term (seq 1 max_pages) [].

End Environment.

(** *** Notions used to state the properties *)

(** The text of a ledger file to which the identifiers were appended one
    after the other. *)
Definition ledger_text (ids : list string) : string :=
  foldr (fun id rest => String.append id (String.append newline rest)) "" ids.

(** A decoder that knows one document. *)
Definition load_one (text : string) (d : DB) : string -> option DB :=
  fun contents => if String.eqb contents text then Some d else None.

(** The number of links and the set of link values of a list of records. *)
Definition links_total (records : list Entry) : nat :=
  foldr (fun entry n => (length (onionLinks entry) + n)%nat) 0%nat records.

Definition link_set (records : list Entry) : gset string :=
  list_to_set (concat (map (fun entry => map onionLink (onionLinks entry)) records)).

(** Nothing that the statistics count has gone down from [s] to [s']. *)
Definition grows (s s' : Scraper) : Prop :=
  (length (onion_links (db s)) <= length (onion_links (db s')))%nat /\
  (links_total (onion_links (db s)) <= links_total (onion_links (db s')))%nat /\
  link_set (onion_links (db s)) ⊆ link_set (onion_links (db s')) /\
  processed_ids s ⊆ processed_ids s'.

(** *** More of the small world for the examples *)

(** A scraper started in a directory where earlier runs left a ledger. *)
Definition ledgered_scraper : Scraper :=
  set_disk (fun _ => {[ "db.json.processed" := ledger_text ["abc123"; "xyz789"] ]})
    new_scraper.

(** A clock that shows ten seconds. *)
Definition late_clock : nat -> Q := fun _ => 10%Q.

(** A site that answers every request with 404, and one that answers
    every request with a page. *)
Definition site_404 : nat -> string -> Outcome :=
  fun _ _ => Responded (mkResponse 404 "").

Definition page_site : nat -> string -> Outcome :=
  fun _ _ => Responded (mkResponse 200 "page").

Definition search_url_flat : string -> nat -> string :=
  fun term _ => String.append "https://pastebin.com/search?q=" term.

(** Every page of results links to two pastes, to the front page and to
    a path that is too long for an identifier. *)
Definition one_result_page : string -> option (list string) :=
  fun _ => Some ["/abc123"; "/"; "/archive/scripts"; "/xyz789"].

(** A configuration with a save interval of zero. *)
Definition config_zero_interval : Config :=
  {| db_path := "db.json"; save_interval := 0;
     delay_range := (1%Q, 3%Q); rate_limit_delay := 60%Q |}.

(** How a call ends. *)
Definition is_ok {A} (r : result A) : Prop := exists a, r = Ok a.
Definition not_blocked {A} (r : result A) : Prop := r <> Blocked.

(** Started with the lock free, [c] ends as [P] says and with the lock
    free. *)
Definition ends_unlocked {A} (P : result A -> Prop) (c : M Scraper A) : Prop :=
  forall s, lock_held s = false -> lock_held (exec c s) = false /\ P (eval c s).

(** What a search leaves alone. *)
Definition search_frame (s s' : Scraper) : Prop :=
  db s' = db s /\ processed_ids s' = processed_ids s /\ disk s' = disk s /\
  lock_held s' = lock_held s /\ is_running s' = is_running s /\
  scan_progress s' = scan_progress s.

End ScraperRest.

(** ** proxy_extension.py: the scraper that fetches through the pool *)

Module ProxyScraper.
Import Scraper.

(** An [ExtendedPastebinScraper]: the base scraper it wraps, with the
    part of the world that one acts on, and the pool of its proxy client,
    with the part of the world that one acts on. *)
Record Ext : Type := mkExt {
  base_scraper : Scraper;
  proxy_world : Proxy.World
}.

Definition on_base {A} (c : M Scraper A) : M Ext A :=
  fun x => let (r, b) := c (base_scraper x) in (r, mkExt b (proxy_world x)).

Definition on_proxies {A} (c : M Proxy.World A) : M Ext A :=
  fun x => let (r, w) := c (proxy_world x) in (r, mkExt (base_scraper x) w).

(** The dict that the scrape returns: the entry of the base scraper with
    the key [proxy_used]. *)
Record ProxyEntry : Type := mkProxyEntry {
  entry : Entry;
  proxy_used : option string
}.

(** [bool(response)] for a [requests.Response]: its [__bool__] is [ok],
    which is false exactly for a status from 400 to 599. *)
Definition response_ok (r : Response) : bool :=
  negb ((400 <=? status_code r) && (status_code r <? 600)).

Section Environment.

Variable config : Config.
Variable clock : nat -> Q.
Variable server : nat -> Proxy.Request -> Outcome.
Variable self : Proxy.Client.
Variable isoformat_now : nat -> string.
Variable open_fails : nat -> string -> bool.
Variable findall : string -> list string.
Variable soup_title : string -> option (option string).
Variable soup_date : string -> option (option string).

(** [ExtendedPastebinScraper.scrape_single_paste].  The base scraper is a
    [ComprehensivePastebinScraper], so both [hasattr] tests hold. *)
Definition scrape_single_paste (paste_id : string) : M Ext (option ProxyEntry) :=
  do x <- get_state;
  if decide (paste_id ∈ processed_ids (base_scraper x)) then ret None
  else
    try_except
      (let raw_url := raw_url_template paste_id in
       do got <- on_proxies (ProxyRest.get clock server self raw_url);
       let '(response, proxy) := got in
       match response with
       | None => ret None                                   (* not response *)
       | Some response =>
           if negb (response_ok response) then ret None     (* not response *)
           else if status_code response =? 404 then
             on_base (_save_processed_id config open_fails paste_id) ;; ret None
           else if negb (status_code response =? 200) then ret None
           else
             let content := text response in
             let onion_links := extract_onion_links findall content in
             match onion_links with
             | [] =>
                 on_base (_save_processed_id config open_fails paste_id) ;;
                 ret None
             | _ :: _ =>
                 let paste_url := paste_url_template paste_id in
                 do got_meta <- on_proxies (ProxyRest.get clock server self paste_url);
                 let meta_response := fst got_meta in
                 let title := String.append "Paste " paste_id in
                 do date_str <- on_base (datetime_now_isoformat isoformat_now);
                 let '(title, date_str) :=
                   match meta_response with
                   | Some meta =>
                       if response_ok meta && (status_code meta =? 200) then
                         match soup_title (text meta) with
                         | None => (title, date_str)
                         | Some t =>
                             let title := default title t in
                             match soup_date (text meta) with
                             | None => (title, date_str)
                             | Some d => (title, default date_str d)
                             end
                         end
                       else (title, date_str)
                   | None => (title, date_str)
                   end in
                 do crawled <- on_base (datetime_now_isoformat isoformat_now);
                 let entry :=
                   {| crawledTimeStamp := crawled;
                      pasteDateTimestamp := date_str;
                      sourcePasteUrl := paste_url;
                      sourcePasteTitle := title;
                      onionLinks := map (fun link => mkLink link None) onion_links;
                      pasteId := Some paste_id |} in
                 on_base (_save_processed_id config open_fails paste_id) ;;
                 ret (Some (mkProxyEntry entry proxy))
             end
       end)
      (fun _ => ret None).

End Environment.

(** *** A small world for the examples *)

(** A peer that answers every request with 404. *)
Definition server_404 : nat -> Proxy.Request -> Outcome :=
  fun _ _ => Responded (mkResponse 404 "").

(** Peers that hand on what the two-paste site answers. *)
Definition server_two_pastes : nat -> Proxy.Request -> Outcome :=
  fun k rq => two_paste_site k (Proxy.req_url rq).

(** A new scraper wrapped with a pool of one proxy. *)
Definition new_ext : Ext :=
  mkExt new_scraper
    (Proxy.mkWorld (Proxy.init (Some ["p"])) 0 [] []).

End ProxyScraper.

(** * Properties *)

(** ** Float arithmetic *)

Module FloatFacts.

Lemma Qltb_lt a b : Qltb a b = true <-> (a < b)%Q.
Proof. unfold Qltb, Qlt. apply Z.ltb_lt. Qed.








Lemma pow2_lt (e1 e2 : Z) : e1 < e2 -> (2 ^ e1 < 2 ^ e2)%Q.
Proof. intros H. by apply Qpower_lt_compat_l. Qed.










Example round64_values :
  (round64 (8 # 10) == 3602879701896397 # 4503599627370496)%Q /\
  (round64 (1 # 10) == double_0_1)%Q /\
  (round64 7200 == 7200)%Q /\
  (round64 (round64 (8 # 10) + round64 (2 * double_0_1)) == 1)%Q.
Proof. repeat split; vm_compute; reflexivity. Qed.

End FloatFacts.

(** ** Proxy pool and resilient fetcher *)

Module ProxyFacts.
Import Proxy.

Ltac monad :=
  unfold exec, eval, bind, ret, raise, get_state, modify, try_except in *;
  simpl in *.

Lemma ratio_gt_0_7_exact (x y : Z) :
  0 < y < 2 ^ 53 -> ratio_gt_0_7 x y = true <-> 7 * y < 10 * x.
Proof.
  intros [Hy Hlt]. unfold ratio_gt_0_7. rewrite Z.ltb_lt.
  change (2 ^ 54) with 18014398509481984.
  change (2 ^ 53) with 9007199254740992 in Hlt.
  lia.
Qed.

Lemma Qlt_7_10_div (f t : Z) :
  0 < t -> (7 # 10 < inject_Z f / inject_Z t)%Q <-> 7 * t < 10 * f.
Proof.
  intros Ht. destruct t as [|t|t]; try lia.
  unfold Qlt, Qdiv, Qmult, Qinv, inject_Z. simpl. lia.
Qed.

Lemma mark_failure_registered w p st :
  proxy_stats (manager w) !! p = Some st ->
  let st' := mkStat (success st) (failures st + 1) (last_used st) in
  let total := success st' + failures st' in
  mark_failure p w =
    (Ok tt,
     set_manager (fun pm =>
       (if (10 <? total) && ratio_gt_0_7 (failures st') total
        then set_failed (fun f => f ∪ {[p]}) else id)
         (set_stats (insert p st') pm)) w).
Proof.
  intros Hst. unfold mark_failure. monad. rewrite Hst. simpl.
  destruct (_ && _); reflexivity.
Qed.

Lemma mark_failure_unregistered w p :
  proxy_stats (manager w) !! p = None -> mark_failure p w = (Ok tt, w).
Proof. intros Hst. unfold mark_failure. monad. by rewrite Hst. Qed.

Lemma mark_success_unregistered clock w p :
  proxy_stats (manager w) !! p = None -> mark_success clock p w = (Ok tt, w).
Proof. intros Hst. unfold mark_success. monad. by rewrite Hst. Qed.

Lemma mark_success_registered clock w p st :
  proxy_stats (manager w) !! p = Some st ->
  mark_success clock p w =
    (Ok tt,
     set_manager (fun pm =>
       set_failed (fun f => f ∖ {[p]})
         (set_stats (insert p (mkStat (success st + 1) (failures st)
                                 (clock (clock_reads w)))) pm))
       (tick 1 w)).
Proof. intros Hst. unfold mark_success, time_time. monad. by rewrite Hst. Qed.

(** *** C10 *)

(** C10. Reporting a success or a failure for an address that is not
    registered in the pool changes nothing at all (statistics, quarantine
    set, address list, clock reads) and raises nothing. *)
Theorem report_unregistered_is_noop (clock : nat -> Q) (w : World) (addr : string) :
  wf (manager w) ->
  addr ∉ proxies (manager w) ->
  mark_success clock addr w = (Ok tt, w) /\ mark_failure addr w = (Ok tt, w).
Proof.
  intros Hwf Hnot.
  assert (proxy_stats (manager w) !! addr = None) as Hnone.
  { apply eq_None_not_Some. intros Hs. apply Hnot, Hwf, Hs. }
  split; [by apply mark_success_unregistered | by apply mark_failure_unregistered].
Qed.

Lemma wf_w_7_of_9 : wf (manager w_7_of_9).
Proof.
  intros p. simpl. rewrite list_elem_of_singleton.
  destruct (decide (p = "p")) as [->|Hne].
  - rewrite lookup_singleton_eq. split; eauto.
  - rewrite lookup_singleton_ne by done. split; [done | by intros [? ?]].
Qed.

Lemma report_unregistered_is_noop_witness :
  mark_success (fun _ => 0%Q) "q" w_7_of_9 = (Ok tt, w_7_of_9) /\
  mark_failure "q" w_7_of_9 = (Ok tt, w_7_of_9).
Proof.
  apply report_unregistered_is_noop; [apply wf_w_7_of_9 | ].
  simpl. rewrite list_elem_of_singleton. discriminate.
Defined.

(** *** C3 *)

(** C3, as the code has it. A failure report for a registered address that
    is not quarantined returns normally, adds one to its failure count and
    quarantines it exactly when the new total is strictly greater than 10
    (at least 11 recorded attempts) and the new failure rate exceeds 0.7;
    no other address enters or leaves quarantine. Totals stay below 2^53,
    where the float comparison of the code is the exact one. *)
Theorem mark_failure_quarantines_iff (w : World) (p : string) (st : ProxyStat) :
  proxy_stats (manager w) !! p = Some st ->
  p ∉ failed_proxies (manager w) ->
  success st + failures st + 1 < 2 ^ 53 ->
  let w' := exec (mark_failure p) w in
  let st' := mkStat (success st) (failures st + 1) (last_used st) in
  eval (mark_failure p) w = Ok tt /\
  proxy_stats (manager w') !! p = Some st' /\
  (p ∈ failed_proxies (manager w') <->
     10 < success st' + failures st' /\ (7 # 10 < failure_rate st')%Q) /\
  (forall q, q <> p ->
     (q ∈ failed_proxies (manager w') <-> q ∈ failed_proxies (manager w))).
Proof.
  intros Hst Hnot Hbound w' st'.
  subst w'. unfold exec, eval. rewrite (mark_failure_registered _ _ _ Hst).
  fold st'. simpl.
  set (total := success st + (failures st + 1)).
  assert (Hrate : 0 < total ->
            (ratio_gt_0_7 (failures st + 1) total = true <->
             (7 # 10 < failure_rate st')%Q)).
  { intros Hpos. unfold failure_rate. simpl. fold total.
    rewrite Qlt_7_10_div by done. apply ratio_gt_0_7_exact. subst total. lia. }
  split; [done|].
  destruct (10 <? total) eqn:Hten; simpl.
  - apply Z.ltb_lt in Hten.
    destruct (ratio_gt_0_7 (failures st + 1) total) eqn:Hr; simpl.
    + split; [by rewrite lookup_insert_eq|]. split.
      * split.
        -- intros _. split; [done|]. apply Hrate; [lia|done].
        -- intros _. apply elem_of_union. right. by apply elem_of_singleton.
      * intros q Hq. rewrite elem_of_union, elem_of_singleton. tauto.
    + split; [by rewrite lookup_insert_eq|]. split.
      * split; [done|]. intros [_ Hq]. apply Hrate in Hq; [congruence|lia].
      * done.
  - apply Z.ltb_ge in Hten.
    split; [by rewrite lookup_insert_eq|]. split; [|done].
    split; [done|]. intros [Hq _]. lia.
Qed.

Lemma mark_failure_quarantines_iff_witness :
  let w' := exec (mark_failure "p") w_7_of_9 in
  "p" ∈ failed_proxies (manager w') <->
    10 < 2 + (7 + 1) /\ (7 # 10 < failure_rate (mkStat 2 (7 + 1) 0))%Q.
Proof.
  refine (proj1 (proj2 (proj2
    (mark_failure_quarantines_iff w_7_of_9 "p" (mkStat 2 7 0) _ _ _)))).
  - reflexivity.
  - exact (not_elem_of_empty (C:=gset string) "p").
  - simpl. reflexivity.
Defined.

(** C3, as stated, fails: an address with 2 successes and 7 failures
    receives its 8th failure. After the update the total is 10 (at least
    10) and the failure rate is 0.8 (above 0.7), and the address is not
    quarantined. *)
Lemma mark_failure_at_total_10_not_quarantined :
  let w' := exec (mark_failure "p") w_7_of_9 in
  exists st',
    proxy_stats (manager w') !! "p" = Some st' /\
    10 <= success st' + failures st' /\
    (7 # 10 < failure_rate st')%Q /\
    "p" ∉ failed_proxies (manager w').
Proof.
  eexists. split; [vm_compute; reflexivity|].
  split; [simpl; lia|]. split; [reflexivity|].
  vm_compute. exact (not_elem_of_empty (C:=gset string) "p").
Qed.

(** *** C8 *)

Lemma proxy_score_fresh clock w p st :
  proxy_stats (manager w) !! p = Some st ->
  success st + failures st = 0 ->
  proxy_score clock p w = (Ok 1%Q, w).
Proof.
  intros Hst Hz. unfold proxy_score. monad. rewrite Hst, Hz. reflexivity.
Qed.

Lemma proxy_score_used clock w p st :
  proxy_stats (manager w) !! p = Some st ->
  success st + failures st <> 0 ->
  proxy_score clock p w =
    (Ok (round64
           (round64 (inject_Z (success st) / inject_Z (success st + failures st))
            + round64 (round64 (round64 (clock (clock_reads w) - last_used st)
                                / 3600)
                       * double_0_1))),
     tick 1 w).
Proof.
  intros Hst Hnz. unfold proxy_score, time_time. monad. rewrite Hst.
  destruct (success st + failures st =? 0) eqn:E; [apply Z.eqb_eq in E; lia|].
  reflexivity.
Qed.





(** *** C4 *)

Lemma tick_0 w : tick 0 w = w.
Proof. by destruct w. Qed.

Lemma tick_tick n m w : tick n (tick m w) = tick (n + m) w.
Proof. unfold tick. simpl. f_equal. lia. Qed.

Lemma proxy_score_total clock w p :
  is_Some (proxy_stats (manager w) !! p) ->
  exists k n, proxy_score clock p w = (Ok k, tick n w).
Proof.
  intros [st Hst].
  destruct (decide (success st + failures st = 0)) as [Hz|Hnz].
  - exists 1%Q, 0%nat. rewrite tick_0. by eapply proxy_score_fresh.
  - eexists _, 1%nat. by eapply proxy_score_used.
Qed.

Lemma score_all_total clock l w :
  (forall p, p ∈ l -> is_Some (proxy_stats (manager w) !! p)) ->
  exists keyed n, score_all clock l w = (Ok keyed, tick n w) /\ keyed.*2 = l.
Proof.
  revert w. induction l as [|p l IH]; intros w Hl.
  - exists [], 0%nat. rewrite tick_0. done.
  - destruct (proxy_score_total clock w p) as (k & n & Hk).
    { apply Hl. left. }
    destruct (IH (tick n w)) as (ks & m & Hks & Hsnd).
    { intros q Hq. simpl. apply Hl. by right. }
    exists ((k, p) :: ks), (m + n)%nat. split.
    + simpl. unfold bind. rewrite Hk, Hks. unfold ret. by rewrite tick_tick.
    + rewrite fmap_cons. simpl. by rewrite Hsnd.
Qed.

Lemma insert_desc_perm x l : insert_desc x l ≡ₚ x :: l.
Proof.
  induction l as [|y l IH]; simpl; [done|].
  destruct (Qltb (fst x) (fst y)); [|done].
  rewrite IH. apply Permutation_swap.
Qed.

Lemma sort_desc_perm l : sort_desc l ≡ₚ l.
Proof.
  induction l as [|x l IH]; simpl; [done|].
  rewrite insert_desc_perm. by rewrite IH.
Qed.

Lemma filter_nil_all {A} (P : A -> Prop) `{forall x, Decision (P x)} (l : list A) :
  filter P l = [] <-> forall x, x ∈ l -> ~ P x.
Proof.
  split.
  - intros Hnil x Hx HP.
    assert (x ∈ filter P l) as Hin by (apply list_elem_of_filter; done).
    rewrite Hnil in Hin. by apply not_elem_of_nil in Hin.
  - intros Hall. destruct (filter P l) as [|y l'] eqn:E; [done|].
    assert (y ∈ filter P l) as Hin by (rewrite E; left).
    apply list_elem_of_filter in Hin as [HP Hy]. by destruct (Hall y Hy).
Qed.

(** What [get_best_proxy] does on a pool that is not empty. *)
Lemma get_best_proxy_spec clock w :
  wf (manager w) ->
  proxies (manager w) <> [] ->
  exists p w',
    get_best_proxy clock w = (Ok (Some p), w') /\
    p ∈ proxies (manager w) /\
    (p ∉ failed_proxies (manager w')) /\
    proxies (manager w') ≡ₚ proxies (manager w) /\
    proxy_stats (manager w') = proxy_stats (manager w) /\
    sent w' = sent w /\ slept w' = slept w /\
    ((forall q, q ∈ proxies (manager w) -> q ∈ failed_proxies (manager w)) ->
       failed_proxies (manager w') = ∅) /\
    ((exists q, q ∈ proxies (manager w) /\ q ∉ failed_proxies (manager w)) ->
       manager w' = manager w).
Proof.
  intros Hwf Hne. unfold get_best_proxy. unfold bind at 1. unfold get_state.
  destruct (proxies (manager w)) as [|p0 l0] eqn:Hps; [done|]. clear Hne.
  destruct (filter _ (p0 :: l0)) as [|a av] eqn:Hav.
  - (* every address is quarantined *)
    pose proof (proj1 (filter_nil_all _ _) Hav) as Hall.
    set (w1 := set_manager (set_failed (fun _ => ∅)) w).
    destruct (score_all_total clock (p0 :: l0) w1) as (keyed & n & Hsc & Hsnd).
    { intros q Hq. simpl. apply Hwf. by rewrite Hps. }
    unfold bind, modify. fold w1. rewrite Hsc.
    pose proof (sort_desc_perm keyed) as Hperm.
    apply (fmap_Permutation snd) in Hperm. rewrite Hsnd in Hperm.
    destruct ((sort_desc keyed).*2) as [|p l] eqn:Hsorted.
    { by apply Permutation_nil_cons in Hperm. }
    eexists p, _. split; [reflexivity|]. simpl.
    split; [rewrite <- Hperm; left|].
    split; [apply not_elem_of_empty|].
    split; [done|]. split; [done|]. split; [done|]. split; [done|].
    split; [done|].
    intros (q & Hq & Hnq). destruct (Hall q Hq). done.
  - (* some address is available *)
    assert (Hsub : forall q, q ∈ a :: av ->
                     q ∈ p0 :: l0 /\ q ∉ failed_proxies (manager w)).
    { intros q Hq. rewrite <- Hav in Hq.
      apply list_elem_of_filter in Hq. tauto. }
    destruct (score_all_total clock (a :: av) w) as (keyed & n & Hsc & Hsnd).
    { intros q Hq. apply Hwf. rewrite Hps. by apply Hsub. }
    unfold bind. rewrite Hsc.
    pose proof (sort_desc_perm keyed) as Hperm.
    apply (fmap_Permutation snd) in Hperm. rewrite Hsnd in Hperm.
    destruct ((sort_desc keyed).*2) as [|p l] eqn:Hsorted.
    { by apply Permutation_nil_cons in Hperm. }
    assert (p ∈ a :: av) as Hp by (rewrite <- Hperm; left).
    apply Hsub in Hp as [Hp1 Hp2].
    eexists p, _. split; [reflexivity|]. simpl.
    split; [done|]. split; [done|]. split; [by rewrite Hps|].
    split; [done|]. split; [done|]. split; [done|]. split; [|done].
    intros Hall. destruct Hp2. apply Hall. done.
Qed.

(** C4. On a pool that is not empty the best-proxy selection returns an
    address of the pool, never [None], and raises nothing; when every
    address is quarantined the quarantine set is empty afterwards; the
    selection returns [None] exactly when the pool is empty. *)
Theorem get_best_proxy_some_unless_empty (clock : nat -> Q) (w : World) :
  wf (manager w) ->
  (proxies (manager w) <> [] ->
     exists p w',
       get_best_proxy clock w = (Ok (Some p), w') /\
       p ∈ proxies (manager w) /\
       ((forall q, q ∈ proxies (manager w) -> q ∈ failed_proxies (manager w)) ->
          failed_proxies (manager w') = ∅)) /\
  (eval (get_best_proxy clock) w = Ok None <-> proxies (manager w) = []).
Proof.
  intros Hwf. split.
  - intros Hne.
    destruct (get_best_proxy_spec clock w Hwf Hne)
      as (p & w' & Hget & Hp & _ & _ & _ & _ & _ & Hreset & _).
    by exists p, w'.
  - split.
    + intros Hnone. destruct (decide (proxies (manager w) = [])) as [|Hne]; [done|].
      destruct (get_best_proxy_spec clock w Hwf Hne) as (p & w' & Hget & _).
      unfold eval in Hnone. rewrite Hget in Hnone. discriminate.
    + intros Hnil. unfold eval, get_best_proxy, bind, get_state.
      by rewrite Hnil.
Qed.

Lemma wf_w_quarantined : wf (manager w_quarantined).
Proof.
  intros p. simpl. rewrite list_elem_of_singleton.
  destruct (decide (p = "p")) as [->|Hne].
  - rewrite lookup_singleton_eq. split; eauto.
  - rewrite lookup_singleton_ne by done. split; [done | by intros [? ?]].
Qed.

Lemma get_best_proxy_some_unless_empty_witness :
  (proxies (manager w_quarantined) <> [] ->
     exists p w',
       get_best_proxy (fun _ => 0%Q) w_quarantined = (Ok (Some p), w') /\
       p ∈ proxies (manager w_quarantined) /\
       ((forall q, q ∈ proxies (manager w_quarantined) ->
                   q ∈ failed_proxies (manager w_quarantined)) ->
          failed_proxies (manager w') = ∅)) /\
  (eval (get_best_proxy (fun _ => 0%Q)) w_quarantined = Ok None <->
   proxies (manager w_quarantined) = []).
Proof.
  apply (get_best_proxy_some_unless_empty (fun _ => 0%Q) w_quarantined).
  apply wf_w_quarantined.
Defined.

(** *** C5 *)

Lemma mark_failure_ok w p : eval (mark_failure p) w = Ok tt.
Proof.
  unfold eval. destruct (proxy_stats (manager w) !! p) as [st|] eqn:Hst.
  - by rewrite (mark_failure_registered _ _ _ Hst).
  - by rewrite (mark_failure_unregistered _ _ Hst).
Qed.

Lemma mark_success_ok clock w p : eval (mark_success clock p) w = Ok tt.
Proof.
  unfold eval. destruct (proxy_stats (manager w) !! p) as [st|] eqn:Hst.
  - by rewrite (mark_success_registered _ _ _ _ Hst).
  - by rewrite (mark_success_unregistered _ _ _ Hst).
Qed.

Lemma bind_ok {S A B} (c : M S A) (k : A -> M S B) (s : S) (a : A) :
  eval c s = Ok a -> bind c k s = k a (exec c s).
Proof. unfold eval, exec, bind. destruct (c s) as [[?| |] ?]; simpl; congruence. Qed.

Lemma attempt_classified clock server method url p w :
  let rq := mkRequest method url p in
  attempt clock server method url p w =
    match returns_response (server (length (sent w)) rq) with
    | Some r => (Ok (Some (r, p)), exec (mark_success clock p) (send rq w))
    | None => (Ok None, exec (mark_failure p) (send rq w))
    end.
Proof.
  intros rq. unfold attempt, session_request. unfold bind at 1. fold rq.
  change (mkWorld (manager w) (clock_reads w) (sent w ++ [rq]) (slept w))
    with (send rq w).
  destruct (server (length (sent w)) rq) as [r|e]; simpl.
  - destruct (status_code r =? 200) eqn:E200; simpl.
    { by rewrite (bind_ok _ _ _ tt (mark_success_ok _ _ _)). }
    destruct (bool_decide (status_code r ∈ [403; 429; 503; 502; 504])) eqn:Ein.
    { apply bool_decide_eq_true in Ein.
      assert ((status_code r =? 404) = false) as ->.
      { apply Z.eqb_neq. intros E. rewrite E in Ein.
        repeat (apply elem_of_cons in Ein as [Ein|Ein]; [discriminate|]).
        by apply not_elem_of_nil in Ein. }
      by rewrite (bind_ok _ _ _ tt (mark_failure_ok _ _)). }
    destruct (status_code r =? 404) eqn:E404.
    { by rewrite (bind_ok _ _ _ tt (mark_success_ok _ _ _)). }
    by rewrite (bind_ok _ _ _ tt (mark_failure_ok _ _)).
  - destruct e; by rewrite (bind_ok _ _ _ tt (mark_failure_ok _ _)).
Qed.

Lemma request_loop_step clock server self method url n retries w p w1 :
  get_best_proxy clock w = (Ok (Some p), w1) ->
  p <> "" ->
  let rq := mkRequest method url p in
  request_loop clock server self method url (S n) retries w =
    match returns_response (server (length (sent w1)) rq) with
    | Some r => (Ok (Some r, Some p), exec (mark_success clock p) (send rq w1))
    | None =>
        (backoff self (retries + 1) ;;
         request_loop clock server self method url n (retries + 1))
          (exec (mark_failure p) (send rq w1))
    end.
Proof.
  intros Hget Hp rq. simpl. unfold bind at 1. rewrite Hget.
  destruct (decide (p = "")) as [|_]; [done|].
  unfold bind at 1. rewrite attempt_classified. fold rq.
  by destruct (returns_response _).
Qed.

(** C5. Whatever proxy the selection gave, the loop body classifies the
    outcome of the request as follows. Status 200 and status 404: success
    is reported for the proxy and the call returns the response with the
    proxy at once, with no sleep and no further request. Status 403, 429,
    502, 503 or 504, any other status, and any exception of the transport:
    failure is reported for the proxy and the loop goes on to the back-off
    and the remaining attempts. *)
Theorem request_classifies_outcome
    (clock : nat -> Q) (server : nat -> Request -> Outcome) (self : Client)
    (method url : string) (n : nat) (retries : Z) (w w1 : World) (p : string) :
  get_best_proxy clock w = (Ok (Some p), w1) ->
  p <> "" ->
  let rq := mkRequest method url p in
  let out := server (length (sent w1)) rq in
  let run := request_loop clock server self method url in
  let returned r :=
    run (S n) retries w =
      (Ok (Some r, Some p), exec (mark_success clock p) (send rq w1)) in
  let retried :=
    run (S n) retries w =
      (backoff self (retries + 1) ;; run n (retries + 1))
        (exec (mark_failure p) (send rq w1)) in
  (forall r, out = Responded r -> status_code r = 200 -> returned r) /\
  (forall r, out = Responded r -> status_code r = 404 -> returned r) /\
  (forall r, out = Responded r ->
             status_code r ∈ [403; 429; 502; 503; 504] -> retried) /\
  (forall r, out = Responded r ->
             status_code r <> 200 -> status_code r <> 404 -> retried) /\
  (forall e, out = Failed e -> retried).
Proof.
  intros Hget Hp rq out run returned retried.
  pose proof (request_loop_step clock server self method url n retries w p w1
                Hget Hp) as Hstep.
  cbv zeta in Hstep. fold rq in Hstep. fold out in Hstep. fold run in Hstep.
  assert (Hother : forall r, out = Responded r ->
            status_code r <> 200 -> status_code r <> 404 -> retried).
  { intros r Hout H200 H404. unfold retried. rewrite Hstep, Hout. simpl.
    apply Z.eqb_neq in H200, H404. by rewrite H200, H404. }
  repeat split.
  - intros r Hout Hst. unfold returned. rewrite Hstep, Hout. simpl.
    by rewrite Hst.
  - intros r Hout Hst. unfold returned. rewrite Hstep, Hout. simpl.
    by rewrite Hst.
  - intros r Hout Hin. apply (Hother r Hout); intros E; rewrite E in Hin;
      repeat (apply elem_of_cons in Hin as [Hin|Hin]; [discriminate|]);
      by apply not_elem_of_nil in Hin.
  - exact Hother.
  - intros e Hout. unfold retried. by rewrite Hstep, Hout.
Qed.

Lemma request_classifies_outcome_witness :
  let clock := fun _ : nat => 0%Q in
  let r := mkResponse 404 "" in
  let server := fun (_ : nat) (_ : Request) => Responded r in
  request_loop clock server default_client "GET" "u" 1 0 w_7_of_9 =
    (Ok (Some r, Some "p"),
     exec (mark_success clock "p")
       (send (mkRequest "GET" "u" "p") (tick 1 w_7_of_9))).
Proof.
  intros clock r server.
  refine (proj1 (proj2
    (request_classifies_outcome clock server default_client "GET" "u" 0 0
       w_7_of_9 (tick 1 w_7_of_9) "p" _ _)) r _ _).
  - vm_compute. reflexivity.
  - discriminate.
  - reflexivity.
  - reflexivity.
Defined.

(** *** C6 *)

Lemma usable_perm pm pm' :
  usable pm ->
  proxies pm' ≡ₚ proxies pm ->
  (forall q, is_Some (proxy_stats pm' !! q) <-> is_Some (proxy_stats pm !! q)) ->
  usable pm'.
Proof.
  intros (Hwf & Hne & Hempty) Hperm Hstats. repeat split.
  - intros Hq. apply Hstats, Hwf. by rewrite <- Hperm.
  - intros Hq. rewrite Hperm. apply Hwf, Hstats, Hq.
  - intros Hnil. rewrite Hnil in Hperm. symmetry in Hperm.
    by apply Permutation_nil_r in Hperm.
  - by rewrite Hperm.
Qed.

Lemma mark_failure_usable w p :
  usable (manager w) ->
  usable (manager (exec (mark_failure p) w)) /\
  sent (exec (mark_failure p) w) = sent w /\
  slept (exec (mark_failure p) w) = slept w.
Proof.
  intros Hu. unfold exec.
  destruct (proxy_stats (manager w) !! p) as [st|] eqn:Hst.
  - rewrite (mark_failure_registered _ _ _ Hst). simpl.
    split; [|done].
    apply (usable_perm (manager w)); [done| |].
    + by destruct (_ && _).
    + intros q. destruct (_ && _); simpl;
        (destruct (decide (p = q)) as [->|Hne];
         [rewrite lookup_insert_eq, Hst; split; eauto
         | by rewrite lookup_insert_ne]).
  - by rewrite (mark_failure_unregistered _ _ Hst).
Qed.

Lemma backoff_run self retries w :
  backoff self retries w =
    (Ok tt,
     if retries <? max_retries self
     then mkWorld (manager w) (clock_reads w) (sent w)
            (slept w ++ [Z.min (retry_delay self * 2 ^ (retries - 1)) 30])
     else w).
Proof. unfold backoff. by destruct (retries <? max_retries self). Qed.

(** The loop against a peer that always answers 503. *)
Lemma request_loop_always_503 clock server self method url :
  (forall k p, exists body,
     server k (mkRequest method url p) = Responded (mkResponse 503 body)) ->
  forall (n : nat) (retries : Z) (w : World),
    usable (manager w) ->
    retries + Z.of_nat n = max_retries self ->
    exists w' ps,
      request_loop clock server self method url n retries w = (Ok (None, None), w') /\
      usable (manager w') /\
      sent w' = sent w ++ (mkRequest method url <$> ps) /\
      length ps = n /\
      slept w' = slept w ++
        ((fun k => Z.min (retry_delay self * 2 ^ (k - 1)) 30)
           <$> seqZ (retries + 1) (Z.of_nat n - 1)).
Proof.
  intros Hsrv. induction n as [|n IH]; intros retries w Hu Hsum.
  - exists w, []. simpl. rewrite !app_nil_r. done.
  - destruct Hu as (Hwf & Hne & Hempty).
    destruct (get_best_proxy_spec clock w Hwf Hne)
      as (p & w1 & Hget & Hp & _ & Hperm & Hstats & Hsent & Hslept & _).
    assert (p <> "") as Hpne by (intros ->; done).
    rewrite (request_loop_step _ _ _ _ _ _ _ _ _ _ Hget Hpne).
    destruct (Hsrv (length (sent w1)) p) as [body ->]. simpl.
    set (rq := mkRequest method url p).
    assert (usable (manager (send rq w1))) as Hu1.
    { simpl. apply (usable_perm (manager w)); [done|done|by rewrite Hstats]. }
    destruct (mark_failure_usable (send rq w1) p Hu1) as (Hu2 & Hsent2 & Hslept2).
    set (w2 := exec (mark_failure p) (send rq w1)) in *.
    unfold bind at 1. rewrite backoff_run.
    set (w3 := if retries + 1 <? max_retries self then _ else w2).
    assert (manager w3 = manager w2 /\ sent w3 = sent w2) as [Hm3 Hs3].
    { subst w3. by destruct (retries + 1 <? max_retries self). }
    destruct (IH (retries + 1) w3) as (w' & ps & Hrun & Hu' & Hsent' & Hlen & Hslept').
    { by rewrite Hm3. }
    { lia. }
    exists w', (p :: ps). split; [done|]. split; [done|].
    split.
    { rewrite Hsent', Hs3, Hsent2. simpl. rewrite Hsent.
      by rewrite <- app_assoc. }
    split; [simpl; lia|].
    rewrite Hslept'. subst w3.
    destruct (retries + 1 <? max_retries self) eqn:Hlt.
    + apply Z.ltb_lt in Hlt. simpl. rewrite Hslept2. simpl. rewrite Hslept.
      rewrite <- app_assoc. f_equal.
      rewrite (seqZ_cons (retries + 1)) by lia. rewrite fmap_cons. simpl.
      do 3 f_equal; lia.
    + apply Z.ltb_ge in Hlt. rewrite Hslept2. simpl. rewrite Hslept.
      f_equal. replace (Z.of_nat (S n) - 1) with 0 by lia.
      replace (Z.of_nat n - 1) with (-1) by lia. done.
Qed.

Lemma total_wait_app l1 l2 : total_wait (l1 ++ l2) = total_wait l1 + total_wait l2.
Proof. unfold total_wait. induction l1 as [|x l1 IH]; simpl; lia. Qed.

(** C6. Against a url that answers 503 to every attempt, with a usable
    pool, the fetch returns [(None, None)] after exactly [max_retries]
    requests, all of them for that url; it sleeps between consecutive
    attempts only, [min (retry_delay * 2^(k-1)) 30] after attempt [k]
    for [k = 1 .. max_retries - 1], so the total wait it asks for is the
    sum of that capped series. *)
Theorem request_always_503_exhausts_retries
    (clock : nat -> Q) (server : nat -> Request -> Outcome) (self : Client)
    (method url : string) (w : World) :
  wf (manager w) ->
  proxies (manager w) <> [] ->
  "" ∉ proxies (manager w) ->
  (forall k p, exists body,
     server k (mkRequest method url p) = Responded (mkResponse 503 body)) ->
  exists w' ps,
    request clock server self method url w = (Ok (None, None), w') /\
    sent w' = sent w ++ (mkRequest method url <$> ps) /\
    length ps = Z.to_nat (max_retries self) /\
    slept w' = slept w ++ backoff_series (retry_delay self) (max_retries self) /\
    total_wait (slept w') =
      total_wait (slept w)
      + total_wait (backoff_series (retry_delay self) (max_retries self)).
Proof.
  intros Hwf Hne Hempty Hsrv. unfold request.
  destruct (decide (0 <= max_retries self)) as [Hpos|Hneg].
  - destruct (request_loop_always_503 clock server self method url Hsrv
                (Z.to_nat (max_retries self)) 0 w)
      as (w' & ps & Hrun & _ & Hsent & Hlen & Hslept).
    { done. }
    { lia. }
    exists w', ps. split; [done|]. split; [done|]. split; [done|].
    assert (slept w' = slept w ++ backoff_series (retry_delay self) (max_retries self))
      as Hs.
    { rewrite Hslept. unfold backoff_series. do 3 f_equal. lia. }
    split; [done|]. by rewrite Hs, total_wait_app.
  - replace (Z.to_nat (max_retries self)) with 0%nat by lia.
    exists w, []. simpl.
    assert (backoff_series (retry_delay self) (max_retries self) = []) as ->.
    { unfold backoff_series. rewrite seqZ_nil by lia. done. }
    rewrite !app_nil_r. simpl. repeat split; try done. unfold total_wait. simpl. lia.
Qed.

Lemma request_always_503_exhausts_retries_witness :
  let clock := fun _ : nat => 0%Q in
  let server := fun (_ : nat) (_ : Request) => Responded (mkResponse 503 "") in
  exists w' ps,
    request clock server default_client "GET" "u" w_7_of_9 = (Ok (None, None), w') /\
    sent w' = sent w_7_of_9 ++ (mkRequest "GET" "u" <$> ps) /\
    length ps = Z.to_nat 5 /\
    slept w' = slept w_7_of_9 ++ backoff_series 2 5 /\
    total_wait (slept w') =
      total_wait (slept w_7_of_9) + total_wait (backoff_series 2 5).
Proof.
  intros clock server.
  apply (request_always_503_exhausts_retries clock server default_client
           "GET" "u" w_7_of_9).
  - apply wf_w_7_of_9.
  - discriminate.
  - simpl. rewrite list_elem_of_singleton. discriminate.
  - intros k p. exists "". reflexivity.
Defined.

(** With the attributes of [__init__] (5 attempts, initial delay 2) the
    delays are 2, 4, 8 and 16 seconds, 30 seconds in all. *)
Example default_backoff_series :
  backoff_series (retry_delay default_client) (max_retries default_client)
    = [2; 4; 8; 16] /\
  total_wait (backoff_series 2 5) = 30.
Proof. split; reflexivity. Qed.

(** The cap: with initial delay 2 the sixth attempt would wait 32 seconds
    and waits 30. *)
Example capped_backoff_series : backoff_series 2 7 = [2; 4; 8; 16; 30; 30].
Proof. reflexivity. Qed.

(** *** The pool invariant *)

Lemma wf_init (proxy_list : option (list string)) : wf (init proxy_list).
Proof.
  unfold init, wf. simpl. generalize (default [] proxy_list). intros ps p.
  assert (forall (m : gmap string ProxyStat),
            is_Some (foldl (fun m p => <[p := fresh_stat]> m) m ps !! p)
            <-> p ∈ ps \/ is_Some (m !! p)) as Hfold.
  { induction ps as [|q ps IH]; intros m; simpl.
    - rewrite elem_of_nil. tauto.
    - rewrite IH, elem_of_cons. destruct (decide (q = p)) as [->|Hne].
      + rewrite lookup_insert_eq. split; eauto.
      + rewrite lookup_insert_ne by done. split; [tauto|].
        intros [[->|?]|?]; tauto. }
  rewrite Hfold, lookup_empty. split; [tauto|].
  intros [?|[? ?]]; done.
Qed.

Lemma wf_add_proxy pm proxy : wf pm -> wf (add_proxy pm proxy).
Proof.
  intros Hwf p. unfold add_proxy. destruct (decide (proxy ∈ proxies pm)); [done|].
  simpl. rewrite elem_of_app, list_elem_of_singleton.
  destruct (decide (proxy = p)) as [->|Hne].
  - rewrite lookup_insert_eq. split; eauto.
  - rewrite lookup_insert_ne by done. rewrite (Hwf p). split; [|tauto].
    intros [?|?]; [done|congruence].
Qed.

Lemma wf_add_proxies l w :
  wf (manager w) -> wf (manager (exec (add_proxies l) w)).
Proof.
  unfold exec, add_proxies, modify. simpl. generalize (manager w).
  induction l as [|q l IH]; intros pm Hwf; simpl; [done|].
  apply IH. by apply wf_add_proxy.
Qed.

Lemma wf_get_best_proxy clock w :
  wf (manager w) -> wf (manager (exec (get_best_proxy clock) w)).
Proof.
  intros Hwf. destruct (decide (proxies (manager w) = [])) as [Hnil|Hne].
  - unfold exec, get_best_proxy, bind, get_state. by rewrite Hnil.
  - destruct (get_best_proxy_spec clock w Hwf Hne)
      as (p & w' & Hget & _ & _ & Hperm & Hstats & _).
    unfold exec. rewrite Hget. simpl. intros q.
    rewrite Hperm, Hstats. apply Hwf.
Qed.

Lemma wf_mark_success clock p w :
  wf (manager w) -> wf (manager (exec (mark_success clock p) w)).
Proof.
  intros Hwf. unfold exec.
  destruct (proxy_stats (manager w) !! p) as [st|] eqn:Hst.
  - rewrite (mark_success_registered _ _ _ _ Hst). simpl. intros q.
    rewrite (Hwf q). unfold set_failed, set_stats. simpl.
    destruct (decide (p = q)) as [->|Hne].
    + rewrite lookup_insert_eq, Hst. split; eauto.
    + by rewrite lookup_insert_ne.
  - by rewrite (mark_success_unregistered _ _ _ Hst).
Qed.

Lemma wf_mark_failure p w :
  wf (manager w) -> wf (manager (exec (mark_failure p) w)).
Proof.
  intros Hwf. unfold exec.
  destruct (proxy_stats (manager w) !! p) as [st|] eqn:Hst.
  - rewrite (mark_failure_registered _ _ _ Hst). simpl. intros q.
    destruct (_ && _); simpl; rewrite (Hwf q);
      (destruct (decide (p = q)) as [->|Hne];
       [rewrite lookup_insert_eq, Hst; split; eauto
       | by rewrite lookup_insert_ne]).
  - by rewrite (mark_failure_unregistered _ _ Hst).
Qed.

End ProxyFacts.

(** ** Record store and processed-id ledger *)

Module ScraperFacts.
Import Scraper.

(** *** Relations that every step of a computation keeps *)

Section Stable.

Variable R : Scraper -> Scraper -> Prop.
Hypothesis R_refl : forall s, R s s.
Hypothesis R_trans : forall s1 s2 s3, R s1 s2 -> R s2 s3 -> R s1 s3.

Lemma stable_ret {A} (a : A) : stable R (ret a).
Proof. intros s. apply R_refl. Qed.

Lemma stable_raise {A} (e : exn) : stable R (raise (A := A) e).
Proof. intros s. apply R_refl. Qed.

Lemma stable_get_state : stable R get_state.
Proof. intros s. apply R_refl. Qed.

Lemma stable_modify (f : Scraper -> Scraper) :
  (forall s, R s (f s)) -> stable R (modify f).
Proof. intros Hf s. apply Hf. Qed.

Lemma stable_bind {A B} (c : M Scraper A) (k : A -> M Scraper B) :
  stable R c -> (forall a, stable R (k a)) -> stable R (bind c k).
Proof.
  intros Hc Hk s. specialize (Hc s). unfold exec, bind in *.
  destruct (c s) as [[a| |] s1]; simpl in *; try done.
  eapply R_trans; [exact Hc | apply Hk].
Qed.

Lemma stable_try_except {A} (c : M Scraper A) (h : exn -> M Scraper A) :
  stable R c -> (forall e, stable R (h e)) -> stable R (try_except c h).
Proof.
  intros Hc Hh s. specialize (Hc s). unfold exec, try_except in *.
  destruct (c s) as [[a| |] s1]; simpl in *; try done.
  eapply R_trans; [exact Hc | apply Hh].
Qed.

Hypothesis R_lock : forall s b, R s (set_lock_held b s).
Hypothesis R_env : forall s, R s (set_env_calls S s).
Hypothesis R_slept : forall s f, R s (set_slept f s).
Hypothesis R_fetched : forall s f, R s (set_fetched f s).
Hypothesis R_time : forall s t, R s (set_last_request_time t s).
Hypothesis R_progress : forall s f, R s (set_scan_progress f s).
Hypothesis R_disk : forall s f, R s (set_disk f s).

Lemma stable_with_lock {A} (c : M Scraper A) : stable R c -> stable R (with_lock c).
Proof.
  intros Hc s. unfold exec, with_lock.
  destruct (lock_held s); [apply R_refl|].
  specialize (Hc (set_lock_held true s)). unfold exec in Hc.
  destruct (c (set_lock_held true s)) as [[a| |] s1]; simpl in *.
  - eapply R_trans; [apply R_lock|]. eapply R_trans; [exact Hc | apply R_lock].
  - eapply R_trans; [apply R_lock|]. eapply R_trans; [exact Hc | apply R_lock].
  - eapply R_trans; [apply R_lock | exact Hc].
Qed.

Lemma stable_ask {A} (oracle : nat -> A) : stable R (ask oracle).
Proof. intros s. apply R_env. Qed.

Section Methods.

Variable config : Config.
Variable clock : nat -> Q.
Variable uniform : nat -> Q -> Q -> Q.
Variable isoformat_now : nat -> string.
Variable http_get : nat -> string -> Outcome.
Variable open_fails : nat -> string -> bool.
Variable findall : string -> list string.
Variable soup_title : string -> option (option string).
Variable soup_date : string -> option (option string).
Variable json_chunks : DB -> list string.

Lemma stable_time_sleep d : stable R (time_sleep d).
Proof. apply stable_modify. intros s. apply R_slept. Qed.

Lemma stable_requests_get url : stable R (requests_get http_get url).
Proof.
  unfold requests_get. apply stable_bind; [apply stable_ask|]. intros out.
  apply stable_bind; [apply stable_modify; intros s; apply R_fetched|].
  intros _. destruct out; [apply stable_ret | apply stable_raise].
Qed.

Lemma stable_open_file path : stable R (open_file open_fails path).
Proof.
  unfold open_file. apply stable_bind; [apply stable_ask|].
  intros [|]; [apply stable_raise | apply stable_ret].
Qed.

Lemma stable_run_actions l : stable R (run_actions l).
Proof. apply stable_modify. intros s. apply R_disk. Qed.

Lemma stable_save_db : stable R (_save_db config open_fails json_chunks).
Proof.
  unfold _save_db. apply stable_with_lock, stable_try_except.
  - apply stable_bind; [apply stable_open_file|]. intros _.
    apply stable_bind; [apply stable_get_state|]. intros s.
    apply stable_run_actions.
  - intros _. apply stable_ret.
Qed.

Lemma stable_rate_limit : stable R (_rate_limit config clock uniform).
Proof.
  unfold _rate_limit, time_time, random_uniform.
  apply stable_bind; [apply stable_ask|]. intros t.
  apply stable_bind; [apply stable_get_state|]. intros s.
  apply stable_bind; [apply stable_ask|]. intros d.
  apply stable_bind.
  { destruct (Qltb _ _); [apply stable_time_sleep | apply stable_ret]. }
  intros _. apply stable_bind; [apply stable_ask|]. intros t'.
  apply stable_modify. intros s'. apply R_time.
Qed.

Hypothesis R_ids :
  forall s paste_id, R s (set_processed_ids (fun ids => ids ∪ {[paste_id]}) s).

Lemma stable_save_processed_id paste_id :
  stable R (_save_processed_id config open_fails paste_id).
Proof.
  unfold _save_processed_id. apply stable_try_except.
  - apply stable_bind; [apply stable_open_file|]. intros _.
    apply stable_bind; [apply stable_run_actions|]. intros _.
    apply stable_modify. intros s. apply R_ids.
  - intros _. apply stable_ret.
Qed.

Lemma stable_scrape_single_paste paste_id :
  stable R (scrape_single_paste config clock uniform isoformat_now http_get
            open_fails findall soup_title soup_date paste_id).
Proof.
  unfold scrape_single_paste, datetime_now_isoformat.
  apply stable_bind; [apply stable_get_state|]. intros s.
  destruct (decide _); [apply stable_ret|].
  apply stable_try_except.
  - apply stable_bind; [apply stable_rate_limit|]. intros _.
    apply stable_bind; [apply stable_requests_get|]. intros response.
    destruct (status_code response =? 404).
    { apply stable_bind; [apply stable_save_processed_id|]. intros _.
      apply stable_ret. }
    destruct (status_code response =? 403).
    { apply stable_bind; [apply stable_time_sleep|]. intros _. apply stable_ret. }
    destruct (negb _); [apply stable_ret|].
    destruct (extract_onion_links findall (text response)).
    { apply stable_bind; [apply stable_save_processed_id|]. intros _.
      apply stable_ret. }
    apply stable_bind; [apply stable_requests_get|]. intros meta.
    apply stable_bind; [apply stable_ask|]. intros date.
    destruct (if status_code meta =? 200 then _ else _) as [title date_str].
    apply stable_bind; [apply stable_ask|]. intros crawled.
    apply stable_bind.
    { apply stable_with_lock, stable_modify. intros s'. apply R_progress. }
    intros _. apply stable_bind; [apply stable_save_processed_id|]. intros _.
    apply stable_ret.
  - intros _. apply stable_bind; [|intros _; apply stable_ret].
    apply stable_with_lock, stable_modify. intros s'. apply R_progress.
Qed.

Hypothesis R_db : forall s f, R s (set_db f s).

Lemma stable_add_entry entry : stable R (add_entry config open_fails json_chunks entry).
Proof.
  unfold add_entry. destruct entry as [entry|]; [|apply stable_ret].
  apply stable_with_lock. apply stable_bind; [apply stable_get_state|]. intros s.
  destruct (merge_existing entry _).
  - apply stable_modify. intros s'. apply R_db.
  - apply stable_bind; [apply stable_modify; intros s'; apply R_db|]. intros _.
    apply stable_bind; [apply stable_get_state|]. intros s'.
    destruct (_ =? 0); [apply stable_raise|].
    destruct (_ =? 0); [apply stable_save_db | apply stable_ret].
Qed.

Lemma stable_process_paste paste_id :
  stable R (process_paste config clock uniform isoformat_now http_get
            open_fails findall soup_title soup_date json_chunks paste_id).
Proof.
  unfold process_paste.
  apply stable_bind; [apply stable_scrape_single_paste|]. intros result.
  apply stable_bind.
  { destruct result; [apply stable_add_entry | apply stable_ret]. }
  intros _. apply stable_modify. intros s. apply R_progress.
Qed.

Lemma stable_process_ids ids :
  stable R (process_ids config clock uniform isoformat_now http_get
            open_fails findall soup_title soup_date json_chunks ids).
Proof.
  induction ids as [|paste_id rest IH]; simpl; [apply stable_ret|].
  apply stable_bind; [apply stable_get_state|]. intros s.
  destruct (is_running s); [|apply stable_ret].
  apply stable_bind; [apply stable_process_paste|]. intros _. exact IH.
Qed.

Hypothesis R_stop :
  forall s, R s (mkScraper (db s) (processed_ids s) false (scan_progress s)
                   (last_request_time s) (lock_held s) (disk s) (fetched s)
                   (slept s) (env_calls s)).

Lemma stable_stop_scan : stable R (stop_scan config open_fails json_chunks).
Proof.
  unfold stop_scan. apply stable_bind; [apply stable_modify, R_stop|].
  intros _. apply stable_save_db.
Qed.

End Methods.

End Stable.

(** *** What a computation returns *)

Lemma returns_ret {A} (P : A -> Prop) (a : A) : P a -> returns P (ret a).
Proof. intros HP s a' s' [= <- _]. exact HP. Qed.

Lemma returns_raise {A} (P : A -> Prop) (e : exn) : returns P (raise e).
Proof. intros s a s' [=]. Qed.

Lemma returns_bind {A B} (Q : A -> Prop) (P : B -> Prop)
    (c : M Scraper A) (k : A -> M Scraper B) :
  returns Q c -> (forall a, Q a -> returns P (k a)) -> returns P (bind c k).
Proof.
  intros Hc Hk s b s' Hrun. unfold bind in Hrun.
  destruct (c s) as [[a| |] s1] eqn:E; try discriminate.
  eapply Hk; [eapply Hc; exact E | exact Hrun].
Qed.

Lemma returns_any {A} (c : M Scraper A) : returns (fun _ => True) c.
Proof. by intros s a s' _. Qed.

Lemma returns_try_except {A} (P : A -> Prop)
    (c : M Scraper A) (h : exn -> M Scraper A) :
  returns P c -> (forall e, returns P (h e)) -> returns P (try_except c h).
Proof.
  intros Hc Hh s a s' Hrun. unfold try_except in Hrun.
  destruct (c s) as [[a'| |] s1] eqn:E; try discriminate.
  - injection Hrun as <- _. eapply Hc; exact E.
  - eapply Hh; exact Hrun.
Qed.

(** *** The operations of a scan *)

Ltac frame := intros; unfold ledger_grows, same_db; simpl; try done; try set_solver.

Section Facts.

Variable config : Config.
Variable clock : nat -> Q.
Variable uniform : nat -> Q -> Q -> Q.
Variable isoformat_now : nat -> string.
Variable http_get : nat -> string -> Outcome.
Variable open_fails : nat -> string -> bool.
Variable findall : string -> list string.
Variable soup_title : string -> option (option string).
Variable soup_date : string -> option (option string).
Variable json_chunks : DB -> list string.

Local Abbreviation scrape :=
  (scrape_single_paste config clock uniform isoformat_now http_get
     open_fails findall soup_title soup_date).
Local Abbreviation merge := (add_entry config open_fails json_chunks).
Local Abbreviation process :=
  (process_paste config clock uniform isoformat_now http_get
     open_fails findall soup_title soup_date json_chunks).
Local Abbreviation process_all :=
  (process_ids config clock uniform isoformat_now http_get
     open_fails findall soup_title soup_date json_chunks).
Local Abbreviation run :=
  (run_op config clock uniform isoformat_now http_get
     open_fails findall soup_title soup_date json_chunks).
Local Abbreviation run_all :=
  (run_ops config clock uniform isoformat_now http_get
     open_fails findall soup_title soup_date json_chunks).
Local Abbreviation fetched_entry := (scraped_from http_get findall).

(** *** C2 *)

Lemma ledger_grows_run_op o : stable ledger_grows (run o).
Proof.
  assert (forall s, ledger_grows s s) as Hrefl by frame.
  assert (forall s1 s2 s3, ledger_grows s1 s2 -> ledger_grows s2 s3 ->
                           ledger_grows s1 s3) as Htrans by frame.
  destruct o; simpl.
  - apply stable_bind; [exact Htrans| |intros; by apply stable_ret].
    apply stable_scrape_single_paste; frame.
  - apply stable_add_entry; frame.
  - apply stable_save_processed_id; frame.
  - apply stable_save_db; frame.
  - apply stable_rate_limit; frame.
  - apply stable_process_paste; frame.
  - apply stable_process_ids; frame.
  - apply stable_stop_scan; frame.
Qed.

Lemma scrape_processed paste_id s :
  paste_id ∈ processed_ids s -> scrape paste_id s = (Ok None, s).
Proof.
  intros Hin. unfold scrape_single_paste, bind, get_state.
  by destruct (decide (paste_id ∈ processed_ids s)).
Qed.

Lemma process_processed paste_id s :
  paste_id ∈ processed_ids s ->
  process paste_id s =
    (Ok tt, set_scan_progress (fun p =>
              mkProgress (processed p + 1) (found p) (errors p)) s).
Proof.
  intros Hin. unfold process_paste. unfold bind at 1.
  by rewrite scrape_processed.
Qed.

Lemma process_all_processed ids s :
  (forall paste_id, paste_id ∈ ids -> paste_id ∈ processed_ids s) ->
  let s' := exec (process_all ids) s in
  fetched s' = fetched s /\ db s' = db s /\ processed_ids s' = processed_ids s /\
  disk s' = disk s.
Proof.
  revert s. induction ids as [|paste_id rest IH]; intros s Hall; simpl; [done|].
  unfold exec, bind, get_state. destruct (is_running s) eqn:Hrun; [|done].
  rewrite process_processed by (apply Hall; left). simpl.
  set (s1 := set_scan_progress _ s).
  destruct (IH s1) as (H1 & H2 & H3 & H4).
  { intros q Hq. simpl. apply Hall. by right. }
  unfold exec in H1, H2, H3, H4. rewrite H1, H2, H3, H4. done.
Qed.

Lemma ledger_grows_run_ops ops s : ledger_grows s (run_all ops s).
Proof.
  revert s. induction ops as [|o ops IH]; intros s; simpl; [frame|].
  unfold ledger_grows in *. etrans; [apply (ledger_grows_run_op o s)|]. apply IH.
Qed.

(** C2. No operation of the scraper removes an identifier from the
    processed-id ledger; and once an identifier is in the ledger, after
    any further operations, scraping it returns no record, performs no
    fetch and leaves the whole state as it is, and a scan pass over
    identifiers that are all in the ledger performs no fetch and leaves
    the store, the ledger and the files as they are. *)
Theorem ledger_only_grows_and_skips :
  (forall o s, processed_ids s ⊆ processed_ids (exec (run o) s)) /\
  (forall paste_id ops s,
     paste_id ∈ processed_ids s ->
     let s' := run_all ops s in
     paste_id ∈ processed_ids s' /\
     scrape paste_id s' = (Ok None, s') /\
     fetched (exec (scrape paste_id) s') = fetched s') /\
  (forall ids s,
     (forall paste_id, paste_id ∈ ids -> paste_id ∈ processed_ids s) ->
     let s' := exec (process_all ids) s in
     fetched s' = fetched s /\ db s' = db s /\
     processed_ids s' = processed_ids s /\ disk s' = disk s).
Proof.
  split; [|split].
  - intros o s. apply ledger_grows_run_op.
  - intros paste_id ops s Hin s'.
    assert (paste_id ∈ processed_ids s') as Hin'
      by (by apply (ledger_grows_run_ops ops s)).
    split; [done|]. split; [by apply scrape_processed|].
    unfold exec. by rewrite scrape_processed.
  - apply process_all_processed.
Qed.

(** *** C9 *)

Lemma requests_get_returns url :
  returns (fun r => exists k, http_get k url = Responded r)
    (requests_get http_get url).
Proof.
  intros s r s' Hrun. unfold requests_get, ask, bind, modify in Hrun.
  simpl in Hrun. destruct (http_get (env_calls s) url) as [r'|e] eqn:E.
  - injection Hrun as <- _. eauto.
  - discriminate.
Qed.

Lemma extract_onion_links_NoDup content :
  NoDup (extract_onion_links findall content).
Proof. unfold extract_onion_links. apply NoDup_elements. Qed.

Lemma link_values_of_links (links : list string) :
  map onionLink (map (fun link => mkLink link None) links) = links.
Proof. induction links as [|x l IH]; simpl; [done | by rewrite IH]. Qed.

Lemma scrape_returns paste_id :
  returns (fun r => forall e, r = Some e -> fetched_entry paste_id e)
    (scrape paste_id).
Proof.
  unfold scrape_single_paste.
  eapply returns_bind; [apply returns_any|]. intros s _.
  destruct (decide _); [by apply returns_ret|].
  apply returns_try_except.
  - eapply returns_bind; [apply returns_any|]. intros _ _.
    eapply returns_bind; [apply requests_get_returns|].
    intros response [k Hk].
    destruct (status_code response =? 404).
    { eapply returns_bind; [apply returns_any|]. intros _ _. by apply returns_ret. }
    destruct (status_code response =? 403).
    { eapply returns_bind; [apply returns_any|]. intros _ _. by apply returns_ret. }
    destruct (status_code response =? 200) eqn:E200; simpl;
      [|by apply returns_ret].
    apply Z.eqb_eq in E200.
    destruct (extract_onion_links findall (text response)) as [|l0 ls] eqn:Hlinks.
    { eapply returns_bind; [apply returns_any|]. intros _ _. by apply returns_ret. }
    eapply returns_bind; [apply returns_any|]. intros meta _.
    eapply returns_bind; [apply returns_any|]. intros date _.
    destruct (if status_code meta =? 200 then _ else _) as [title date_str].
    eapply returns_bind; [apply returns_any|]. intros crawled _.
    eapply returns_bind; [apply returns_any|]. intros _ _.
    eapply returns_bind; [apply returns_any|]. intros _ _.
    apply returns_ret. intros e [= <-]. unfold scraped_from.
    cbn [pasteId onionLinks].
    change (mkLink l0 None :: map (fun link => mkLink link None) ls)
      with (map (fun link => mkLink link None) (l0 :: ls)).
    split; [done|]. split; [done|]. rewrite <- Hlinks. split.
    + unfold link_values. cbn [onionLinks].
      change (NoDup (map onionLink (map (fun link => mkLink link None)
                (extract_onion_links findall (text response))))).
      rewrite link_values_of_links. apply extract_onion_links_NoDup.
    + by exists k, response.
  - intros _. eapply returns_bind; [apply returns_any|]. intros _ _.
    by apply returns_ret.
Qed.

Lemma scrape_same_db paste_id s : db (exec (scrape paste_id) s) = db s.
Proof.
  assert (forall s, same_db s s) as Hrefl by frame.
  assert (forall s1 s2 s3, same_db s1 s2 -> same_db s2 s3 -> same_db s1 s3)
    as Htrans by (unfold same_db; intros; congruence).
  apply (stable_scrape_single_paste same_db); frame.
Qed.

(** What the loop of [add_entry] does to the list of records. *)
Lemma merge_existing_Some entry records records' :
  merge_existing entry records = Some records' ->
  exists before existing after,
    records = before ++ existing :: after /\
    (forall r, r ∈ before -> pasteId r <> pasteId entry) /\
    pasteId existing = pasteId entry /\
    records' = before ++ extend existing (unseen existing entry) :: after.
Proof.
  revert records'. induction records as [|x rest IH]; intros records' Hm;
    simpl in Hm; [discriminate|].
  destruct (decide (pasteId x = pasteId entry)) as [Heq|Hne].
  - injection Hm as <-. exists [], x, rest. split; [done|].
    split; [by intros r Hr%elem_of_nil|]. split; [done|]. simpl. f_equal.
    unfold unseen, link_values, extend.
    change (map onionLink (onionLinks x)) with (onionLink <$> onionLinks x).
    destruct (filter _ (onionLinks entry)); [|done].
    rewrite app_nil_r. by destruct x.
  - destruct (merge_existing entry rest) as [rest'|] eqn:E; [|discriminate].
    injection Hm as <-.
    destruct (IH rest' eq_refl) as (before & existing & after & -> & Hb & He & ->).
    exists (x :: before), existing, after. split; [done|].
    split; [|done]. intros r [->|Hr]%elem_of_cons; [done | by apply Hb].
Qed.

Lemma merge_existing_None entry records :
  merge_existing entry records = None <->
  forall r, r ∈ records -> pasteId r <> pasteId entry.
Proof.
  induction records as [|x rest IH]; simpl.
  - split; [by intros _ r Hr%elem_of_nil | done].
  - destruct (decide (pasteId x = pasteId entry)) as [Heq|Hne].
    + split; [discriminate|]. intros Hall. destruct (Hall x); [left | done].
    + destruct (merge_existing entry rest) as [rest'|] eqn:E.
      * split; [discriminate|]. intros Hall.
        assert (Some rest' = None) as Hn
          by (apply IH; intros r Hr; apply Hall; by right).
        discriminate.
      * split; [|done]. intros _ r [->|Hr]%elem_of_cons; [done|].
        by apply (proj1 IH).
Qed.

Lemma set_lock_held_twice f s :
  lock_held s = false ->
  set_lock_held false (set_db f (set_lock_held true s)) = set_db f s.
Proof. intros Hl. destruct s. simpl in *. by subst. Qed.

(** [add_entry] on a free lock, case by case. *)
Lemma add_entry_run entry s :
  lock_held s = false ->
  merge (Some entry) s =
    match merge_existing entry (onion_links (db s)) with
    | Some records =>
        (Ok tt, set_db (fun d => mkDB records (scan_sessions d)) s)
    | None =>
        let s1 := set_db (fun d => mkDB (onion_links d ++ [entry]) (scan_sessions d)) s in
        if save_interval config =? 0 then (Raise ZeroDivisionError, s1)
        else if Z.of_nat (length (onion_links (db s1))) mod save_interval config =? 0
             then (Blocked, set_lock_held true s1)
             else (Ok tt, s1)
    end.
Proof.
  intros Hfree. unfold add_entry, with_lock. rewrite Hfree.
  unfold bind at 1. unfold get_state. simpl.
  destruct (merge_existing entry (onion_links (db s))) as [records|].
  - unfold modify. by rewrite set_lock_held_twice.
  - unfold bind, modify, get_state. simpl.
    destruct (save_interval config =? 0).
    + unfold raise. by rewrite set_lock_held_twice.
    + destruct (_ mod _ =? 0).
      * unfold _save_db, with_lock. simpl. destruct s; simpl in *; by subst.
      * unfold ret. by rewrite set_lock_held_twice.
Qed.

(** The store after [add_entry], however the call ends. *)
Lemma add_entry_db entry s :
  onion_links (db (exec (merge (Some entry)) s)) =
    if lock_held s then onion_links (db s)
    else match merge_existing entry (onion_links (db s)) with
         | Some records => records
         | None => onion_links (db s) ++ [entry]
         end.
Proof.
  destruct (lock_held s) eqn:Hl.
  - unfold exec, add_entry, with_lock. by rewrite Hl.
  - unfold exec. rewrite add_entry_run by done.
    destruct (merge_existing entry _); [done|]. simpl.
    destruct (_ =? 0); [done|]. by destruct (_ =? 0).
Qed.





Lemma exec_bind {S A B} (c : M S A) (k : A -> M S B) (s : S) :
  exec (bind c k) s =
    match c s with
    | (Ok a, s1) => exec (k a) s1
    | (_, s1) => s1
    end.
Proof. unfold exec, bind. by destruct (c s) as [[a| |] s1]. Qed.





(** *** C1 *)

Lemma filter_nil_all_links (P : LinkEntry -> Prop) `{forall l, Decision (P l)}
    (ls : list LinkEntry) :
  (forall l, l ∈ ls -> ~ P l) -> filter P ls = [].
Proof.
  intros Hall. induction ls as [|l ls IH]; [done|].
  rewrite filter_cons. destruct (decide (P l)) as [HP|_].
  - destruct (Hall l); [left | done].
  - apply IH. intros l' Hl'. apply Hall. by right.
Qed.

Lemma extend_nil r : extend r [] = r.
Proof. unfold extend. rewrite app_nil_r. by destruct r. Qed.

Lemma merge_existing_found entry before existing after :
  (forall r, r ∈ before -> pasteId r <> pasteId entry) ->
  pasteId existing = pasteId entry ->
  merge_existing entry (before ++ existing :: after) =
    Some (before ++ extend existing (unseen existing entry) :: after).
Proof.
  intros Hb He. induction before as [|x before IH]; simpl.
  - destruct (decide (pasteId existing = pasteId entry)); [|done].
    f_equal. f_equal. unfold unseen, link_values, extend.
    change (map onionLink (onionLinks existing))
      with (onionLink <$> onionLinks existing).
    destruct (filter _ (onionLinks entry)); [|done].
    rewrite app_nil_r. by destruct existing.
  - destruct (decide (pasteId x = pasteId entry)) as [Heq|_].
    { destruct (Hb x); [left | done]. }
    rewrite IH; [done|]. intros r Hr. apply Hb. by right.
Qed.

Lemma unseen_after_extend existing entry :
  unseen (extend existing (unseen existing entry)) entry = [].
Proof.
  unfold unseen at 1. apply filter_nil_all_links. intros l Hl Hnot. apply Hnot.
  unfold link_values. simpl. rewrite fmap_app, elem_of_app.
  destruct (decide (onionLink l ∈ link_values existing)) as [Hin|Hout]; [by left|].
  right. apply list_elem_of_fmap. exists l. split; [done|].
  unfold unseen. by apply list_elem_of_filter.
Qed.

Lemma unseen_self entry : unseen entry entry = [].
Proof.
  unfold unseen. apply filter_nil_all_links. intros l Hl Hnot. apply Hnot.
  unfold link_values. apply list_elem_of_fmap. eauto.
Qed.

(** Merging again what was just merged changes nothing: the second call
    returns and leaves the whole state as the first left it. *)
Lemma add_entry_idempotent entry s s1 :
  merge (Some entry) s = (Ok tt, s1) ->
  merge (Some entry) s1 = (Ok tt, s1).
Proof.
  intros Hrun.
  assert (lock_held s = false) as Hfree.
  { destruct (lock_held s) eqn:Hl; [|done].
    unfold add_entry, with_lock in Hrun. by rewrite Hl in Hrun. }
  rewrite add_entry_run in Hrun by done.
  assert (lock_held s1 = false /\
          exists before existing after,
            onion_links (db s1) = before ++ existing :: after /\
            (forall r, r ∈ before -> pasteId r <> pasteId entry) /\
            pasteId existing = pasteId entry /\
            unseen existing entry = []) as (Hfree1 & before & existing & after & Hrec & Hb & He & Hun).
  { destruct (merge_existing entry (onion_links (db s))) as [records|] eqn:E.
    - injection Hrun as <-. split; [done|].
      destruct (merge_existing_Some _ _ _ E)
        as (before & existing & after & _ & Hb & He & ->).
      exists before, (extend existing (unseen existing entry)), after.
      split; [done|]. split; [done|]. split; [done|].
      apply unseen_after_extend.
    - simpl in Hrun. destruct (_ =? 0); [discriminate|].
      destruct (_ =? 0); [discriminate|]. injection Hrun as <-.
      split; [done|]. exists (onion_links (db s)), entry, [].
      split; [done|]. split; [by apply merge_existing_None|]. split; [done|].
      apply unseen_self. }
  rewrite add_entry_run by done.
  rewrite Hrec, merge_existing_found by done. rewrite Hun, extend_nil, <- Hrec.
  f_equal. destruct s1 as [[] ? ? ? ? ? ? ? ? ?]. done.
Qed.

Lemma unseen_NoDup existing entry :
  NoDup (link_values existing) -> NoDup (link_values entry) ->
  NoDup (link_values (extend existing (unseen existing entry))).
Proof.
  intros Hex Hen. unfold link_values. simpl. rewrite fmap_app.
  apply NoDup_app. split; [done|]. split.
  - intros v Hv [l [-> Hl]]%list_elem_of_fmap.
    unfold unseen in Hl. apply list_elem_of_filter in Hl as [Hnot _]. by apply Hnot.
  - unfold unseen, link_values in *. revert Hen.
    generalize (onionLinks entry) as ls. induction ls as [|l ls IH]; intros Hnd.
    + constructor.
    + rewrite fmap_cons in Hnd. apply NoDup_cons in Hnd as [Hl Hnd].
      rewrite filter_cons. destruct (decide _); [|by apply IH].
      rewrite fmap_cons. apply NoDup_cons. split; [|by apply IH].
      intros [l' [Heq Hl']]%list_elem_of_fmap.
      apply list_elem_of_filter in Hl' as [_ Hl']. apply Hl.
      rewrite Heq. apply list_elem_of_fmap. eauto.
Qed.

Lemma links_unique_add_entry entry s :
  NoDup (link_values entry) ->
  links_unique s -> links_unique (exec (merge (Some entry)) s).
Proof.
  intros Hnd Hinv r. rewrite add_entry_db.
  destruct (lock_held s); [apply Hinv|].
  destruct (merge_existing entry (onion_links (db s))) as [records|] eqn:E.
  - destruct (merge_existing_Some _ _ _ E)
      as (before & existing & after & Hrec & _ & _ & ->).
    assert (forall x, x ∈ before ++ existing :: after -> NoDup (link_values x))
      as Hold by (intros x Hx; apply Hinv; by rewrite Hrec).
    intros [Hr|[->|Hr]%elem_of_cons]%elem_of_app.
    + apply Hold, elem_of_app. by left.
    + apply unseen_NoDup; [|done]. apply Hold, elem_of_app. right. left.
    + apply Hold, elem_of_app. right. by right.
  - intros [Hr|Hr%list_elem_of_singleton]%elem_of_app; [by apply Hinv | by subst].
Qed.

(** Two entries with the same identifier, merged into a store that has no
    record with it, away from a periodic save: one record is appended, with
    the links of the first followed by those links of the second whose
    value the first does not have. *)
Lemma add_entry_union r1 r2 s :
  lock_held s = false ->
  pasteId r1 = pasteId r2 ->
  (forall r, r ∈ onion_links (db s) -> pasteId r <> pasteId r1) ->
  save_interval config <> 0 ->
  (Z.of_nat (length (onion_links (db s))) + 1) mod save_interval config <> 0 ->
  (merge (Some r1) ;; merge (Some r2)) s =
    (Ok tt,
     set_db (fun d => mkDB (onion_links d ++ [extend r1 (unseen r1 r2)])
                        (scan_sessions d)) s).
Proof.
  intros Hfree Hid Hnew Hnz Hmod.
  set (s1 := set_db (fun d => mkDB (onion_links d ++ [r1]) (scan_sessions d)) s).
  assert (merge (Some r1) s = (Ok tt, s1)) as Hfirst.
  { rewrite add_entry_run by done.
    rewrite (proj2 (merge_existing_None r1 _)) by done. cbv zeta. fold s1.
    destruct (save_interval config =? 0) eqn:E0; [by apply Z.eqb_eq in E0|].
    replace (Z.of_nat (length (onion_links (db s1))))
      with (Z.of_nat (length (onion_links (db s))) + 1)
      by (subst s1; simpl; rewrite length_app; simpl; lia).
    by destruct (_ mod _ =? 0) eqn:Em; [apply Z.eqb_eq in Em|]. }
  unfold bind. rewrite Hfirst.
  rewrite add_entry_run by done.
  change (onion_links (db s1)) with (onion_links (db s) ++ r1 :: []).
  rewrite merge_existing_found; [|by rewrite <- Hid|done].
  done.
Qed.

Lemma unseen_disjoint r1 r2 :
  (forall l, l ∈ onionLinks r2 -> onionLink l ∉ link_values r1) ->
  unseen r1 r2 = onionLinks r2.
Proof.
  intros Hdis. unfold unseen.
  induction (onionLinks r2) as [|l ls IH]; [done|].
  rewrite filter_cons. destruct (decide _) as [|Hin].
  - f_equal. apply IH. intros l' Hl'. apply Hdis. by right.
  - destruct Hin. apply Hdis. left.
Qed.

(** At a periodic save [add_entry] never returns: it has appended the
    entry and then calls [_save_db], which waits for the lock that
    [add_entry] itself holds. *)
Lemma add_entry_blocks entry s :
  lock_held s = false ->
  (forall r, r ∈ onion_links (db s) -> pasteId r <> pasteId entry) ->
  save_interval config <> 0 ->
  (Z.of_nat (length (onion_links (db s))) + 1) mod save_interval config = 0 ->
  merge (Some entry) s =
    (Blocked,
     set_lock_held true
       (set_db (fun d => mkDB (onion_links d ++ [entry]) (scan_sessions d)) s)).
Proof.
  intros Hfree Hnew Hnz Hmod. rewrite add_entry_run by done.
  rewrite (proj2 (merge_existing_None entry _)) by done. simpl.
  destruct (save_interval config =? 0) eqn:E0; [by apply Z.eqb_eq in E0|].
  rewrite length_app. simpl.
  replace (Z.of_nat (length (onion_links (db s)) + 1))
    with (Z.of_nat (length (onion_links (db s))) + 1) by lia.
  rewrite Hmod. done.
Qed.

(** *** C7 *)

Lemma string_app_nil_r (a : string) : String.append a "" = a.
Proof.
  induction a as [|c a IH]; [done|].
  change (String c (String.append a "") = String c a). by rewrite IH.
Qed.

Lemma string_app_assoc (a b c : string) :
  String.append (String.append a b) c = String.append a (String.append b c).
Proof.
  induction a as [|x a IH]; [done|].
  change (String x (String.append (String.append a b) c)
          = String x (String.append a (String.append b c))).
  by rewrite IH.
Qed.

Lemma serialised_snoc chunks x :
  serialised (chunks ++ [x]) = String.append (serialised chunks) x.
Proof.
  unfold serialised. induction chunks as [|c chunks IH]; simpl.
  - by rewrite string_app_nil_r.
  - by rewrite IH, string_app_assoc.
Qed.

Lemma run_writes (path : string) (chunks : list string) (d : gmap string string)
    (content : string) :
  foldl apply_action (<[path := content]> d) (Write path <$> chunks) =
    <[path := String.append content (serialised chunks)]> d.
Proof.
  revert content. induction chunks as [|x chunks IH]; intros content; simpl.
  - by rewrite string_app_nil_r.
  - rewrite lookup_insert_eq. simpl. rewrite insert_insert_eq.
    rewrite IH. by rewrite string_app_assoc.
Qed.

(** The file system after the first [k] file operations of a flush. *)
Lemma save_db_actions_prefix (d : DB) (files : gmap string string) (k : nat) :
  foldl apply_action files (take k (save_db_actions config json_chunks d)) =
    match k with
    | O => files
    | S j => <[db_path config := serialised (take j (json_chunks d))]> files
    end.
Proof.
  destruct k as [|j]; [done|]. unfold save_db_actions. simpl.
  change (map (Write (db_path config)) (json_chunks d))
    with (Write (db_path config) <$> json_chunks d).
  rewrite <- fmap_take. by rewrite run_writes.
Qed.

Lemma save_db_actions_all (d : DB) (files : gmap string string) :
  foldl apply_action files (save_db_actions config json_chunks d) =
    <[db_path config := serialised (json_chunks d)]> files.
Proof.
  rewrite <- (firstn_all (save_db_actions config json_chunks d)).
  change firstn with (@take fs_action).
  rewrite save_db_actions_prefix. unfold save_db_actions. simpl.
  rewrite length_map. by rewrite firstn_all.
Qed.


End Facts.

(** *** The properties on the small world *)

Lemma ledger_only_grows_and_skips_witness :
  let s := set_processed_ids (fun _ => {[ "abc123" ]}) new_scraper in
  scrape_single_paste default_config still_clock low_uniform fixed_stamp
    two_paste_site disk_works one_address_matcher no_metadata no_metadata
    "abc123" s = (Ok None, s).
Proof.
  intros s.
  refine (proj1 (proj2 (proj1 (proj2
    (ledger_only_grows_and_skips default_config still_clock low_uniform
       fixed_stamp two_paste_site disk_works one_address_matcher
       no_metadata no_metadata id_chunks)) "abc123" [] s _))).
  simpl. by apply elem_of_singleton.
Defined.


(** The scenario of the specification: the identifiers [abc123], [abc123],
    [xyz789] are processed on the two-paste site. The store then holds one
    record, for [abc123], with one link; the ledger holds both
    identifiers; three fetches were made (content and metadata of
    [abc123], content of [xyz789]); and processing the three identifiers
    again makes no further fetch. *)
Example end_to_end_scenario :
  let pass :=
    process_ids default_config still_clock low_uniform fixed_stamp
      two_paste_site disk_works one_address_matcher no_metadata no_metadata
      id_chunks ["abc123"; "abc123"; "xyz789"] in
  let s := exec pass new_scraper in
  eval pass new_scraper = Ok tt /\
  onion_links (db s) = [record "abc123" ["http://abcdefghijklmnop.onion"]] /\
  processed_ids s = {[ "abc123"; "xyz789" ]} /\
  fetched s = [raw_url_template "abc123"; paste_url_template "abc123";
               raw_url_template "xyz789"] /\
  fetched (exec pass s) = fetched s /\
  db (exec pass s) = db s.
Proof. vm_compute. repeat split; reflexivity. Qed.

(** C1 fails at a periodic save. With a save after every new record, the
    merge of a first entry for [abc123] appends it and then never returns:
    [_save_db] waits for the lock that [add_entry] still holds. The entry
    with the same identifier and another link is therefore never merged,
    and the store is left with the first entry alone. *)
Theorem merge_blocks_at_save_point :
  let r1 := record "abc123" ["http://a.onion"] in
  let r2 := record "abc123" ["http://b.onion"] in
  let merge := add_entry config_save_each disk_works id_chunks in
  merge (Some r1) new_scraper =
    (Blocked,
     set_lock_held true (set_db (fun d => mkDB [r1] (scan_sessions d)) new_scraper)) /\
  eval (merge (Some r1) ;; merge (Some r2)) new_scraper = Blocked /\
  onion_links (db (exec (merge (Some r1) ;; merge (Some r2)) new_scraper)) = [r1].
Proof. vm_compute. repeat split; reflexivity. Qed.

(** The same with the default configuration (a save every 100 records),
    when the entry becomes the 100th record. *)
Example merge_blocks_at_hundredth_record :
  let r1 := record "abc123" ["http://a.onion"] in
  eval (add_entry default_config disk_works id_chunks (Some r1))
    (scraper_with 99) = Blocked.
Proof.
  intros r1. unfold eval.
  rewrite add_entry_blocks; [done|done| |done|by vm_compute].
  intros r Hr.
  change (onion_links (db (scraper_with 99)))
    with (replicate 99 (record "old" ["http://old.onion"])) in Hr.
  apply elem_of_replicate in Hr as [-> _]. done.
Qed.

(** Away from a periodic save the two merges give the union. *)
Example merge_union_of_disjoint_links :
  let r1 := record "abc123" ["http://a.onion"] in
  let r2 := record "abc123" ["http://b.onion"] in
  let merge := add_entry default_config disk_works id_chunks in
  let s := exec (merge (Some r1) ;; merge (Some r2)) (scraper_with 3) in
  eval (merge (Some r1) ;; merge (Some r2)) (scraper_with 3) = Ok tt /\
  drop 3 (onion_links (db s)) =
    [record "abc123" ["http://a.onion"; "http://b.onion"]] /\
  exec (merge (Some r2)) s = s.
Proof. vm_compute. repeat split; reflexivity. Qed.



End ScraperFacts.

(** ** The rest of the proxy pool *)

Module ProxyRestFacts.
Import Proxy FloatFacts ProxyFacts ProxyRest.

(** *** The pool invariant *)

Lemma get_random_proxy_run draw w :
  exists res,
    get_random_proxy draw w =
      (Ok res,
       match available (manager w) with
       | [] => set_manager (set_failed (fun _ => ∅)) w
       | _ :: _ => w
       end) /\
    match available (manager w) with
    | [] => match proxies (manager w) with
            | [] => res = None
            | _ :: _ => exists p, res = Some p /\ p ∈ proxies (manager w)
            end
    | _ :: _ => exists p, res = Some p /\ p ∈ available (manager w)
    end.
Proof.
  unfold get_random_proxy, available, bind, get_state.
  assert (forall l : list string, l <> [] ->
            exists p, random_choice draw l = Some p /\ p ∈ l) as Hchoice.
  { intros l Hl. unfold random_choice.
    destruct (l !! (draw mod length l)%nat) as [p|] eqn:E.
    - exists p. split; [done|]. by eapply list_elem_of_lookup_2.
    - apply lookup_ge_None in E.
      assert (draw mod length l < length l)%nat; [|lia].
      apply Nat.mod_upper_bound. by destruct l. }
  destruct (filter _ (proxies (manager w))) as [|a av] eqn:Hav; simpl.
  - destruct (proxies (manager w)) as [|p0 l0] eqn:Hps; simpl.
    + by exists None.
    + destruct (Hchoice (p0 :: l0)) as (p & -> & Hp); [done|].
      exists (Some p). split; [done|]. eauto.
  - destruct (Hchoice (a :: av)) as (p & -> & Hp); [done|].
    exists (Some p). split; [done|]. eauto.
Qed.

Lemma wf_get_random_proxy draw w :
  wf (manager w) -> wf (manager (exec (get_random_proxy draw) w)).
Proof.
  intros Hwf. destruct (get_random_proxy_run draw w) as (res & Hrun & _).
  unfold exec. rewrite Hrun. simpl. by destruct (available (manager w)).
Qed.

Lemma load_from_file_run read_lines filename w :
  load_from_file read_lines filename w =
    match read_lines filename with
    | None => (Ok tt, w)
    | Some lines => add_proxies (proxy_lines lines) w
    end.
Proof.
  unfold load_from_file, try_except. by destruct (read_lines filename).
Qed.

Lemma wf_load_from_file read_lines filename w :
  wf (manager w) ->
  wf (manager (exec (load_from_file read_lines filename) w)).
Proof.
  intros Hwf. unfold exec. rewrite load_from_file_run.
  destruct (read_lines filename); [|done]. by apply wf_add_proxies.
Qed.

(** X1. Every address of the pool has statistics and every address with
    statistics is in the pool: the constructor establishes this and every
    method of the manager keeps it, so looking up the statistics of a pool
    address never fails. *)
Theorem pool_invariant :
  (forall proxy_list, wf (init proxy_list)) /\
  (forall w, wf (manager w) ->
     (forall l, wf (manager (exec (add_proxies l) w))) /\
     (forall clock, wf (manager (exec (get_best_proxy clock) w))) /\
     (forall draw, wf (manager (exec (get_random_proxy draw) w))) /\
     (forall clock p, wf (manager (exec (mark_success clock p) w))) /\
     (forall p, wf (manager (exec (mark_failure p) w))) /\
     (forall read_lines filename,
        wf (manager (exec (load_from_file read_lines filename) w)))).
Proof.
  split; [apply wf_init|]. intros w Hwf.
  refine (conj _ (conj _ (conj _ (conj _ (conj _ _))))).
  - intros l. by apply wf_add_proxies.
  - intros clock. by apply wf_get_best_proxy.
  - intros draw. by apply wf_get_random_proxy.
  - intros clock p. by apply wf_mark_success.
  - intros p. by apply wf_mark_failure.
  - intros read_lines filename. by apply wf_load_from_file.
Qed.

Lemma pool_invariant_witness :
  wf (manager (exec (mark_failure "p") w_7_of_9)).
Proof.
  refine (proj1 (proj2 (proj2 (proj2 (proj2
    (proj2 pool_invariant w_7_of_9 _))))) "p").
  apply wf_w_7_of_9.
Defined.

(** *** Registration *)

Lemma add_proxy_known pm q : q ∈ proxies pm -> add_proxy pm q = pm.
Proof. intros Hq. unfold add_proxy. by destruct (decide (q ∈ proxies pm)). Qed.

Lemma foldl_add_proxy_known pm l :
  (forall q, q ∈ l -> q ∈ proxies pm) -> foldl add_proxy pm l = pm.
Proof.
  induction l as [|q l IH]; intros Hall; simpl; [done|].
  rewrite add_proxy_known by (apply Hall; left).
  apply IH. intros q' Hq'. apply Hall. by right.
Qed.

Lemma add_proxy_facts pm q :
  wf pm ->
  let pm' := add_proxy pm q in
  wf pm' /\
  (forall p, p ∈ proxies pm' <-> p ∈ proxies pm \/ p = q) /\
  proxies pm `prefix_of` proxies pm' /\
  (NoDup (proxies pm) -> NoDup (proxies pm')) /\
  (forall p, p ∈ proxies pm -> proxy_stats pm' !! p = proxy_stats pm !! p) /\
  (q ∉ proxies pm -> proxy_stats pm' !! q = Some fresh_stat) /\
  failed_proxies pm' = failed_proxies pm.
Proof.
  intros Hwf pm'. split; [by apply wf_add_proxy|]. subst pm'.
  unfold add_proxy. destruct (decide (q ∈ proxies pm)) as [Hin|Hnot]; simpl.
  - split; [intros p; split; [tauto | by intros [?| ->]]|].
    split; [done|]. split; [done|]. split; [done|]. split; [done|]. done.
  - split.
    { intros p. rewrite elem_of_app, list_elem_of_singleton. tauto. }
    split; [by apply prefix_app_r|].
    split.
    { intros Hnd. apply NoDup_app. split; [done|]. split.
      - intros x Hx ->%list_elem_of_singleton. done.
      - apply NoDup_singleton. }
    split.
    { intros p Hp. apply lookup_insert_ne. by intros ->. }
    split; [intros _; apply lookup_insert_eq | done].
Qed.

Lemma foldl_add_proxy_facts l pm :
  wf pm ->
  let pm' := foldl add_proxy pm l in
  wf pm' /\
  (forall p, p ∈ proxies pm' <-> p ∈ proxies pm \/ p ∈ l) /\
  proxies pm `prefix_of` proxies pm' /\
  (NoDup (proxies pm) -> NoDup (proxies pm')) /\
  (forall p, p ∈ proxies pm -> proxy_stats pm' !! p = proxy_stats pm !! p) /\
  (forall p, p ∈ l -> p ∉ proxies pm -> proxy_stats pm' !! p = Some fresh_stat) /\
  failed_proxies pm' = failed_proxies pm.
Proof.
  revert pm. induction l as [|q l IH]; intros pm Hwf; simpl.
  - split; [done|]. split; [intros p; rewrite elem_of_nil; tauto|].
    split; [done|]. split; [done|]. split; [done|].
    split; [by intros p Hp%elem_of_nil | done].
  - destruct (add_proxy_facts pm q Hwf) as (Hwf1 & Hin1 & Hpre1 & Hnd1 & Hst1 & Hfr1 & Hf1).
    destruct (IH (add_proxy pm q) Hwf1) as (Hwf2 & Hin2 & Hpre2 & Hnd2 & Hst2 & Hfr2 & Hf2).
    split; [done|].
    split.
    { intros p. rewrite Hin2, Hin1, elem_of_cons. tauto. }
    split; [by etrans|]. split; [by intros ?; apply Hnd2, Hnd1|].
    split.
    { intros p Hp. rewrite Hst2 by (apply Hin1; by left). by apply Hst1. }
    split; [|congruence].
    intros p Hp Hnew. apply elem_of_cons in Hp.
    destruct (decide (p = q)) as [->|Hne].
    + rewrite Hst2 by (apply Hin1; by right). by apply Hfr1.
    + destruct Hp as [?|Hp]; [done|]. apply Hfr2; [done|].
      rewrite Hin1. tauto.
Qed.

(** What the other methods need to know about [add_proxies]. *)
Lemma add_proxies_spec (l : list string) (w : World) :
  wf (manager w) ->
  let w' := exec (add_proxies l) w in
  eval (add_proxies l) w = Ok tt /\
  (forall p, p ∈ proxies (manager w') <-> p ∈ proxies (manager w) \/ p ∈ l) /\
  (forall p, p ∈ proxies (manager w) ->
     proxy_stats (manager w') !! p = proxy_stats (manager w) !! p) /\
  failed_proxies (manager w') = failed_proxies (manager w).
Proof.
  intros Hwf w'. subst w'. unfold exec, eval, add_proxies, modify. simpl.
  destruct (foldl_add_proxy_facts l (manager w) Hwf)
    as (_ & Hin & _ & _ & Hst & _ & Hf).
  split; [done|]. split; [done|]. split; done.
Qed.

(** X2. Registration is an idempotent addition. After [add_proxies] the
    pool holds the old addresses, in their old order, followed by the new
    ones, each once; an address that was in the pool keeps its statistics,
    a new one starts with zero statistics; the quarantine set is as
    before; and registering the same list again changes nothing. *)
Theorem add_proxies_registers (l : list string) (w : World) :
  wf (manager w) ->
  let w' := exec (add_proxies l) w in
  eval (add_proxies l) w = Ok tt /\
  (forall p, p ∈ proxies (manager w') <-> p ∈ proxies (manager w) \/ p ∈ l) /\
  proxies (manager w) `prefix_of` proxies (manager w') /\
  (NoDup (proxies (manager w)) -> NoDup (proxies (manager w'))) /\
  (forall p, p ∈ proxies (manager w) ->
     proxy_stats (manager w') !! p = proxy_stats (manager w) !! p) /\
  (forall p, p ∈ l -> p ∉ proxies (manager w) ->
     proxy_stats (manager w') !! p = Some fresh_stat) /\
  failed_proxies (manager w') = failed_proxies (manager w) /\
  exec (add_proxies l) w' = w'.
Proof.
  intros Hwf w'. subst w'. unfold exec, eval, add_proxies, modify. simpl.
  destruct (foldl_add_proxy_facts l (manager w) Hwf)
    as (_ & Hin & Hpre & Hnd & Hst & Hfr & Hf).
  split; [done|]. split; [done|]. split; [done|]. split; [done|].
  split; [done|]. split; [done|]. split; [done|].
  unfold set_manager. simpl. f_equal.
  apply foldl_add_proxy_known. intros q Hq. apply Hin. by right.
Qed.

Lemma add_proxies_registers_witness :
  let w' := exec (add_proxies ["p"; "q"]) w_7_of_9 in
  proxy_stats (manager w') !! "p" = Some (mkStat 2 7 0) /\
  proxy_stats (manager w') !! "q" = Some fresh_stat /\
  exec (add_proxies ["p"; "q"]) w' = w'.
Proof.
  intros w'. subst w'.
  destruct (add_proxies_registers ["p"; "q"] w_7_of_9 wf_w_7_of_9)
    as (_ & _ & _ & _ & Hold & Hnew & _ & Hidem).
  split; [|split].
  - rewrite (Hold "p"); [reflexivity|]. simpl. left.
  - apply (Hnew "q").
    + right. left.
    + simpl. rewrite list_elem_of_singleton. discriminate.
  - exact Hidem.
Defined.

(** *** Quarantine *)

Lemma ratio_gt_0_7_next f t :
  0 < t -> ratio_gt_0_7 f t = true -> ratio_gt_0_7 (f + 1) (t + 1) = true.
Proof.
  unfold ratio_gt_0_7. rewrite !Z.ltb_lt.
  change (2 ^ 54) with 18014398509481984. lia.
Qed.

Lemma quarantine_sound_init proxy_list : quarantine_sound (init proxy_list).
Proof. intros p Hp. simpl in Hp. by apply not_elem_of_empty in Hp. Qed.

Lemma quarantine_sound_mark_failure p w :
  quarantine_sound (manager w) ->
  quarantine_sound (manager (exec (mark_failure p) w)).
Proof.
  intros Hq. unfold exec.
  destruct (proxy_stats (manager w) !! p) as [st|] eqn:Hst.
  - rewrite (mark_failure_registered _ _ _ Hst). simpl.
    set (st' := mkStat (success st) (failures st + 1) (last_used st)).
    set (total := success st + (failures st + 1)).
    assert (forall q, q ∈ failed_proxies (manager w) ->
              exists stq,
                <[p := st']> (proxy_stats (manager w)) !! q = Some stq /\
                10 < success stq + failures stq /\
                ratio_gt_0_7 (failures stq) (success stq + failures stq) = true)
      as Hold.
    { intros q Hin. destruct (Hq q Hin) as (stq & Hsq & Hten & Hr).
      destruct (decide (p = q)) as [->|Hne].
      - rewrite lookup_insert_eq. exists st'. split; [done|].
        assert (stq = st) as -> by congruence. simpl.
        split; [lia|].
        replace (success st + (failures st + 1))
          with (success st + failures st + 1) by lia.
        apply ratio_gt_0_7_next; [lia|done].
      - rewrite lookup_insert_ne by done. eauto. }
    destruct (10 <? total) eqn:Hten; simpl; [|exact Hold].
    destruct (ratio_gt_0_7 (failures st + 1) total) eqn:Hr; simpl; [|exact Hold].
    intros q [Hin| ->%elem_of_singleton]%elem_of_union; [by apply Hold|].
    exists st'. unfold set_failed, set_stats. simpl.
    rewrite lookup_insert_eq. split; [done|].
    apply Z.ltb_lt in Hten. done.
  - by rewrite (mark_failure_unregistered _ _ Hst).
Qed.

Lemma quarantine_sound_mark_success clock p w :
  quarantine_sound (manager w) ->
  quarantine_sound (manager (exec (mark_success clock p) w)).
Proof.
  intros Hq. unfold exec.
  destruct (proxy_stats (manager w) !! p) as [st|] eqn:Hst.
  - rewrite (mark_success_registered _ _ _ _ Hst). simpl.
    intros q [Hin Hne%not_elem_of_singleton]%elem_of_difference.
    destruct (Hq q Hin) as (stq & Hsq & Hrest).
    exists stq. split; [|done]. unfold set_failed, set_stats. simpl.
    by rewrite lookup_insert_ne.
  - by rewrite (mark_success_unregistered _ _ _ Hst).
Qed.

Lemma quarantine_sound_add_proxies l w :
  wf (manager w) ->
  quarantine_sound (manager w) ->
  quarantine_sound (manager (exec (add_proxies l) w)).
Proof.
  intros Hwf Hq.
  destruct (add_proxies_spec l w Hwf) as (_ & _ & Hst & Hf).
  intros q Hin. rewrite Hf in Hin. destruct (Hq q Hin) as (stq & Hsq & Hrest).
  exists stq. split; [|done]. rewrite Hst; [done|]. apply Hwf. eauto.
Qed.

Lemma quarantine_sound_get_best_proxy clock w :
  wf (manager w) ->
  quarantine_sound (manager w) ->
  quarantine_sound (manager (exec (get_best_proxy clock) w)).
Proof.
  intros Hwf Hq. destruct (decide (proxies (manager w) = [])) as [Hnil|Hne].
  - unfold exec, get_best_proxy, bind, get_state. by rewrite Hnil.
  - destruct (get_best_proxy_spec clock w Hwf Hne)
      as (p & w' & Hget & _ & _ & _ & Hstats & _ & _ & Hreset & Hsame).
    unfold exec. rewrite Hget. simpl.
    destruct (available (manager w)) as [|a av] eqn:Hav.
    + assert (failed_proxies (manager w') = ∅) as He.
      { apply Hreset. intros q Hin.
        destruct (decide (q ∈ failed_proxies (manager w))); [done|].
        assert (q ∈ available (manager w)) as Ha
          by (unfold available; by apply list_elem_of_filter).
        rewrite Hav in Ha. by apply not_elem_of_nil in Ha. }
      intros q Hin. rewrite He in Hin. by apply not_elem_of_empty in Hin.
    + rewrite Hsame; [done|]. exists a.
      assert (a ∈ available (manager w)) as Ha by (rewrite Hav; left).
      unfold available in Ha. apply list_elem_of_filter in Ha. tauto.
Qed.

Lemma quarantine_sound_get_random_proxy draw w :
  quarantine_sound (manager w) ->
  quarantine_sound (manager (exec (get_random_proxy draw) w)).
Proof.
  intros Hq. destruct (get_random_proxy_run draw w) as (res & Hrun & _).
  unfold exec. rewrite Hrun. simpl.
  destruct (available (manager w)); [|done].
  by intros q Hin%not_elem_of_empty.
Qed.

(** X3. Every quarantined address is registered, has more than 10
    recorded attempts and a failure rate above 0.7: this holds for a new
    manager and is kept by every method. In particular a success for an
    address takes it out of quarantine, and further failures of a
    quarantined address keep it there. *)
Theorem quarantine_invariant :
  (forall proxy_list, quarantine_sound (init proxy_list)) /\
  (forall w, wf (manager w) -> quarantine_sound (manager w) ->
     (forall l, quarantine_sound (manager (exec (add_proxies l) w))) /\
     (forall clock, quarantine_sound (manager (exec (get_best_proxy clock) w))) /\
     (forall draw, quarantine_sound (manager (exec (get_random_proxy draw) w))) /\
     (forall clock p,
        quarantine_sound (manager (exec (mark_success clock p) w)) /\
        p ∉ failed_proxies (manager (exec (mark_success clock p) w))) /\
     (forall p,
        quarantine_sound (manager (exec (mark_failure p) w)) /\
        failed_proxies (manager w) ⊆
          failed_proxies (manager (exec (mark_failure p) w)))).
Proof.
  split; [apply quarantine_sound_init|]. intros w Hwf Hq.
  refine (conj _ (conj _ (conj _ (conj _ _)))).
  - intros l. by apply quarantine_sound_add_proxies.
  - intros clock. by apply quarantine_sound_get_best_proxy.
  - intros draw. by apply quarantine_sound_get_random_proxy.
  - intros clock p. split; [by apply quarantine_sound_mark_success|].
    unfold exec. destruct (proxy_stats (manager w) !! p) as [st|] eqn:Hst.
    + rewrite (mark_success_registered _ _ _ _ Hst). simpl.
      rewrite elem_of_difference, elem_of_singleton. tauto.
    + rewrite (mark_success_unregistered _ _ _ Hst).
      intros Hin. destruct (Hq p Hin) as (st & Hsome & _). congruence.
  - intros p. split; [by apply quarantine_sound_mark_failure|].
    unfold exec. destruct (proxy_stats (manager w) !! p) as [st|] eqn:Hst.
    + rewrite (mark_failure_registered _ _ _ Hst). simpl.
      destruct (_ && _); simpl; [|done]. intros q Hin.
      apply elem_of_union. by left.
    + by rewrite (mark_failure_unregistered _ _ Hst).
Qed.

Lemma quarantine_sound_w_quarantined : quarantine_sound (manager w_quarantined).
Proof.
  intros p Hp. simpl in Hp. apply elem_of_singleton in Hp as ->.
  exists (mkStat 0 11 0). split; [reflexivity|]. split; reflexivity.
Qed.

Lemma quarantine_invariant_witness :
  quarantine_sound
    (manager (exec (mark_success (fun _ => 0%Q) "p") w_quarantined)) /\
  "p" ∉ failed_proxies
    (manager (exec (mark_success (fun _ => 0%Q) "p") w_quarantined)).
Proof.
  refine (proj1 (proj2 (proj2 (proj2
    (proj2 quarantine_invariant w_quarantined _ _)))) (fun _ => 0%Q) "p").
  - apply wf_w_quarantined.
  - apply quarantine_sound_w_quarantined.
Defined.

(** *** Selection *)







(** With the clock at the time of its last use, the address with 8
    successes out of 10 scores 0.8 and the unused one is selected. *)
Example get_best_proxy_prefers_unused :
  eval (get_best_proxy (fun _ => 0%Q)) w_8_of_10 = Ok (Some "new").
Proof. vm_compute. reflexivity. Qed.

(** Two hours and [2^-40] seconds after its last use the same address
    scores exactly 1.0 in float arithmetic, as the unused one, and the
    tie goes to the address that comes first in the pool. *)
Example get_best_proxy_tie_in_pool_order :
  let clock := fun _ : nat => (7200 + (1 # 1099511627776))%Q in
  (exists score, eval (proxy_score clock "old") w_8_of_10 = Ok score /\
                 (score == 1)%Q) /\
  eval (get_best_proxy clock) w_8_of_10 = Ok (Some "old").
Proof.
  split; [eexists; split; vm_compute; reflexivity|].
  vm_compute. reflexivity.
Qed.

(** X5. [get_random_proxy] never raises. On an empty pool it returns
    [None]; otherwise it returns an address of the pool, one out of
    quarantine whenever there is one, in which case the manager is left as
    it was; when every address is quarantined the quarantine set is
    emptied first. *)
Theorem get_random_proxy_available (draw : nat) (w : World) :
  exists res w',
    get_random_proxy draw w = (Ok res, w') /\
    (proxies (manager w) = [] -> res = None) /\
    (proxies (manager w) <> [] ->
       exists p, res = Some p /\ p ∈ proxies (manager w) /\
                 p ∉ failed_proxies (manager w')) /\
    (available (manager w) <> [] -> w' = w) /\
    (available (manager w) = [] ->
       w' = set_manager (set_failed (fun _ => ∅)) w).
Proof.
  destruct (get_random_proxy_run draw w) as (res & Hrun & Hres).
  eexists res, _. split; [exact Hrun|].
  unfold available in *.
  destruct (filter _ (proxies (manager w))) as [|a av] eqn:Hav.
  - split.
    { intros Hnil. by rewrite Hnil in Hres. }
    split.
    { intros Hne. destruct (proxies (manager w)) as [|p0 l0]; [done|].
      destruct Hres as (p & -> & Hp). exists p. split; [done|].
      split; [done|]. simpl. apply not_elem_of_empty. }
    split; [done|]. done.
  - destruct Hres as (p & -> & Hp). rewrite <- Hav in Hp.
    apply list_elem_of_filter in Hp as [Hp1 Hp2].
    split.
    { intros Hnil. rewrite Hnil in Hp2. by apply elem_of_nil in Hp2. }
    split; [intros _; by exists p|]. split; [done|]. done.
Qed.

Lemma get_random_proxy_available_witness :
  exists res w',
    get_random_proxy 7 w_quarantined = (Ok res, w') /\
    (proxies (manager w_quarantined) = [] -> res = None) /\
    (proxies (manager w_quarantined) <> [] ->
       exists p, res = Some p /\ p ∈ proxies (manager w_quarantined) /\
                 p ∉ failed_proxies (manager w')) /\
    (available (manager w_quarantined) <> [] -> w' = w_quarantined) /\
    (available (manager w_quarantined) = [] ->
       w' = set_manager (set_failed (fun _ => ∅)) w_quarantined).
Proof. exact (get_random_proxy_available 7 w_quarantined). Defined.

(** *** The snapshot *)

Lemma length_filter_split {A} (P : A -> Prop) `{forall x, Decision (P x)}
    (l : list A) :
  (length (filter P l) + length (filter (fun x => ~ P x) l) = length l)%nat.
Proof.
  induction l as [|x l IH]; [done|].
  rewrite !filter_cons. destruct (decide (P x)); destruct (decide (~ P x));
    simpl; try tauto; lia.
Qed.

(** X6. On a pool without repeated addresses (well formed, quarantine
    sound) the snapshot counts what it says: the total is the number of
    addresses, the failed count is the number of quarantined addresses of
    the pool, and the working count is the number of addresses that a
    selection may return; the three counts are non-negative and the total
    is their sum. The manager is not changed. *)
Theorem get_proxy_stats_counts (w : World) :
  wf (manager w) ->
  quarantine_sound (manager w) ->
  NoDup (proxies (manager w)) ->
  exists stats,
    get_proxy_stats w = (Ok stats, w) /\
    total_proxies stats = Z.of_nat (length (proxies (manager w))) /\
    working_proxies stats = Z.of_nat (length (available (manager w))) /\
    failed_proxies_count stats =
      Z.of_nat (length (filter (fun p => p ∈ failed_proxies (manager w))
                          (proxies (manager w)))) /\
    total_proxies stats = failed_proxies_count stats + working_proxies stats /\
    proxy_details stats = proxy_stats (manager w).
Proof.
  intros Hwf Hq Hnd. eexists. split; [reflexivity|]. simpl.
  set (pm := manager w) in *.
  assert (size (failed_proxies pm) =
          length (filter (fun p => p ∈ failed_proxies pm) (proxies pm))) as Hsize.
  { unfold size, set_size. simpl. apply Permutation_length.
    apply NoDup_Permutation.
    - apply NoDup_elements.
    - by apply NoDup_filter.
    - intros q. rewrite elem_of_elements, list_elem_of_filter. split; [|tauto].
      intros Hin. split; [done|]. apply Hwf.
      destruct (Hq q Hin) as (st & Hst & _). eauto. }
  pose proof (length_filter_split (fun p => p ∈ failed_proxies pm) (proxies pm))
    as Hsplit.
  unfold available. fold pm.
  split; [done|]. rewrite Hsize. split; [lia|]. split; [done|]. split; [lia|done].
Qed.

Lemma get_proxy_stats_counts_witness :
  exists stats,
    get_proxy_stats w_quarantined = (Ok stats, w_quarantined) /\
    total_proxies stats = Z.of_nat (length (proxies (manager w_quarantined))) /\
    working_proxies stats = Z.of_nat (length (available (manager w_quarantined))) /\
    failed_proxies_count stats =
      Z.of_nat (length (filter (fun p => p ∈ failed_proxies (manager w_quarantined))
                          (proxies (manager w_quarantined)))) /\
    total_proxies stats = failed_proxies_count stats + working_proxies stats /\
    proxy_details stats = proxy_stats (manager w_quarantined).
Proof.
  apply (get_proxy_stats_counts w_quarantined).
  - apply wf_w_quarantined.
  - apply quarantine_sound_w_quarantined.
  - simpl. apply NoDup_singleton.
Defined.

(** The hypothesis on repetitions is needed: the constructor keeps the
    list it is given, and with an address given twice the working count
    is 3 for a pool that can return 2 different addresses. *)
Example get_proxy_stats_counts_repetitions :
  (exists stats, eval get_proxy_stats w_duplicate = Ok stats /\
                 working_proxies stats = 3) /\
  size (list_to_set (C := gset string) (available (manager w_duplicate))) = 2%nat.
Proof.
  split; [|vm_compute; reflexivity].
  eexists. split; [reflexivity|]. vm_compute. reflexivity.
Qed.

(** *** Loading the pool from a file *)

Lemma elem_of_proxy_lines lines p :
  p ∈ proxy_lines lines <->
  exists line, line ∈ lines /\ String.prefix "#" line = false /\
               PyStr.strip line = p /\ p <> "".
Proof.
  unfold proxy_lines. rewrite list_elem_of_fmap. split.
  - intros (line & -> & Hline). apply list_elem_of_filter in Hline.
    exists line. tauto.
  - intros (line & Hin & Hpre & <- & Hne). exists line. split; [done|].
    by apply list_elem_of_filter.
Qed.

(** X7. [load_from_file] never raises. When the file cannot be read the
    manager is left as it was. Otherwise the pool gains exactly the
    stripped lines that are not empty once stripped and whose raw text
    does not begin with [#] (so an indented comment is registered as an
    address); the addresses already in the pool keep their statistics; and
    the empty string is never registered. *)
Theorem load_from_file_registers
    (read_lines : string -> option (list string)) (filename : string) (w : World) :
  wf (manager w) ->
  let w' := exec (load_from_file read_lines filename) w in
  eval (load_from_file read_lines filename) w = Ok tt /\
  (read_lines filename = None -> w' = w) /\
  (forall lines, read_lines filename = Some lines ->
     forall p, p ∈ proxies (manager w') <->
               p ∈ proxies (manager w) \/
               exists line, line ∈ lines /\ String.prefix "#" line = false /\
                            PyStr.strip line = p /\ p <> "") /\
  (forall p, p ∈ proxies (manager w) ->
     proxy_stats (manager w') !! p = proxy_stats (manager w) !! p) /\
  ("" ∈ proxies (manager w') -> "" ∈ proxies (manager w)).
Proof.
  intros Hwf w'. subst w'. unfold eval, exec. rewrite load_from_file_run.
  destruct (read_lines filename) as [lines|] eqn:Hread.
  - destruct (add_proxies_spec (proxy_lines lines) w Hwf)
      as (Hok & Hin & Hst & _).
    unfold eval, exec in Hok, Hin, Hst.
    split; [done|]. split; [done|]. split.
    { intros lines' [= <-] p. rewrite Hin, elem_of_proxy_lines. done. }
    split; [done|].
    intros Hempty. apply Hin in Hempty as [?|Hl]; [done|].
    apply elem_of_proxy_lines in Hl as (line & _ & _ & _ & Hne). done.
  - simpl. split; [done|]. split; [done|]. split; [done|]. split; [done|]. done.
Qed.

Lemma load_from_file_registers_witness :
  let read_lines := fun _ : string =>
    Some [String.append "http://1.2.3.4:80" newline;
          String.append "# a comment" newline;
          newline;
          String.append "  #indented" newline] in
  let p := "#indented" in
  p ∈ proxies (manager (exec (load_from_file read_lines "proxies.txt") w_7_of_9))
  <-> p ∈ proxies (manager w_7_of_9) \/
      exists line,
        line ∈ [String.append "http://1.2.3.4:80" newline;
                String.append "# a comment" newline;
                newline;
                String.append "  #indented" newline] /\
        String.prefix "#" line = false /\ PyStr.strip line = p /\ p <> "".
Proof.
  intros read_lines p.
  refine (proj1 (proj2 (proj2
    (load_from_file_registers read_lines "proxies.txt" w_7_of_9 wf_w_7_of_9)))
    _ eq_refl p).
Defined.

(** What the file of the witness registers. *)
Example load_from_file_lines :
  proxy_lines [String.append "http://1.2.3.4:80" newline;
               String.append "# a comment" newline;
               newline;
               String.append "  #indented" newline]
  = ["http://1.2.3.4:80"; "#indented"].
Proof. vm_compute. reflexivity. Qed.

(** *** What a fetch can do *)

Lemma mark_failure_frame p w :
  let w' := exec (mark_failure p) w in
  proxies (manager w') = proxies (manager w) /\
  sent w' = sent w /\ slept w' = slept w.
Proof.
  intros w'. subst w'. unfold exec.
  destruct (proxy_stats (manager w) !! p) as [st|] eqn:Hst.
  - rewrite (mark_failure_registered _ _ _ Hst). simpl.
    by destruct (_ && _).
  - by rewrite (mark_failure_unregistered _ _ Hst).
Qed.

Lemma mark_success_frame clock p w :
  let w' := exec (mark_success clock p) w in
  proxies (manager w') = proxies (manager w) /\
  sent w' = sent w /\ slept w' = slept w.
Proof.
  intros w'. subst w'. unfold exec.
  destruct (proxy_stats (manager w) !! p) as [st|] eqn:Hst.
  - by rewrite (mark_success_registered _ _ _ _ Hst).
  - by rewrite (mark_success_unregistered _ _ _ Hst).
Qed.

Lemma returns_response_Some out r :
  returns_response out = Some r ->
  out = Responded r /\ (status_code r = 200 \/ status_code r = 404).
Proof.
  destruct out as [r'|e]; simpl; [|done].
  destruct (status_code r' =? 200) eqn:E200; simpl.
  - intros [= <-]. apply Z.eqb_eq in E200. tauto.
  - destruct (status_code r' =? 404) eqn:E404; [|done].
    intros [= <-]. apply Z.eqb_eq in E404. tauto.
Qed.

Lemma request_loop_outcome clock server self method url :
  forall (n : nat) (retries : Z) (w : World),
    wf (manager w) ->
    exists res w' ps ds,
      request_loop clock server self method url n retries w = (Ok res, w') /\
      wf (manager w') /\
      proxies (manager w') ≡ₚ proxies (manager w) /\
      sent w' = sent w ++ (mkRequest method url <$> ps) /\
      (length ps <= n)%nat /\
      (forall p, p ∈ ps -> p ∈ proxies (manager w) /\ p <> "") /\
      slept w' = slept w ++ ds /\
      (length ds <= length ps)%nat /\
      (forall d, d ∈ ds -> d <= 30) /\
      (res = (None, None) \/
       exists r p,
         res = (Some r, Some p) /\
         (status_code r = 200 \/ status_code r = 404) /\
         last ps = Some p /\
         server (length (sent w') - 1)%nat (mkRequest method url p) = Responded r).
Proof.
  induction n as [|n IH]; intros retries w Hwf.
  - exists (None, None), w, [], []. simpl. rewrite !app_nil_r.
    split; [done|]. split; [done|]. split; [done|]. split; [done|].
    split; [done|]. split; [by intros p Hp%elem_of_nil|]. split; [done|].
    split; [done|]. split; [by intros d Hd%elem_of_nil|]. by left.
  - destruct (decide (proxies (manager w) = [])) as [Hnil|Hne].
    { exists (None, None), w, [], []. simpl. rewrite !app_nil_r.
      split.
      { unfold bind at 1. unfold get_best_proxy, bind, get_state. by rewrite Hnil. }
      split; [done|]. split; [done|]. split; [done|].
      split; [lia|]. split; [by intros p Hp%elem_of_nil|]. split; [done|].
      split; [done|]. split; [by intros d Hd%elem_of_nil|]. by left. }
    destruct (get_best_proxy_spec clock w Hwf Hne)
      as (p & w1 & Hget & Hp & _ & Hperm & Hstats & Hsent & Hslept & _).
    assert (wf (manager w1)) as Hwf1.
    { intros q. rewrite Hperm, Hstats. apply Hwf. }
    destruct (decide (p = "")) as [->|Hpne].
    { exists (None, None), w1, [], []. rewrite !app_nil_r.
      split.
      { simpl. unfold bind at 1. rewrite Hget.
        by destruct (decide ("" = "")). }
      split; [done|]. split; [done|]. split; [done|].
      split; [simpl; lia|]. split; [by intros q Hq%elem_of_nil|]. split; [done|].
      split; [done|]. split; [by intros d Hd%elem_of_nil|]. by left. }
    rewrite (request_loop_step _ _ _ _ _ _ _ _ _ _ Hget Hpne).
    set (rq := mkRequest method url p).
    destruct (returns_response (server (length (sent w1)) rq)) as [r|] eqn:Hout.
    + apply returns_response_Some in Hout as [Hout Hstatus].
      destruct (mark_success_frame clock p (send rq w1)) as (Hps & Hs & Hsl).
      exists (Some r, Some p), (exec (mark_success clock p) (send rq w1)), [p], [].
      split; [done|].
      split; [by apply wf_mark_success|].
      split; [by rewrite Hps|].
      split; [rewrite Hs; simpl; by rewrite Hsent|].
      split; [simpl; lia|].
      split; [by intros q ->%list_elem_of_singleton|].
      split; [rewrite Hsl, app_nil_r; simpl; done|].
      split; [simpl; lia|]. split; [by intros d Hd%elem_of_nil|].
      right. exists r, p. split; [done|]. split; [done|]. split; [done|].
      rewrite Hs. simpl. rewrite length_app. simpl.
      replace (length (sent w1) + 1 - 1)%nat with (length (sent w1)) by lia.
      done.
    + destruct (mark_failure_frame p (send rq w1)) as (Hps & Hs & Hsl).
      assert (wf (manager (exec (mark_failure p) (send rq w1)))) as Hwf2
        by by apply wf_mark_failure.
      set (w2 := exec (mark_failure p) (send rq w1)) in *.
      unfold bind at 1. rewrite backoff_run.
      set (w3 := if retries + 1 <? max_retries self then _ else w2).
      assert (manager w3 = manager w2 /\ sent w3 = sent w2 /\
              exists d0, slept w3 = slept w2 ++ d0 /\ (length d0 <= 1)%nat /\
                         forall d, d ∈ d0 -> d <= 30) as (Hm3 & Hs3 & d0 & Hsl3 & Hd0 & Hcap).
      { subst w3. destruct (retries + 1 <? max_retries self).
        - split; [done|]. split; [done|]. eexists [_]. split; [done|].
          split; [simpl; lia|]. intros d ->%list_elem_of_singleton. lia.
        - split; [done|]. split; [done|]. exists []. rewrite app_nil_r.
          split; [done|]. split; [simpl; lia|]. by intros d Hd%elem_of_nil. }
      destruct (IH (retries + 1) w3) as
        (res & w' & ps & ds & Hrun & Hwf' & Hperm' & Hsent' & Hlen & Hin & Hslept' & Hlends & Hcap' & Hres).
      { by rewrite Hm3. }
      exists res, w', (p :: ps), (d0 ++ ds).
      split; [done|]. split; [done|].
      split; [by rewrite Hperm', Hm3, Hps|].
      split.
      { rewrite Hsent', Hs3, Hs. simpl. rewrite Hsent. by rewrite <- app_assoc. }
      split; [simpl; lia|].
      split.
      { intros q [->|Hq]%elem_of_cons; [done|].
        destruct (Hin q Hq) as [Hq1 Hq2]. split; [|done].
        rewrite Hm3, Hps in Hq1. simpl in Hq1. by rewrite <- Hperm. }
      split.
      { rewrite Hslept', Hsl3, Hsl. simpl. rewrite Hslept. by rewrite <- app_assoc. }
      split; [rewrite length_app; simpl; lia|].
      split.
      { intros d [?|?]%elem_of_app; [by apply Hcap | by apply Hcap']. }
      destruct Hres as [->|(r & p' & -> & Hst & Hlast & Hsrv)]; [by left|].
      right. exists r, p'. split; [done|]. split; [done|]. split; [|done].
      destruct ps as [|q ps']; [done|]. done.
Qed.

(** X8. Whatever the peers answer, on a well-formed pool a fetch returns
    normally. It sends at most [max_retries] requests, all for the given
    method and url and each through a non-empty address of the pool; it
    sleeps at most once per request sent and never more than 30 seconds
    at a time. It returns either [(None, None)] or a response together
    with the proxy of the last request sent, and that response is the
    answer to that last request and has status 200 or 404. On an empty
    pool nothing is sent and the world is left as it was. *)
Theorem request_outcome
    (clock : nat -> Q) (server : nat -> Request -> Outcome) (self : Client)
    (method url : string) (w : World) :
  wf (manager w) ->
  exists res w' ps ds,
    request clock server self method url w = (Ok res, w') /\
    wf (manager w') /\
    sent w' = sent w ++ (mkRequest method url <$> ps) /\
    (length ps <= Z.to_nat (max_retries self))%nat /\
    (forall p, p ∈ ps -> p ∈ proxies (manager w) /\ p <> "") /\
    slept w' = slept w ++ ds /\
    (length ds <= length ps)%nat /\
    (forall d, d ∈ ds -> d <= 30) /\
    (res = (None, None) \/
     exists r p,
       res = (Some r, Some p) /\
       (status_code r = 200 \/ status_code r = 404) /\
       last ps = Some p /\
       server (length (sent w') - 1)%nat (mkRequest method url p) = Responded r) /\
    (proxies (manager w) = [] -> ps = [] /\ res = (None, None)).
Proof.
  intros Hwf. unfold request.
  destruct (request_loop_outcome clock server self method url
              (Z.to_nat (max_retries self)) 0 w Hwf)
    as (res & w' & ps & ds & Hrun & Hwf' & _ & Hsent & Hlen & Hin & Hslept & Hlends & Hcap & Hres).
  exists res, w', ps, ds.
  split; [done|]. split; [done|]. split; [done|]. split; [done|].
  split; [done|]. split; [done|]. split; [done|]. split; [done|].
  split; [done|].
  intros Hnil. assert (ps = []) as ->.
  { destruct ps as [|q ps']; [done|]. destruct (Hin q) as [Hq _]; [left|].
    rewrite Hnil in Hq. by apply elem_of_nil in Hq. }
  split; [done|]. destruct Hres as [->|(r & p & _ & _ & Hlast & _)]; done.
Qed.

Lemma request_outcome_witness :
  let clock := fun _ : nat => 0%Q in
  let server := fun (k : nat) (_ : Request) =>
    Responded (mkResponse (if (k <? 2)%nat then 503 else 200) "") in
  exists res w' ps ds,
    request clock server default_client "GET" "u" w_7_of_9 = (Ok res, w') /\
    wf (manager w') /\
    sent w' = sent w_7_of_9 ++ (mkRequest "GET" "u" <$> ps) /\
    (length ps <= Z.to_nat (max_retries default_client))%nat /\
    (forall p, p ∈ ps -> p ∈ proxies (manager w_7_of_9) /\ p <> "") /\
    slept w' = slept w_7_of_9 ++ ds /\
    (length ds <= length ps)%nat /\
    (forall d, d ∈ ds -> d <= 30) /\
    (res = (None, None) \/
     exists r p,
       res = (Some r, Some p) /\
       (status_code r = 200 \/ status_code r = 404) /\
       last ps = Some p /\
       server (length (sent w') - 1)%nat (mkRequest "GET" "u" p) = Responded r) /\
    (proxies (manager w_7_of_9) = [] -> ps = [] /\ res = (None, None)).
Proof.
  intros clock server.
  apply (request_outcome clock server default_client "GET" "u" w_7_of_9).
  apply wf_w_7_of_9.
Defined.

(** Two answers 503 and then an answer 200: three requests, two sleeps of
    2 and 4 seconds, and the third answer is returned. *)
Example request_third_time_lucky :
  let clock := fun _ : nat => 0%Q in
  let server := fun (k : nat) (_ : Request) =>
    Responded (mkResponse (if (k <? 2)%nat then 503 else 200) "") in
  let run := request clock server default_client "GET" "u" w_7_of_9 in
  fst run = Ok (Some (mkResponse 200 ""), Some "p") /\
  length (sent (snd run)) = 3%nat /\
  slept (snd run) = [2; 4].
Proof. vm_compute. repeat split; reflexivity. Qed.

End ProxyRestFacts.

(** ** The rest of the scraper *)

Module ScraperRestFacts.
Import Scraper ScraperFacts ScraperRest.

(** *** Python strings *)

Lemma is_space_newline : PyStr.is_space (Ascii.ascii_of_nat 10) = true.
Proof. reflexivity. Qed.

Lemma is_lf_space c : PyStr.is_lf c = true -> PyStr.is_space c = true.
Proof.
  unfold PyStr.is_lf, PyStr.is_space. intros H%bool_decide_eq_true.
  apply bool_decide_eq_true. rewrite H. set_solver.
Qed.

Lemma is_cr_space c : PyStr.is_cr c = true -> PyStr.is_space c = true.
Proof.
  unfold PyStr.is_cr, PyStr.is_space. intros H%bool_decide_eq_true.
  apply bool_decide_eq_true. rewrite H. set_solver.
Qed.

Lemma no_space_cons c s :
  PyStr.no_space (String c s) = true ->
  PyStr.is_space c = false /\ PyStr.no_space s = true.
Proof.
  simpl. intros [H1 H2]%andb_true_iff. split; [|done].
  by destruct (PyStr.is_space c).
Qed.

Lemma append_cons c a b : String.append (String c a) b = String c (String.append a b).
Proof. reflexivity. Qed.

Lemma rstrip_line id :
  PyStr.no_space id = true -> PyStr.rstrip (String.append id newline) = id.
Proof.
  induction id as [|c id IH]; intros Hns; [reflexivity|].
  apply no_space_cons in Hns as [Hc Hns]. rewrite append_cons.
  change (PyStr.rstrip (String c (String.append id newline)))
    with (match PyStr.rstrip (String.append id newline) with
          | EmptyString => if PyStr.is_space c then EmptyString else String c EmptyString
          | String c' rest' => String c (String c' rest')
          end).
  rewrite IH by done. rewrite Hc. by destruct id.
Qed.

Lemma strip_line id :
  PyStr.no_space id = true -> PyStr.strip (String.append id newline) = id.
Proof.
  intros Hns. unfold PyStr.strip. destruct id as [|c id]; [reflexivity|].
  pose proof (no_space_cons _ _ Hns) as [Hc _].
  rewrite append_cons.
  change (PyStr.lstrip (String c (String.append id newline)))
    with (if PyStr.is_space c then PyStr.lstrip (String.append id newline)
          else String c (String.append id newline)).
  rewrite Hc. rewrite <- append_cons. by apply rstrip_line.
Qed.

Lemma universal_newlines_line id rest :
  PyStr.no_space id = true ->
  PyStr.universal_newlines (String.append id (String.append newline rest)) =
    String.append id (String.append newline (PyStr.universal_newlines rest)).
Proof.
  induction id as [|c id IH]; intros Hns; [reflexivity|].
  apply no_space_cons in Hns as [Hc Hns]. rewrite !append_cons.
  change (PyStr.universal_newlines
            (String c (String.append id (String.append newline rest))))
    with (if PyStr.is_cr c then
            match String.append id (String.append newline rest) with
            | String c' rest' =>
                if PyStr.is_lf c' then String c' (PyStr.universal_newlines rest')
                else String (Ascii.ascii_of_nat 10)
                       (PyStr.universal_newlines
                          (String.append id (String.append newline rest)))
            | EmptyString => String (Ascii.ascii_of_nat 10) EmptyString
            end
          else String c (PyStr.universal_newlines
                           (String.append id (String.append newline rest)))).
  destruct (PyStr.is_cr c) eqn:Hcr.
  { apply is_cr_space in Hcr. congruence. }
  by rewrite IH.
Qed.

Lemma split_lines_line id rest :
  PyStr.no_space id = true ->
  PyStr.split_lines (String.append id (String.append newline rest)) =
    String.append id newline :: PyStr.split_lines rest.
Proof.
  induction id as [|c id IH]; intros Hns; [reflexivity|].
  apply no_space_cons in Hns as [Hc Hns]. rewrite !append_cons.
  change (PyStr.split_lines
            (String c (String.append id (String.append newline rest))))
    with (if PyStr.is_lf c
          then String c EmptyString ::
               PyStr.split_lines (String.append id (String.append newline rest))
          else match PyStr.split_lines
                       (String.append id (String.append newline rest)) with
               | [] => [String c EmptyString]
               | line :: lines => String c line :: lines
               end).
  destruct (PyStr.is_lf c) eqn:Hlf.
  { apply is_lf_space in Hlf. congruence. }
  by rewrite IH.
Qed.

Lemma read_ledger_text ids :
  Forall (fun id => PyStr.no_space id = true) ids ->
  map PyStr.strip (PyStr.read_text_lines (ledger_text ids)) = ids.
Proof.
  unfold PyStr.read_text_lines.
  induction 1 as [|id ids Hid Hids IH]; [reflexivity|].
  simpl. rewrite universal_newlines_line by done.
  rewrite split_lines_line by done. simpl.
  rewrite strip_line by done. by rewrite IH.
Qed.


Section Facts.

Variable config : Config.
Variable clock : nat -> Q.
Variable uniform : nat -> Q -> Q -> Q.
Variable isoformat_now : nat -> string.
Variable http_get : nat -> string -> Outcome.
Variable open_fails : nat -> string -> bool.
Variable findall : string -> list string.
Variable soup_title : string -> option (option string).
Variable soup_date : string -> option (option string).
Variable json_chunks : DB -> list string.
Variable json_load : string -> option DB.
Variable search_url_for : string -> nat -> string.
Variable soup_hrefs : string -> option (list string).

Local Abbreviation scrape :=
  (scrape_single_paste config clock uniform isoformat_now http_get
     open_fails findall soup_title soup_date).
Local Abbreviation merge := (add_entry config open_fails json_chunks).
Local Abbreviation process :=
  (process_paste config clock uniform isoformat_now http_get
     open_fails findall soup_title soup_date json_chunks).
Local Abbreviation process_all :=
  (process_ids config clock uniform isoformat_now http_get
     open_fails findall soup_title soup_date json_chunks).
Local Abbreviation run :=
  (run_op config clock uniform isoformat_now http_get
     open_fails findall soup_title soup_date json_chunks).
Local Abbreviation save_id := (_save_processed_id config open_fails).
Local Abbreviation load_ids := (_load_processed_ids config open_fails).
Local Abbreviation load_db := (_load_db config open_fails json_load).
Local Abbreviation save_db := (_save_db config open_fails json_chunks).
Local Abbreviation restart := (__init__ config open_fails json_load).
Local Abbreviation ledger_path := (String.append (db_path config) ".processed").

(** *** The ledger file *)

Lemma save_processed_id_run paste_id s :
  save_id paste_id s =
    (Ok tt,
     if open_fails (env_calls s) ledger_path then set_env_calls S s
     else set_processed_ids (fun ids => ids ∪ {[paste_id]})
            (set_disk (fun d =>
               <[ledger_path :=
                   String.append (default "" (d !! ledger_path))
                     (String.append paste_id newline)]> d)
               (set_env_calls S s))).
Proof.
  unfold _save_processed_id, open_file, ask, run_actions.
  unfold try_except, bind, modify. simpl.
  by destruct (open_fails (env_calls s) ledger_path).
Qed.

Lemma load_processed_ids_run s :
  load_ids s =
    match disk s !! ledger_path with
    | Some contents =>
        (Ok (if open_fails (env_calls s) ledger_path then ∅
             else list_to_set (map PyStr.strip (PyStr.read_text_lines contents))),
         set_env_calls S s)
    | None => (Ok ∅, s)
    end.
Proof.
  unfold _load_processed_ids, open_file, ask.
  unfold bind at 1. unfold get_state.
  destruct (disk s !! ledger_path) as [contents|]; [|done].
  unfold try_except, bind. simpl.
  by destruct (open_fails (env_calls s) ledger_path).
Qed.


Lemma load_db_run s :
  load_db s =
    match disk s !! db_path config with
    | Some contents =>
        if open_fails (env_calls s) (db_path config)
        then (Raise OSError, set_env_calls S s)
        else (Ok (default empty_db (json_load (PyStr.universal_newlines contents))),
              set_env_calls S s)
    | None => (Ok empty_db, s)
    end.
Proof.
  unfold _load_db, open_file, ask. unfold bind, get_state.
  destruct (disk s !! db_path config) as [contents|]; [|done]. simpl.
  destruct (open_fails (env_calls s) (db_path config)); [done|].
  by destruct (json_load _).
Qed.

Lemma restart_ledger s ids :
  eval restart s = Ok tt ->
  (forall k, open_fails k ledger_path = false) ->
  disk s !! ledger_path = ids ->
  processed_ids (exec restart s) =
    match ids with
    | Some contents => list_to_set (map PyStr.strip (PyStr.read_text_lines contents))
    | None => ∅
    end.
Proof.
  intros Hok Hopen Hdisk. unfold eval, exec, __init__ in *.
  unfold bind at 1 in Hok. unfold bind at 1.
  destruct (load_db s) as [[d| |] s1] eqn:Hload; simpl in Hok; try discriminate.
  assert (disk s1 = disk s) as Hd1.
  { rewrite load_db_run in Hload.
    destruct (disk s !! db_path config).
    - destruct (open_fails (env_calls s) (db_path config)); [discriminate|].
      by injection Hload as _ <-.
    - by injection Hload as _ <-. }
  unfold bind at 1. rewrite load_processed_ids_run. rewrite Hd1, Hdisk.
  destruct ids as [contents|]; simpl; [by rewrite Hopen|done].
Qed.

(** X10. A restart reads the ledger back. When the constructor returns
    and the ledger file can be opened, the ledger of the new object is what
    the file holds, stripped line by line, and the empty set when there is
    no file; with a file written by earlier runs for identifiers without
    white space it is those identifiers, and scraping any of them fetches
    nothing and returns no record. *)
Theorem restart_skips_recorded (s : Scraper) (ids : list string) :
  eval restart s = Ok tt ->
  (forall k, open_fails k ledger_path = false) ->
  (disk s !! ledger_path = None -> processed_ids (exec restart s) = ∅) /\
  (disk s !! ledger_path = Some (ledger_text ids) ->
   Forall (fun id => PyStr.no_space id = true) ids ->
   processed_ids (exec restart s) = list_to_set ids /\
   forall paste_id, paste_id ∈ ids ->
     scrape paste_id (exec restart s) = (Ok None, exec restart s)).
Proof.
  intros Hok Hopen. split.
  - intros Hnone. by rewrite (restart_ledger s None).
  - intros Hsome Hns.
    assert (processed_ids (exec restart s) = list_to_set ids) as Hids.
    { rewrite (restart_ledger s (Some (ledger_text ids))) by done.
      by rewrite read_ledger_text. }
    split; [done|]. intros paste_id Hin.
    apply scrape_processed. rewrite Hids. by apply elem_of_list_to_set.
Qed.

(** *** The backing file *)

Lemma save_db_run s :
  lock_held s = false ->
  save_db s =
    (Ok tt,
     if open_fails (env_calls s) (db_path config) then set_env_calls S s
     else set_disk (fun d =>
            <[db_path config := serialised (json_chunks (db s))]> d)
            (set_env_calls S s)).
Proof.
  intros Hfree. unfold _save_db, with_lock, open_file, ask, run_actions.
  rewrite Hfree. unfold try_except, bind, get_state, modify. simpl.
  destruct (open_fails (env_calls s) (db_path config)); simpl.
  - destruct s; simpl in *; by subst.
  - destruct s; simpl in *; subst. unfold set_disk. simpl. do 2 f_equal.
    match goal with
    | |- context [map (Write ?p) ?l] =>
        change (map (Write p) l) with (Write p <$> l)
    end.
    by rewrite run_writes.
Qed.


(** *** Statistics *)

Lemma links_total_app l1 l2 :
  links_total (l1 ++ l2) = (links_total l1 + links_total l2)%nat.
Proof. unfold links_total. induction l1 as [|x l1 IH]; simpl; lia. Qed.

Lemma link_set_app l1 l2 : link_set (l1 ++ l2) = link_set l1 ∪ link_set l2.
Proof.
  unfold link_set. rewrite map_app, concat_app. apply list_to_set_app_L.
Qed.

Lemma link_set_cons x l :
  link_set (x :: l) = list_to_set (map onionLink (onionLinks x)) ∪ link_set l.
Proof. unfold link_set. simpl. apply list_to_set_app_L. Qed.

Lemma links_total_concat l :
  links_total l =
    length (concat (map (fun entry => map onionLink (onionLinks entry)) l)).
Proof.
  unfold links_total. induction l as [|x l IH]; simpl; [done|].
  rewrite length_app, length_map. lia.
Qed.

Lemma size_list_to_set_le (l : list string) :
  (size (list_to_set (C := gset string) l) <= length l)%nat.
Proof.
  induction l as [|x l IH].
  - change (size (∅ : gset string) <= 0)%nat. by rewrite size_empty.
  - change (size ({[x]} ∪ list_to_set l : gset string) <= S (length l))%nat.
    rewrite size_union_alt, size_singleton.
    assert (size (list_to_set l ∖ {[x]} : gset string)
            <= size (list_to_set l : gset string))%nat
      by (apply subseteq_size, subseteq_difference_l; reflexivity).
    lia.
Qed.

Lemma get_statistics_run s :
  get_statistics s =
    (Ok {| total_pastes_with_onions := Z.of_nat (length (onion_links (db s)));
           total_onion_links := Z.of_nat (links_total (onion_links (db s)));
           unique_onion_links := Z.of_nat (size (link_set (onion_links (db s))));
           statistics_scan_progress := scan_progress s;
           processed_ids_count := Z.of_nat (size (processed_ids s)) |},
     s).
Proof. reflexivity. Qed.

(** X12. The statistics are consistent. [get_statistics] changes nothing;
    the number of unique links is at most the number of links; and when
    every stored record has a link, as a scan keeps it, the number of
    pastes is at most the number of links. *)
Theorem statistics_consistent (s : Scraper) :
  exists st,
    get_statistics s = (Ok st, s) /\
    0 <= unique_onion_links st <= total_onion_links st /\
    0 <= total_pastes_with_onions st /\
    (store_inv s -> total_pastes_with_onions st <= total_onion_links st).
Proof.
  eexists. split; [apply get_statistics_run|]. simpl.
  split.
  { split; [lia|]. apply inj_le. unfold link_set. rewrite links_total_concat.
    apply size_list_to_set_le. }
  split; [lia|].
  intros Hinv. apply inj_le. unfold store_inv in Hinv.
  induction (onion_links (db s)) as [|x l IH]; simpl; [done|].
  assert (onionLinks x <> []) as Hx by (apply Hinv; left).
  assert (length l <= links_total l)%nat
    by (apply IH; intros r Hr; apply Hinv; by right).
  destruct (onionLinks x); [done|]. simpl. lia.
Qed.

Lemma grows_refl s : grows s s.
Proof. unfold grows. done. Qed.

Lemma grows_trans s1 s2 s3 : grows s1 s2 -> grows s2 s3 -> grows s1 s3.
Proof.
  unfold grows. intros (A1 & B1 & C1 & D1) (A2 & B2 & C2 & D2).
  split; [lia|]. split; [lia|]. split; by etrans.
Qed.

Lemma grows_same s s' :
  db s' = db s -> processed_ids s ⊆ processed_ids s' -> grows s s'.
Proof. unfold grows. intros -> Hsub. done. Qed.

Lemma grows_add_entry entry s : grows s (exec (merge entry) s).
Proof.
  assert (processed_ids s ⊆ processed_ids (exec (merge entry) s)) as Hids.
  { apply (stable_add_entry ledger_grows); frame. }
  destruct entry as [entry|]; [|by apply grows_same].
  unfold grows. rewrite add_entry_db.
  destruct (lock_held s); [done|].
  destruct (merge_existing entry (onion_links (db s))) as [records|] eqn:E.
  - destruct (merge_existing_Some _ _ _ E)
      as (before & existing & after & -> & _ & _ & ->).
    rewrite !length_app. simpl.
    rewrite !links_total_app, !link_set_app.
    change (existing :: after) with ([existing] ++ after).
    change (extend existing (unseen existing entry) :: after)
      with ([extend existing (unseen existing entry)] ++ after).
    rewrite !links_total_app, !link_set_app.
    assert (links_total [existing]
            <= links_total [extend existing (unseen existing entry)])%nat.
    { unfold links_total. simpl. rewrite length_app. lia. }
    assert (link_set [existing]
            ⊆ link_set [extend existing (unseen existing entry)]).
    { rewrite !link_set_cons. simpl. rewrite map_app, list_to_set_app_L.
      apply union_mono_r, union_subseteq_l. }
    split; [lia|]. split; [lia|].
    split; [by apply union_mono_l, union_mono_r|done].
  - rewrite length_app, links_total_app, link_set_app. simpl.
    split; [lia|]. split; [lia|]. split; [apply union_subseteq_l|done].
Qed.

Ltac grows_frame :=
  first [ apply grows_refl | apply grows_trans
        | intros; apply grows_same; simpl; [done | first [done | apply union_subseteq_l]] ].

Lemma grows_scrape paste_id : stable grows (scrape paste_id).
Proof. apply stable_scrape_single_paste; grows_frame. Qed.

Lemma grows_process paste_id : stable grows (process paste_id).
Proof.
  unfold process_paste.
  apply stable_bind; [apply grows_trans | apply grows_scrape |]. intros result.
  apply stable_bind; [apply grows_trans | |].
  { destruct result; [intros s; apply grows_add_entry | intros s; apply grows_refl]. }
  intros _. apply stable_modify. grows_frame.
Qed.

Lemma grows_process_all ids : stable grows (process_all ids).
Proof.
  induction ids as [|paste_id rest IH]; simpl; [intros s; apply grows_refl|].
  apply stable_bind; [apply grows_trans | intros s; apply grows_refl |]. intros s.
  destruct (is_running s); [|intros s'; apply grows_refl].
  apply stable_bind; [apply grows_trans | apply grows_process |]. intros _. exact IH.
Qed.

Lemma grows_run_op o : stable grows (run o).
Proof.
  destruct o; simpl.
  - apply stable_bind; [apply grows_trans | apply grows_scrape |].
    intros _ s. apply grows_refl.
  - intros s. apply grows_add_entry.
  - apply stable_save_processed_id; grows_frame.
  - apply stable_save_db; grows_frame.
  - apply stable_rate_limit; grows_frame.
  - apply grows_process.
  - apply grows_process_all.
  - apply stable_stop_scan; grows_frame.
Qed.

Lemma grows_run_ops ops s :
  grows s (run_ops config clock uniform isoformat_now http_get open_fails
             findall soup_title soup_date json_chunks ops s).
Proof.
  revert s. induction ops as [|o ops IH]; intros s; simpl; [apply grows_refl|].
  eapply grows_trans; [apply (grows_run_op o s) | apply IH].
Qed.

(** X13. The counts that [get_statistics] reports never go down: after any
    sequence of scan operations, however each of them ended, the number of
    stored pastes, of links, of unique links and of processed identifiers
    are each at least what they were before. *)
Theorem statistics_never_decrease (ops : list op) (s : Scraper) :
  exists st st',
    eval get_statistics s = Ok st /\
    eval get_statistics
      (run_ops config clock uniform isoformat_now http_get open_fails
         findall soup_title soup_date json_chunks ops s) = Ok st' /\
    total_pastes_with_onions st <= total_pastes_with_onions st' /\
    total_onion_links st <= total_onion_links st' /\
    unique_onion_links st <= unique_onion_links st' /\
    processed_ids_count st <= processed_ids_count st'.
Proof.
  destruct (grows_run_ops ops s) as (Hlen & Htotal & Hset & Hids).
  do 2 eexists. unfold eval. rewrite !get_statistics_run.
  split; [reflexivity|]. split; [reflexivity|]. simpl.
  split; [lia|]. split; [lia|].
  split; apply inj_le; by apply subseteq_size.
Qed.

(** *** The rate limiter *)

Lemma rate_limit_run s :
  let k := env_calls s in
  let elapsed := (clock k - last_request_time s)%Q in
  let delay := uniform (S k) (fst (delay_range config)) (snd (delay_range config)) in
  _rate_limit config clock uniform s =
    (Ok tt,
     set_last_request_time (clock (S (S k)))
       (set_env_calls (fun n => S (S (S n)))
          (if Qltb elapsed delay
           then set_slept (fun l => l ++ [(delay - elapsed)%Q]) s
           else s))).
Proof.
  intros k elapsed delay. subst k elapsed delay.
  unfold _rate_limit, time_time, random_uniform, time_sleep, ask, bind,
    get_state, modify. simpl.
  destruct (Qltb _ _); destruct s; reflexivity.
Qed.

(** X14. The rate limiter. [_rate_limit] always returns, fetches nothing
    and touches neither the store, the ledger nor the files; it sleeps at
    most once, and then for the positive time that was missing between
    the time since the last request and the delay it drew; it sets the
    time of the last request to the time it reads last. When the time
    since the last request is at least the upper end of the delay range
    and the draw lies in the range, it does not sleep. *)
Theorem rate_limit_sleeps_the_difference (s : Scraper) :
  let k := env_calls s in
  let elapsed := (clock k - last_request_time s)%Q in
  let delay := uniform (S k) (fst (delay_range config)) (snd (delay_range config)) in
  let s' := exec (_rate_limit config clock uniform) s in
  eval (_rate_limit config clock uniform) s = Ok tt /\
  fetched s' = fetched s /\ search_frame s s' /\
  last_request_time s' = clock (S (S k)) /\
  (slept s' = slept s \/
   slept s' = slept s ++ [(delay - elapsed)%Q] /\ (0 < delay - elapsed)%Q) /\
  ((delay <= snd (delay_range config))%Q ->
   (snd (delay_range config) <= elapsed)%Q ->
   slept s' = slept s).
Proof.
  intros k elapsed delay s'. subst s'. unfold eval, exec.
  rewrite rate_limit_run. fold k elapsed delay. simpl.
  split; [done|].
  destruct (Qltb elapsed delay) eqn:Hlt; simpl.
  - apply FloatFacts.Qltb_lt in Hlt. repeat split; try done.
    + right. split; [done|]. by apply Qlt_minus_iff in Hlt.
    + intros H1 H2. exfalso.
      apply (Qlt_irrefl elapsed). eapply Qlt_le_trans; [exact Hlt|].
      by eapply Qle_trans.
  - repeat split; try done. by left.
Qed.

(** *** Search *)

Lemma substring_all (t : string) : String.substring 0 (String.length t) t = t.
Proof. induction t as [|c t IH]; simpl; [done|]. by rewrite IH. Qed.

Lemma prefix_slash href :
  String.prefix "/" href = true -> exists rest, href = String.append "/" rest.
Proof.
  intros H%String.prefix_correct.
  destruct href as [|c rest]; simpl in H; [done|].
  exists rest. destruct rest; simpl in H; by injection H as ->.
Qed.

Lemma page_ids_of_spec processed hrefs paste_id :
  paste_id ∈ page_ids_of processed hrefs ->
  (paste_id ∉ processed) /\
  (1 <= String.length paste_id <= 9)%nat /\
  (String.append "/" paste_id ∈ hrefs).
Proof.
  unfold page_ids_of. rewrite list_elem_of_omap.
  intros (href & Hin & Hsome).
  destruct (1 <? Z.of_nat (String.length href)) eqn:H1; simpl in Hsome; [|done].
  destruct (String.prefix "/" href) eqn:H2; simpl in Hsome; [|done].
  destruct (Z.of_nat (String.length href) <=? 10) eqn:H3; simpl in Hsome; [|done].
  destruct (prefix_slash _ H2) as [rest ->].
  change (String.append "/" rest) with (String (Ascii.ascii_of_nat 47) rest) in *.
  simpl in Hsome, H1, H3. rewrite Nat.sub_0_r, substring_all in Hsome.
  destruct (decide (rest ∈ processed)); [done|].
  injection Hsome as <-.
  apply Z.ltb_lt in H1. apply Z.leb_le in H3.
  split; [done|]. split; [lia|done].
Qed.

Lemma search_frame_refl s : search_frame s s.
Proof. unfold search_frame. done. Qed.

Lemma search_frame_trans s1 s2 s3 :
  search_frame s1 s2 -> search_frame s2 s3 -> search_frame s1 s3.
Proof.
  unfold search_frame.
  intros (A1 & B1 & C1 & D1 & E1 & F1) (A2 & B2 & C2 & D2 & E2 & F2).
  repeat split; congruence.
Qed.

(** One page: always an answer, one fetch, and the identifiers of the
    page when it goes on. *)
Lemma search_page_run term page s :
  exists found s',
    try_except (search_page config clock uniform http_get search_url_for
                  soup_hrefs term page)
               (fun _ => ret None) s = (Ok found, s') /\
    search_frame s s' /\
    fetched s' = fetched s ++ [search_url_for term page] /\
    forall page_ids, found = Some page_ids ->
      page_ids <> [] /\
      exists hrefs, page_ids = page_ids_of (processed_ids s) hrefs.
Proof.
  unfold search_page, try_except. unfold bind at 1.
  rewrite rate_limit_run. cbv zeta.
  set (s1 := set_last_request_time _ _).
  assert (search_frame s s1 /\ fetched s1 = fetched s) as [Hframe Hfetched].
  { subst s1. destruct (Qltb _ _); simpl; split; done. }
  clearbody s1.
  unfold requests_get, ask, bind, modify, get_state.
  destruct (http_get (env_calls s1) (search_url_for term page)) as [response|e];
    simpl.
  - destruct (negb (status_code response =? 200)); simpl.
    { eexists _, _. split; [done|]. simpl. rewrite Hfetched.
      split; [|done]. destruct Hframe as (?&?&?&?&?&?). repeat split; done. }
    destruct (soup_hrefs (text response)) as [hrefs|]; simpl.
    + destruct (page_ids_of (processed_ids s1) hrefs) as [|paste_id ids] eqn:E;
        simpl.
      * eexists _, _. split; [done|]. simpl. rewrite Hfetched.
        split; [|done]. destruct Hframe as (?&?&?&?&?&?). repeat split; done.
      * eexists _, _. split; [done|]. simpl. rewrite Hfetched.
        split; [destruct Hframe as (?&?&?&?&?&?); repeat split; done|].
        split; [done|]. intros page_ids [= <-]. split; [done|].
        exists hrefs. destruct Hframe as (_ & <- & _). by rewrite E.
    + eexists _, _. split; [done|]. simpl. rewrite Hfetched.
      split; [|done]. destruct Hframe as (?&?&?&?&?&?). repeat split; done.
  - eexists _, _. split; [done|]. simpl. rewrite Hfetched.
    split; [|done]. destruct Hframe as (?&?&?&?&?&?). repeat split; done.
Qed.

Lemma search_pages_run term pages acc s :
  exists ids s',
    search_pages config clock uniform http_get search_url_for soup_hrefs
      term pages acc s = (Ok (acc ++ ids), s') /\
    search_frame s s' /\
    (exists urls, fetched s' = fetched s ++ urls /\
                  (length urls <= length pages)%nat /\
                  (ids <> [] -> urls <> [])) /\
    (is_running s = false -> ids = [] /\ s' = s) /\
    forall paste_id, paste_id ∈ ids ->
      (paste_id ∉ processed_ids s) /\ (1 <= String.length paste_id <= 9)%nat.
Proof.
  revert acc s. induction pages as [|page rest IH]; intros acc s; simpl.
  { exists [], s. rewrite app_nil_r. split; [done|].
    split; [apply search_frame_refl|].
    split; [exists []; by rewrite app_nil_r|].
    split; [done|]. intros paste_id Hin. by apply elem_of_nil in Hin. }
  unfold bind at 1. unfold get_state.
  destruct (is_running s) eqn:Hrun.
  2:{ exists [], s. rewrite app_nil_r. split; [done|].
      split; [apply search_frame_refl|].
      split; [exists []; rewrite app_nil_r; split; [done|split; [simpl; lia|done]]|].
      split; [done|]. intros paste_id Hin. by apply elem_of_nil in Hin. }
  destruct (search_page_run term page s) as (found & s1 & Hpage & Hframe & Hfetched & Hfound).
  unfold bind. rewrite Hpage.
  destruct found as [page_ids|].
  - destruct (Hfound _ eq_refl) as (Hne & hrefs & ->).
    destruct (IH (acc ++ page_ids_of (processed_ids s) hrefs) s1)
      as (ids & s' & Hrest & Hframe' & (urls & Hurls & Hlen & _) & _ & Hids).
    exists (page_ids_of (processed_ids s) hrefs ++ ids), s'.
    rewrite app_assoc. split; [exact Hrest|].
    split; [by eapply search_frame_trans|].
    split.
    { exists (search_url_for term page :: urls).
      rewrite Hurls, Hfetched, <- app_assoc. simpl.
      split; [done|]. split; [lia|done]. }
    split; [done|].
    intros paste_id [Hin|Hin]%elem_of_app.
    + apply page_ids_of_spec in Hin as (? & ? & _). done.
    + destruct (Hids _ Hin) as [Hnot Hlen']. split; [|done].
      destruct Hframe as (_ & <- & _). done.
  - exists [], s1. rewrite app_nil_r. split; [done|].
    split; [done|].
    split; [exists [search_url_for term page]; simpl; split; [done|split; [lia|done]]|].
    split; [done|]. intros paste_id Hin. by apply elem_of_nil in Hin.
Qed.

(** X15. Searching. [search_pastebin] always returns a list, whatever
    the site answers and even with the lock taken; it touches neither the
    store, the ledger, the files nor the progress counters; it fetches at
    most [max_pages] pages; and every identifier it returns has between
    one and nine characters and is not in the ledger. When no scan is
    running it returns the empty list without any fetch. *)
Theorem search_pastebin_returns_fresh_ids (term : string) (max_pages : nat)
    (s : Scraper) :
  exists ids s',
    search_pastebin config clock uniform http_get search_url_for soup_hrefs
      term max_pages s = (Ok ids, s') /\
    search_frame s s' /\
    (exists urls, fetched s' = fetched s ++ urls /\
                  (length urls <= max_pages)%nat /\
                  (ids <> [] -> urls <> [])) /\
    (is_running s = false -> ids = [] /\ s' = s) /\
    forall paste_id, paste_id ∈ ids ->
      (paste_id ∉ processed_ids s) /\ (1 <= String.length paste_id <= 9)%nat.
Proof.
  unfold search_pastebin.
  destruct (search_pages_run term (seq 1 max_pages) [] s)
    as (ids & s' & Hrun & Hframe & (urls & Hurls & Hlen & Hne) & Hstop & Hids).
  exists ids, s'. rewrite length_seq in Hlen.
  split; [exact Hrun|]. split; [done|].
  split; [by exists urls|]. done.
Qed.

(** *** Calls that always return *)

Lemma ends_ok_weaken {A} (c : M Scraper A) :
  ends_unlocked is_ok c -> ends_unlocked not_blocked c.
Proof.
  intros Hc s Hfree. destruct (Hc s Hfree) as [Hlock [a Ha]].
  split; [done|]. unfold not_blocked. by rewrite Ha.
Qed.

Lemma ends_ret {A} (a : A) : ends_unlocked is_ok (ret a).
Proof. intros s Hfree. split; [done|]. by exists a. Qed.

Lemma ends_raise {A} (e : exn) : ends_unlocked not_blocked (raise (A := A) e).
Proof. intros s Hfree. split; done. Qed.

Lemma ends_bind {A B} (c : M Scraper A) (k : A -> M Scraper B) :
  ends_unlocked not_blocked c -> (forall a, ends_unlocked not_blocked (k a)) ->
  ends_unlocked not_blocked (bind c k).
Proof.
  intros Hc Hk s Hfree. destruct (Hc s Hfree) as [Hlock Hnb].
  unfold exec, eval, bind in *.
  destruct (c s) as [[a|e|] s1]; simpl in *.
  - by apply Hk.
  - split; done.
  - by destruct Hnb.
Qed.

Lemma ends_ok_bind {A B} (c : M Scraper A) (k : A -> M Scraper B) :
  ends_unlocked is_ok c -> (forall a, ends_unlocked is_ok (k a)) ->
  ends_unlocked is_ok (bind c k).
Proof.
  intros Hc Hk s Hfree. destruct (Hc s Hfree) as [Hlock [a Ha]].
  unfold exec, eval, bind in *.
  destruct (c s) as [[a'|e|] s1]; simpl in *; try discriminate.
  by apply Hk.
Qed.

Lemma ends_try_except {A} (c : M Scraper A) (h : exn -> M Scraper A) :
  ends_unlocked not_blocked c -> (forall e, ends_unlocked is_ok (h e)) ->
  ends_unlocked is_ok (try_except c h).
Proof.
  intros Hc Hh s Hfree. destruct (Hc s Hfree) as [Hlock Hnb].
  unfold exec, eval, try_except in *.
  destruct (c s) as [[a|e|] s1]; simpl in *.
  - split; [done|]. by exists a.
  - by apply Hh.
  - by destruct Hnb.
Qed.

Lemma ends_progress (f : Progress -> Progress) :
  ends_unlocked is_ok (with_lock (modify (set_scan_progress f))).
Proof.
  intros s Hfree. unfold exec, eval, with_lock, modify. rewrite Hfree. simpl.
  split; [done|]. by exists tt.
Qed.

Lemma ends_time_sleep d : ends_unlocked is_ok (time_sleep d).
Proof. intros s Hfree. split; [done|]. by exists tt. Qed.

Lemma ends_ask {A} (oracle : nat -> A) : ends_unlocked is_ok (ask oracle).
Proof. intros s Hfree. split; [done|]. by eexists. Qed.

Lemma requests_get_run url s :
  requests_get http_get url s =
    (match http_get (env_calls s) url with
     | Responded r => Ok r
     | Failed e => Raise e
     end,
     set_fetched (fun l => l ++ [url]) (set_env_calls S s)).
Proof.
  unfold requests_get, ask, bind, modify. simpl.
  by destruct (http_get (env_calls s) url).
Qed.

Lemma ends_requests_get url : ends_unlocked not_blocked (requests_get http_get url).
Proof.
  intros s Hfree. unfold exec, eval. rewrite requests_get_run. simpl.
  split; [done|]. unfold not_blocked. by destruct (http_get _ _).
Qed.

Lemma ends_rate_limit : ends_unlocked is_ok (_rate_limit config clock uniform).
Proof.
  intros s Hfree. unfold exec, eval. rewrite rate_limit_run. simpl.
  split; [by destruct (Qltb _ _)|]. by exists tt.
Qed.

Lemma ends_save_processed_id paste_id : ends_unlocked is_ok (save_id paste_id).
Proof.
  intros s Hfree. unfold exec, eval. rewrite save_processed_id_run. simpl.
  split; [by destruct (open_fails _ _)|]. by exists tt.
Qed.

Lemma ends_save_db : ends_unlocked is_ok save_db.
Proof.
  intros s Hfree. unfold exec, eval. rewrite save_db_run by done. simpl.
  split; [by destruct (open_fails _ _)|]. by exists tt.
Qed.

Lemma ends_stop_scan :
  ends_unlocked is_ok (stop_scan config open_fails json_chunks).
Proof.
  unfold stop_scan. apply ends_ok_bind; [|intros _; apply ends_save_db].
  intros s Hfree. split; [done|]. by exists tt.
Qed.

Lemma ends_scrape paste_id : ends_unlocked is_ok (scrape paste_id).
Proof.
  unfold scrape_single_paste, datetime_now_isoformat.
  apply ends_ok_bind; [intros s Hfree; split; [done|by eexists]|]. intros s.
  destruct (decide _); [apply ends_ret|].
  apply ends_try_except.
  - apply ends_bind; [apply ends_ok_weaken, ends_rate_limit|]. intros _.
    apply ends_bind; [apply ends_requests_get|]. intros response.
    destruct (status_code response =? 404).
    { apply ends_ok_weaken, ends_ok_bind; [apply ends_save_processed_id|].
      intros _. apply ends_ret. }
    destruct (status_code response =? 403).
    { apply ends_ok_weaken, ends_ok_bind; [apply ends_time_sleep|].
      intros _. apply ends_ret. }
    destruct (negb _); [apply ends_ok_weaken, ends_ret|].
    destruct (extract_onion_links findall (text response)).
    { apply ends_ok_weaken, ends_ok_bind; [apply ends_save_processed_id|].
      intros _. apply ends_ret. }
    apply ends_bind; [apply ends_requests_get|]. intros meta.
    apply ends_ok_weaken.
    apply ends_ok_bind; [apply ends_ask|]. intros date.
    destruct (if status_code meta =? 200 then _ else _) as [title date_str].
    apply ends_ok_bind; [apply ends_ask|]. intros crawled.
    apply ends_ok_bind; [apply ends_progress|]. intros _.
    apply ends_ok_bind; [apply ends_save_processed_id|]. intros _.
    apply ends_ret.
  - intros _. apply ends_ok_bind; [apply ends_progress|]. intros _.
    apply ends_ret.
Qed.

Lemma ends_search term max_pages :
  ends_unlocked is_ok
    (search_pastebin config clock uniform http_get search_url_for soup_hrefs
       term max_pages).
Proof.
  intros s Hfree. unfold search_pastebin, exec, eval.
  destruct (search_pages_run term (seq 1 max_pages) [] s)
    as (ids & s' & -> & (_ & _ & _ & Hlock & _) & _).
  simpl. split; [congruence|]. by eexists.
Qed.

(** X16. Calls that cannot fail. Started with the lock free,
    [scrape_single_paste], [_rate_limit], [_save_processed_id],
    [_save_db], [stop_scan] and [search_pastebin] each return a value and
    leave the lock free, whatever the site, the clock and the file system
    do: no exception of a fetch or of a file operation leaves them, and
    none of them waits for the lock. *)
Theorem scan_steps_always_return :
  (forall paste_id, ends_unlocked is_ok (scrape paste_id)) /\
  ends_unlocked is_ok (_rate_limit config clock uniform) /\
  (forall paste_id, ends_unlocked is_ok (save_id paste_id)) /\
  ends_unlocked is_ok save_db /\
  ends_unlocked is_ok (stop_scan config open_fails json_chunks) /\
  (forall term max_pages,
     ends_unlocked is_ok
       (search_pastebin config clock uniform http_get search_url_for
          soup_hrefs term max_pages)).
Proof.
  split; [exact ends_scrape|]. split; [exact ends_rate_limit|].
  split; [exact ends_save_processed_id|]. split; [exact ends_save_db|].
  split; [exact ends_stop_scan | exact ends_search].
Qed.

(** *** What a scrape does with each answer of the site *)


Lemma run_bind_raise {A B} (c : M Scraper A) (k : A -> M Scraper B) s e s1 :
  c s = (Raise e, s1) -> bind c k s = (Raise e, s1).
Proof. intros H. unfold bind. by rewrite H. Qed.




(** *** Link extraction *)

Lemma prefix_append (a b : string) : String.prefix a (String.append a b) = true.
Proof.
  apply String.prefix_correct. induction a as [|c a IH].
  - change (String.substring 0 0 b = ""). by destruct b.
  - change (String c (String.substring 0 (String.length a) (String.append a b))
            = String c a).
    by rewrite IH.
Qed.

(** X19. Link extraction. [extract_onion_links] returns every match of
    the pattern once, with [http://] put in front of the matches that
    start with neither [http://] nor [https://]: the result has no
    duplicates, each of its links starts with one of the two schemes, it
    has at most as many links as there are matches, and it is empty
    exactly when there is no match. *)
Theorem extract_onion_links_normalises (content : string) :
  let links := extract_onion_links findall content in
  NoDup links /\
  (forall link, link ∈ links <->
     exists m, m ∈ findall content /\
       link = if String.prefix "http://" m || String.prefix "https://" m
              then m else String.append "http://" m) /\
  (forall link, link ∈ links ->
     String.prefix "http://" link || String.prefix "https://" link = true) /\
  (length links <= length (findall content))%nat /\
  (links = [] <-> findall content = []).
Proof.
  intros links. subst links. unfold extract_onion_links.
  set (normal := fun link : string =>
         if String.prefix "http://" link || String.prefix "https://" link
         then link else String.append "http://" link).
  assert (forall link,
            link ∈ elements (list_to_set (map normal (findall content)) : gset string)
            <-> exists m, m ∈ findall content /\ link = normal m) as Hin.
  { intros link. rewrite elem_of_elements, elem_of_list_to_set.
    change (map normal (findall content)) with (normal <$> findall content).
    rewrite list_elem_of_fmap. split; intros (m & H1 & H2); eauto. }
  split; [apply NoDup_elements|]. split; [exact Hin|]. split; [|split].
  - intros link Hl. apply (proj1 (Hin link)) in Hl as (m & _ & ->).
    subst normal. cbv beta.
    destruct (String.prefix "http://" m || String.prefix "https://" m) eqn:E;
      [exact E|].
    apply orb_true_intro. left. apply prefix_append.
  - change (length (elements ?X)) with (size X).
    etrans; [apply size_list_to_set_le|]. by rewrite length_map.
  - split.
    + intros Hnil. destruct (findall content) as [|m ms] eqn:E; [done|].
      assert (normal m ∈ elements (list_to_set (map normal (m :: ms)) : gset string))
        as Hm by (apply Hin; exists m; split; [left|done]).
      rewrite Hnil in Hm. by apply elem_of_nil in Hm.
    + intros ->. simpl. apply elements_empty.
Qed.

(** *** Merging *)

(** X20. The same paste merged twice. Two entries with the same
    identifier are merged, with the lock free, into a store that has no
    record with it, away from a periodic save. Both merges return; one
    record is appended, which has the links of the first entry followed
    by the links of the second whose value the first does not have; and
    merging the second entry once more changes nothing. *)
Theorem merge_same_paste_twice (r1 r2 : Entry) (s : Scraper) :
  lock_held s = false ->
  pasteId r1 = pasteId r2 ->
  (forall r, r ∈ onion_links (db s) -> pasteId r <> pasteId r1) ->
  save_interval config <> 0 ->
  (Z.of_nat (length (onion_links (db s))) + 1) mod save_interval config <> 0 ->
  let s2 := exec (merge (Some r1) ;; merge (Some r2)) s in
  eval (merge (Some r1) ;; merge (Some r2)) s = Ok tt /\
  onion_links (db s2) = onion_links (db s) ++ [extend r1 (unseen r1 r2)] /\
  merge (Some r2) s2 = (Ok tt, s2).
Proof.
  intros Hfree Hid Hnew Hnz Hmod s2. subst s2. unfold eval, exec.
  pose proof (add_entry_union config open_fails json_chunks r1 r2 s
                Hfree Hid Hnew Hnz Hmod) as Hrun.
  rewrite Hrun. simpl. split; [done|]. split; [done|].
  unfold bind in Hrun.
  destruct (merge (Some r1) s) as [[[]| |] s1] eqn:E1; try discriminate.
  by apply (add_entry_idempotent config open_fails json_chunks r2 s1).
Qed.

(** X21. A save interval of zero. With [save_interval] set to 0 and the
    lock free, the merge of an entry whose identifier is new appends
    the record, releases the lock and raises [ZeroDivisionError]; the
    merge of an entry whose identifier is already stored returns as
    usual. *)
Theorem merge_with_zero_save_interval (entry : Entry) (s : Scraper) :
  lock_held s = false ->
  save_interval config = 0 ->
  ((forall r, r ∈ onion_links (db s) -> pasteId r <> pasteId entry) ->
   merge (Some entry) s =
     (Raise ZeroDivisionError,
      set_db (fun d => mkDB (onion_links d ++ [entry]) (scan_sessions d)) s)) /\
  ((exists r, r ∈ onion_links (db s) /\ pasteId r = pasteId entry) ->
   eval (merge (Some entry)) s = Ok tt).
Proof.
  intros Hfree Hzero. split.
  - intros Hnew. rewrite add_entry_run by done.
    rewrite (proj2 (merge_existing_None entry _)) by done.
    cbv zeta. by rewrite Hzero.
  - intros (r & Hin & Hid). unfold eval. rewrite add_entry_run by done.
    destruct (merge_existing entry (onion_links (db s))) as [records|] eqn:E;
      [done|].
    by destruct (proj1 (merge_existing_None entry _) E r Hin).
Qed.

Lemma links_unique_same_db s s' : db s' = db s -> links_unique s -> links_unique s'.
Proof. unfold links_unique. by intros ->. Qed.

Lemma links_unique_process paste_id s :
  links_unique s -> links_unique (exec (process paste_id) s).
Proof.
  intros Hinv. unfold process_paste. rewrite exec_bind.
  pose proof (scrape_same_db config clock uniform isoformat_now http_get
                open_fails findall soup_title soup_date paste_id s) as Hdb.
  unfold exec in Hdb.
  pose proof (scrape_returns config clock uniform isoformat_now http_get
                open_fails findall soup_title soup_date paste_id s) as Hret.
  destruct (scrape paste_id s) as [[result| |] s1] eqn:E; simpl in Hdb;
    try by apply (links_unique_same_db s).
  assert (links_unique s1) as Hinv1 by by apply (links_unique_same_db s).
  rewrite exec_bind. destruct result as [entry|].
  - destruct (Hret (Some entry) s1 eq_refl entry eq_refl) as (_ & _ & Hnd & _).
    pose proof (links_unique_add_entry config open_fails json_chunks
                  entry s1 Hnd Hinv1) as Hinv2.
    unfold exec in Hinv2.
    destruct (merge (Some entry) s1) as [[[]| |] s2]; simpl in Hinv2; done.
  - done.
Qed.

(** X22. No link twice in a record. When the link values of every stored
    record are pairwise distinct, they still are after the merge of an
    entry whose link values are pairwise distinct, and after a scan pass
    over any identifiers, whatever the site answers. *)
Theorem link_values_stay_distinct :
  (forall entry s,
     NoDup (link_values entry) -> links_unique s ->
     links_unique (exec (merge (Some entry)) s)) /\
  (forall ids s, links_unique s -> links_unique (exec (process_all ids) s)).
Proof.
  split; [apply links_unique_add_entry|].
  intros ids. induction ids as [|paste_id rest IH]; intros s Hinv; simpl; [done|].
  rewrite exec_bind. unfold get_state. destruct (is_running s); [|done].
  rewrite exec_bind.
  pose proof (links_unique_process paste_id s Hinv) as H1. unfold exec in H1.
  destruct (process paste_id s) as [[[]| |] s1]; simpl in H1; try done.
  by apply IH.
Qed.

(** *** Stopping *)


End Facts.

(** *** The properties at work in the small world *)

Lemma no_space_ledger : Forall (fun id => PyStr.no_space id = true) ["abc123"; "xyz789"].
Proof. repeat constructor. Qed.


Lemma restart_skips_recorded_witness :
  let restart :=
    __init__ config_save_each disk_works (fun _ => None) in
  processed_ids (exec restart ledgered_scraper)
    = list_to_set ["abc123"; "xyz789"] /\
  forall paste_id, paste_id ∈ ["abc123"; "xyz789"] ->
    scrape_single_paste config_save_each still_clock low_uniform fixed_stamp
      two_paste_site disk_works one_address_matcher no_metadata no_metadata
      paste_id (exec restart ledgered_scraper)
    = (Ok None, exec restart ledgered_scraper).
Proof.
  refine (proj2 (restart_skips_recorded config_save_each still_clock low_uniform
                   fixed_stamp two_paste_site disk_works one_address_matcher
                   no_metadata no_metadata (fun _ => None) ledgered_scraper
                   ["abc123"; "xyz789"] _ _) _ _).
  - reflexivity.
  - intros k. reflexivity.
  - reflexivity.
  - apply no_space_ledger.
Defined.


(** With the decoder of the example, a flush that is cut short leaves a
    file from which the next start gets an empty store. *)
Example killed_flush_loses_the_store :
  let json_load :=
    load_one (serialised (id_chunks (db flushed_scraper))) (db flushed_scraper) in
  eval (_save_db_killed config_save_each id_chunks 1 ;;
        _load_db config_save_each disk_works json_load) flushed_scraper
    = Ok empty_db.
Proof. vm_compute. reflexivity. Qed.

Lemma store_inv_flushed_scraper : store_inv flushed_scraper.
Proof.
  intros r Hr. change (onion_links (db flushed_scraper))
    with [record "old" ["http://old.onion"]; record "abc123" ["http://a.onion"]] in Hr.
  apply elem_of_cons in Hr as [->|Hr]; [done|].
  apply elem_of_cons in Hr as [->|Hr]; [done|].
  by apply elem_of_nil in Hr.
Qed.

Lemma statistics_consistent_witness :
  exists st,
    get_statistics flushed_scraper = (Ok st, flushed_scraper) /\
    total_pastes_with_onions st <= total_onion_links st.
Proof.
  destruct (statistics_consistent flushed_scraper) as (st & Hrun & _ & _ & Hle).
  exists st. split; [exact Hrun|]. apply Hle, store_inv_flushed_scraper.
Defined.

Lemma rate_limit_sleeps_the_difference_witness :
  Scraper.slept (exec (_rate_limit config_save_each late_clock low_uniform) new_scraper)
    = Scraper.slept new_scraper.
Proof.
  refine (proj2 (proj2 (proj2 (proj2 (proj2
    (rate_limit_sleeps_the_difference config_save_each late_clock low_uniform
       new_scraper))))) _ _).
  - vm_compute. discriminate.
  - vm_compute. discriminate.
Defined.

(** On the still clock the first request waits for the whole delay. *)
Example rate_limit_first_request :
  Scraper.slept (exec (_rate_limit config_save_each still_clock low_uniform) new_scraper)
    = [1%Q].
Proof. vm_compute. reflexivity. Qed.

Lemma search_pastebin_returns_fresh_ids_witness :
  exists ids s',
    search_pastebin config_save_each still_clock low_uniform page_site
      search_url_flat one_result_page "onion" 2 new_scraper = (Ok ids, s') /\
    forall paste_id, paste_id ∈ ids ->
      (paste_id ∉ processed_ids new_scraper) /\
      (1 <= String.length paste_id <= 9)%nat.
Proof.
  destruct (search_pastebin_returns_fresh_ids config_save_each still_clock
              low_uniform page_site search_url_flat one_result_page
              "onion" 2 new_scraper)
    as (ids & s' & Hrun & _ & _ & _ & Hids).
  exists ids, s'. split; [exact Hrun | exact Hids].
Defined.

(** Two pages of the same results: the identifiers come once per page,
    since a search records nothing. *)
Example search_two_pages :
  eval (search_pastebin config_save_each still_clock low_uniform page_site
          search_url_flat one_result_page "onion" 2) new_scraper
    = Ok ["abc123"; "xyz789"; "abc123"; "xyz789"].
Proof. vm_compute. reflexivity. Qed.

Lemma scan_steps_always_return_witness :
  lock_held
    (exec (scrape_single_paste config_save_each still_clock low_uniform
             fixed_stamp two_paste_site disk_works one_address_matcher
             no_metadata no_metadata "abc123") new_scraper) = false /\
  is_ok
    (eval (scrape_single_paste config_save_each still_clock low_uniform
             fixed_stamp two_paste_site disk_works one_address_matcher
             no_metadata no_metadata "abc123") new_scraper).
Proof.
  refine (proj1 (scan_steps_always_return config_save_each still_clock
                   low_uniform fixed_stamp two_paste_site disk_works
                   one_address_matcher no_metadata no_metadata id_chunks
                   search_url_flat one_result_page) "abc123" new_scraper _).
  reflexivity.
Defined.



Lemma extract_onion_links_normalises_witness :
  let links :=
    extract_onion_links one_address_matcher "see abcdefghijklmnop.onion" in
  NoDup links /\
  (forall link, link ∈ links ->
     String.prefix "http://" link || String.prefix "https://" link = true) /\
  (length links <= 1)%nat.
Proof.
  destruct (extract_onion_links_normalises one_address_matcher
              "see abcdefghijklmnop.onion") as (Hnd & _ & Hscheme & Hlen & _).
  split; [exact Hnd|]. split; [exact Hscheme | exact Hlen].
Defined.

Lemma merge_same_paste_twice_witness :
  let r1 := record "abc123" ["http://a.onion"] in
  let r2 := record "abc123" ["http://b.onion"; "http://a.onion"] in
  let merge := add_entry default_config disk_works id_chunks in
  let s2 := exec (merge (Some r1) ;; merge (Some r2)) (scraper_with 3) in
  eval (merge (Some r1) ;; merge (Some r2)) (scraper_with 3) = Ok tt /\
  onion_links (db s2)
    = onion_links (db (scraper_with 3)) ++ [extend r1 (unseen r1 r2)] /\
  merge (Some r2) s2 = (Ok tt, s2).
Proof.
  apply (merge_same_paste_twice default_config disk_works id_chunks
           (record "abc123" ["http://a.onion"])
           (record "abc123" ["http://b.onion"; "http://a.onion"])
           (scraper_with 3)).
  - reflexivity.
  - reflexivity.
  - intros r Hr.
    change (onion_links (db (scraper_with 3)))
      with (replicate 3 (record "old" ["http://old.onion"])) in Hr.
    apply elem_of_replicate in Hr as [-> _]. discriminate.
  - discriminate.
  - vm_compute. discriminate.
Defined.

Lemma merge_with_zero_save_interval_witness :
  let entry := record "abc123" ["http://a.onion"] in
  add_entry config_zero_interval disk_works id_chunks (Some entry) new_scraper =
    (Raise ZeroDivisionError,
     set_db (fun d => mkDB (onion_links d ++ [entry]) (scan_sessions d))
       new_scraper).
Proof.
  refine (proj1 (merge_with_zero_save_interval config_zero_interval disk_works
                   id_chunks (record "abc123" ["http://a.onion"]) new_scraper
                   _ _) _).
  - reflexivity.
  - reflexivity.
  - intros r Hr. by apply elem_of_nil in Hr.
Defined.

Lemma link_values_stay_distinct_witness :
  links_unique
    (exec (process_ids default_config still_clock low_uniform fixed_stamp
             two_paste_site disk_works one_address_matcher no_metadata
             no_metadata id_chunks ["abc123"; "abc123"; "xyz789"])
       new_scraper).
Proof.
  refine (proj2 (link_values_stay_distinct default_config still_clock
                   low_uniform fixed_stamp two_paste_site disk_works
                   one_address_matcher no_metadata no_metadata id_chunks)
            ["abc123"; "abc123"; "xyz789"] new_scraper _).
  intros r Hr. by apply elem_of_nil in Hr.
Defined.


End ScraperRestFacts.

(** ** The scraper that fetches through the pool *)

Module ProxyScraperFacts.
Import Scraper ScraperFacts ScraperRest ProxyScraper.

Section Facts.

Variable config : Config.
Variable clock : nat -> Q.
Variable server : nat -> Proxy.Request -> Outcome.
Variable self : Proxy.Client.
Variable isoformat_now : nat -> string.
Variable open_fails : nat -> string -> bool.
Variable findall : string -> list string.
Variable soup_title : string -> option (option string).
Variable soup_date : string -> option (option string).

Local Abbreviation scrape :=
  (scrape_single_paste config clock server self isoformat_now open_fails
     findall soup_title soup_date).
Local Abbreviation fetch := (ProxyRest.get clock server self).
Local Abbreviation save_id := (_save_processed_id config open_fails).
Local Abbreviation ledger_path := (String.append (db_path config) ".processed").

Lemma on_proxies_run {A} (c : M Proxy.World A) x r w :
  c (proxy_world x) = (r, w) -> on_proxies c x = (r, mkExt (base_scraper x) w).
Proof. intros H. unfold on_proxies. by rewrite H. Qed.

Lemma bind_run_ok {S A B} (c : M S A) (k : A -> M S B) s a s1 :
  c s = (Ok a, s1) -> bind c k s = k a s1.
Proof. intros H. unfold bind. by rewrite H. Qed.

Lemma scrape_known paste_id x :
  paste_id ∈ processed_ids (base_scraper x) -> scrape paste_id x = (Ok None, x).
Proof.
  intros Hin. unfold scrape_single_paste, bind, get_state.
  by destruct (decide (paste_id ∈ processed_ids (base_scraper x))).
Qed.

(** X24. Through the pool a missing paste is never recorded. For an
    identifier in the ledger the proxied scrape returns [None] and does
    nothing at all. For an identifier that is not in the ledger, when
    the fetch through the pool gives no response or a response whose
    status is not 200, the proxied scrape returns [None] and leaves the
    base scraper exactly as it was: also a 404 leaves the identifier out
    of the ledger, because a response with status 404 counts as no
    response. *)
Theorem proxied_scrape_records_nothing_without_200
    (paste_id : string) (x : Ext) :
  (paste_id ∈ processed_ids (base_scraper x) ->
   scrape paste_id x = (Ok None, x)) /\
  (paste_id ∉ processed_ids (base_scraper x) ->
   forall response proxy w',
     fetch (raw_url_template paste_id) (proxy_world x)
       = (Ok (response, proxy), w') ->
     (forall r, response = Some r -> status_code r <> 200) ->
     scrape paste_id x = (Ok None, mkExt (base_scraper x) w')).
Proof.
  split; [apply scrape_known|].
  intros Hnew response proxy w' Hget Hstatus.
  unfold scrape_single_paste. unfold bind at 1, get_state.
  destruct (decide (paste_id ∈ processed_ids (base_scraper x))); [done|].
  unfold try_except.
  rewrite (bind_run_ok _ _ _ _ _ (on_proxies_run _ _ _ _ Hget)).
  destruct response as [r|]; [|done].
  destruct (response_ok r) eqn:Eok; [|done]. cbv beta iota. simpl negb. cbv iota.
  destruct (status_code r =? 404) eqn:E404.
  { apply Z.eqb_eq in E404. unfold response_ok in Eok. rewrite E404 in Eok.
    discriminate. }
  destruct (status_code r =? 200) eqn:E200; [|done].
  apply Z.eqb_eq in E200. by destruct (Hstatus r eq_refl).
Qed.

Lemma on_base_run {A} (c : M Scraper A) x r b :
  c (base_scraper x) = (r, b) -> on_base c x = (r, mkExt b (proxy_world x)).
Proof. intros H. unfold on_base. by rewrite H. Qed.

Lemma save_id_run paste_id x :
  on_base (save_id paste_id) x =
    (Ok tt, mkExt (exec (save_id paste_id) (base_scraper x)) (proxy_world x)).
Proof.
  apply on_base_run. unfold exec.
  by rewrite (ScraperRestFacts.save_processed_id_run config open_fails).
Qed.

Lemma response_ok_200 r : status_code r = 200 -> response_ok r = true.
Proof. unfold response_ok. by intros ->. Qed.

(** What the proxied scrape does once the raw text came with status 200. *)
Lemma scrape_found paste_id x r proxy w1 :
  paste_id ∉ processed_ids (base_scraper x) ->
  fetch (raw_url_template paste_id) (proxy_world x) = (Ok (Some r, proxy), w1) ->
  status_code r = 200 ->
  let links := extract_onion_links findall (text r) in
  let b := base_scraper x in
  (links = [] ->
   scrape paste_id x = (Ok None, mkExt (exec (save_id paste_id) b) w1)) /\
  (links <> [] ->
   forall got w2,
     fetch (paste_url_template paste_id) w1 = (Ok got, w2) ->
     exists e,
       scrape paste_id x =
         (Ok (Some e),
          mkExt (exec (save_id paste_id) (set_env_calls (fun n => S (S n)) b)) w2) /\
       proxy_used e = proxy /\
       pasteId (entry e) = Some paste_id /\
       onionLinks (entry e) = map (fun link => mkLink link None) links /\
       sourcePasteUrl (entry e) = paste_url_template paste_id /\
       crawledTimeStamp (entry e) = isoformat_now (S (env_calls b))).
Proof.
  intros Hnew Hget Hstatus links b.
  assert (scrape paste_id x =
          try_except
            (match links with
             | [] => on_base (save_id paste_id) ;; ret None
             | _ :: _ =>
                 do got_meta <- on_proxies (fetch (paste_url_template paste_id));
                 do date_str <- on_base (datetime_now_isoformat isoformat_now);
                 let '(title, date_str) :=
                   match fst got_meta with
                   | Some meta =>
                       if response_ok meta && (status_code meta =? 200) then
                         match soup_title (text meta) with
                         | None => (String.append "Paste " paste_id, date_str)
                         | Some t =>
                             match soup_date (text meta) with
                             | None =>
                                 (default (String.append "Paste " paste_id) t, date_str)
                             | Some d =>
                                 (default (String.append "Paste " paste_id) t,
                                  default date_str d)
                             end
                         end
                       else (String.append "Paste " paste_id, date_str)
                   | None => (String.append "Paste " paste_id, date_str)
                   end in
                 do crawled <- on_base (datetime_now_isoformat isoformat_now);
                 on_base (save_id paste_id) ;;
                 ret (Some (mkProxyEntry
                        {| crawledTimeStamp := crawled;
                           pasteDateTimestamp := date_str;
                           sourcePasteUrl := paste_url_template paste_id;
                           sourcePasteTitle := title;
                           onionLinks := map (fun link => mkLink link None) links;
                           pasteId := Some paste_id |} proxy))
             end)
            (fun _ => ret None) (mkExt (base_scraper x) w1)) as Hrun.
  { unfold scrape_single_paste. unfold bind at 1, get_state.
    destruct (decide (paste_id ∈ processed_ids (base_scraper x))); [done|].
    unfold try_except.
    rewrite (bind_run_ok _ _ _ _ _ (on_proxies_run _ _ _ _ Hget)).
    cbv beta iota. rewrite (response_ok_200 r Hstatus), Hstatus.
    reflexivity. }
  rewrite Hrun. clear Hrun. split.
  - intros ->. unfold try_except, bind. by rewrite save_id_run.
  - intros Hne got w2 Hmeta.
    destruct links as [|link rest] eqn:Elinks; [done|].
    unfold try_except.
    rewrite (bind_run_ok _ _ _ _ _
               (on_proxies_run _ (mkExt (base_scraper x) w1) _ _ Hmeta)).
    unfold bind at 1. unfold on_base at 1, datetime_now_isoformat at 1, ask at 1.
    cbn [base_scraper proxy_world].
    destruct (match fst got with Some _ => _ | None => _ end)
      as [title date_str].
    unfold bind at 1. unfold on_base at 1, datetime_now_isoformat at 1, ask at 1.
    cbn [base_scraper proxy_world].
    unfold bind. rewrite save_id_run. cbn [base_scraper proxy_world].
    eexists. split; [reflexivity|]. done.
Qed.

Lemma save_id_frame paste_id b k :
  env_calls b = k ->
  let b' := exec (save_id paste_id) b in
  db b' = db b /\ scan_progress b' = scan_progress b /\
  lock_held b' = lock_held b /\ fetched b' = fetched b /\
  Scraper.slept b' = Scraper.slept b /\
  last_request_time b' = last_request_time b /\
  is_running b' = is_running b /\
  if open_fails k ledger_path
  then processed_ids b' = processed_ids b /\ disk b' = disk b
  else processed_ids b' = processed_ids b ∪ {[paste_id]} /\
       disk b' = <[ledger_path :=
                    String.append (default "" (disk b !! ledger_path))
                      (String.append paste_id newline)]> (disk b).
Proof.
  intros <- b'. subst b'. unfold exec.
  rewrite (ScraperRestFacts.save_processed_id_run config open_fails).
  destruct (open_fails (env_calls b) ledger_path); simpl; done.
Qed.


Lemma fetch_run url w :
  Proxy.wf (Proxy.manager w) ->
  exists res w',
    fetch url w = (Ok res, w') /\
    Proxy.wf (Proxy.manager w') /\
    Proxy.proxies (Proxy.manager w') ≡ₚ Proxy.proxies (Proxy.manager w) /\
    (res = (None, None) \/
     exists r p, res = (Some r, Some p) /\
       (status_code r = 200 \/ status_code r = 404) /\
       p ∈ Proxy.proxies (Proxy.manager w)).
Proof.
  intros Hwf. unfold ProxyRest.get, Proxy.request.
  destruct (ProxyRestFacts.request_loop_outcome clock server self "GET" url
              (Z.to_nat (Proxy.max_retries self)) 0 w Hwf)
    as (res & w' & ps & ds & Hrun & Hwf' & Hperm & _ & _ & Hin & _ & _ & _ & Hres).
  exists res, w'. split; [done|]. split; [done|]. split; [done|].
  destruct Hres as [->|(r & p & -> & Hst & Hlast & _)]; [by left|].
  right. exists r, p. split; [done|]. split; [done|].
  apply Hin. destruct ps as [|q ps] using rev_ind; [done|].
  rewrite last_snoc in Hlast. injection Hlast as ->.
  apply elem_of_app. right. left.
Qed.

(** X26. The proxied scrape always returns. On a well-formed pool,
    whatever the peers answer, the proxied scrape returns [None] or a
    record; the pool stays well formed with the same addresses; the
    ledger only grows; and of the base scraper neither the store, the
    lock, the progress counters, the list of direct fetches, the sleeps
    nor the time of the last request change: it does not go through the
    rate limiter and counts neither found links nor errors. A record it
    returns has at least one link and names a proxy of the pool. *)
Theorem proxied_scrape_always_returns (paste_id : string) (x : Ext) :
  Proxy.wf (Proxy.manager (proxy_world x)) ->
  exists res x',
    scrape paste_id x = (Ok res, x') /\
    Proxy.wf (Proxy.manager (proxy_world x')) /\
    Proxy.proxies (Proxy.manager (proxy_world x'))
      ≡ₚ Proxy.proxies (Proxy.manager (proxy_world x)) /\
    processed_ids (base_scraper x) ⊆ processed_ids (base_scraper x') /\
    db (base_scraper x') = db (base_scraper x) /\
    lock_held (base_scraper x') = lock_held (base_scraper x) /\
    scan_progress (base_scraper x') = scan_progress (base_scraper x) /\
    fetched (base_scraper x') = fetched (base_scraper x) /\
    Scraper.slept (base_scraper x') = Scraper.slept (base_scraper x) /\
    last_request_time (base_scraper x') = last_request_time (base_scraper x) /\
    forall e, res = Some e ->
      pasteId (entry e) = Some paste_id /\
      onionLinks (entry e) <> [] /\
      exists p, proxy_used e = Some p /\
                p ∈ Proxy.proxies (Proxy.manager (proxy_world x)).
Proof.
  intros Hwf.
  destruct (decide (paste_id ∈ processed_ids (base_scraper x))) as [Hin|Hnew].
  { exists None, x. rewrite scrape_known by done. split; [done|].
    do 9 (split; [done|]). by intros e [=]. }
  destruct (fetch_run (raw_url_template paste_id) (proxy_world x) Hwf)
    as ([response proxy] & w1 & Hget & Hwf1 & Hperm1 & Hres).
  assert (forall k b,
            env_calls b = k ->
            processed_ids b ⊆ processed_ids (exec (save_id paste_id) b))
    as Hgrow.
  { intros k b Hk.
    destruct (save_id_frame paste_id b k Hk) as (_ & _ & _ & _ & _ & _ & _ & H).
    destruct (open_fails k ledger_path); destruct H as [-> _];
      [done | apply union_subseteq_l]. }
  assert ((forall r, response = Some r -> status_code r <> 200) \/
          exists r, response = Some r /\ status_code r = 200) as [Hnot|Hyes].
  { destruct response as [r|]; [|by left].
    destruct (decide (status_code r = 200)); [right; by exists r|].
    left. by intros r' [= <-]. }
  - exists None, (mkExt (base_scraper x) w1).
    split.
    { unfold scrape_single_paste. unfold bind at 1, get_state.
      destruct (decide (paste_id ∈ processed_ids (base_scraper x))); [done|].
      unfold try_except.
      rewrite (bind_run_ok _ _ _ _ _ (on_proxies_run _ _ _ _ Hget)).
      destruct response as [r|]; [|done].
      destruct (response_ok r) eqn:Eok; [|done]. cbv beta iota. simpl negb.
      cbv iota.
      destruct (status_code r =? 404) eqn:E404.
      { apply Z.eqb_eq in E404. unfold response_ok in Eok. rewrite E404 in Eok.
        discriminate. }
      destruct (status_code r =? 200) eqn:E200; [|done].
      apply Z.eqb_eq in E200. by destruct (Hnot r eq_refl). }
    simpl. do 9 (split; [done|]). by intros e [=].
  - destruct Hyes as (r & -> & Hstatus).
    destruct Hres as [[=]|(r' & p & [= <- ->] & _ & Hp)].
    destruct (scrape_found paste_id x r (Some p) w1 Hnew Hget Hstatus)
      as [Hnone Hsome].
    destruct (extract_onion_links findall (text r)) as [|link rest] eqn:Elinks.
    + exists None. eexists. split; [by apply Hnone|]. simpl.
      destruct (save_id_frame paste_id (base_scraper x) _ eq_refl)
        as (? & ? & ? & ? & ? & ? & _ & _).
      split; [done|]. split; [done|]. split; [by eapply Hgrow|].
      do 6 (split; [done|]). by intros e [=].
    + destruct (fetch_run (paste_url_template paste_id) w1 Hwf1)
        as (got & w2 & Hmeta & Hwf2 & Hperm2 & _).
      destruct (Hsome ltac:(done) got w2 Hmeta)
        as (e & Hrun & Hproxy & Hid & Hlinks & _).
      exists (Some e). eexists. split; [exact Hrun|]. simpl.
      destruct (save_id_frame paste_id
                  (set_env_calls (fun n => S (S n)) (base_scraper x)) _ eq_refl)
        as (? & ? & ? & ? & ? & ? & _ & _).
      split; [done|]. split; [by etrans|].
      split; [by apply (Hgrow _ (set_env_calls (fun n => S (S n)) (base_scraper x)) eq_refl)|].
      split; [done|]. split; [done|]. split; [done|]. split; [done|].
      split; [done|]. split; [done|].
      intros e' [= <-]. split; [done|]. split; [by rewrite Hlinks|].
      exists p. done.
Qed.

End Facts.

(** *** The properties at work in the small world *)

Lemma proxied_scrape_records_nothing_without_200_witness :
  let fetch := ProxyRest.get still_clock server_404 Proxy.default_client in
  scrape_single_paste config_save_each still_clock server_404
    Proxy.default_client fixed_stamp disk_works one_address_matcher
    no_metadata no_metadata "gone" new_ext
  = (Ok None,
     mkExt new_scraper
       (exec (fetch (raw_url_template "gone")) (proxy_world new_ext))).
Proof.
  refine (proj2 (proxied_scrape_records_nothing_without_200 config_save_each
                   still_clock server_404 Proxy.default_client fixed_stamp
                   disk_works one_address_matcher no_metadata no_metadata
                   "gone" new_ext)
            _ (Some (mkResponse 404 "")) (Some "p") _ _ _).
  - exact (not_elem_of_empty (C := gset string) "gone").
  - vm_compute. reflexivity.
  - intros r [= <-]. discriminate.
Defined.

(** A paste that is gone: the base scraper puts it in the ledger, the
    proxied scraper does not. *)
Example missing_paste_base_and_proxied :
  processed_ids
    (exec (Scraper.scrape_single_paste config_save_each still_clock
             low_uniform fixed_stamp site_404 disk_works one_address_matcher
             no_metadata no_metadata "gone") new_scraper) = {["gone"]} /\
  processed_ids
    (base_scraper
       (exec (scrape_single_paste config_save_each still_clock server_404
                Proxy.default_client fixed_stamp disk_works
                one_address_matcher no_metadata no_metadata "gone")
          new_ext)) = ∅.
Proof. split; vm_compute; reflexivity. Qed.


Lemma wf_new_ext : Proxy.wf (Proxy.manager (proxy_world new_ext)).
Proof. apply ProxyFacts.wf_init. Qed.

Lemma proxied_scrape_always_returns_witness :
  exists res x',
    scrape_single_paste config_save_each still_clock server_two_pastes
      Proxy.default_client fixed_stamp disk_works one_address_matcher
      no_metadata no_metadata "abc123" new_ext = (Ok res, x') /\
    db (base_scraper x') = db (base_scraper new_ext) /\
    scan_progress (base_scraper x') = scan_progress (base_scraper new_ext).
Proof.
  destruct (proxied_scrape_always_returns config_save_each still_clock
              server_two_pastes Proxy.default_client fixed_stamp disk_works
              one_address_matcher no_metadata no_metadata "abc123" new_ext
              wf_new_ext)
    as (res & x' & Hrun & _ & _ & _ & Hdb & _ & Hprog & _).
  exists res, x'. split; [exact Hrun|]. split; [exact Hdb | exact Hprog].
Defined.

End ProxyScraperFacts.
